(** * apple-music-discord: the presence client, its packets and its polling loop

    A shallow embedding of [src/apple_music_discord/main.py] and the proofs of
    its specification.  Python values are modelled as follows.

    - [str] is a list of Unicode code points ([Z]); [bytes] is a list of
      [Byte.byte].
    - [float] is an IEEE 754 binary64 value, [spec_float] of the Standard
      Library with [prec = 53] and [emax = 1024].
    - An exception is a value of [exn]; a computation that may raise returns a
      [result].
    - The operating system (sockets, the file system, the web, the player
      command) is an explicit argument of the functions that touch it.
    - What the interpreter's tables and number parser decide ([str.lower],
      [str.isdigit] past ASCII, [float] of a text) is a parameter. *)

From Stdlib Require Import ZArith List Bool Lia String Ascii.
From Stdlib Require Import Floats.SpecFloat.
From Stdlib Require Import Strings.Byte.
From Stdlib Require DecimalFacts DecimalPos DecimalN.
Import ListNotations.

Local Open Scope Z_scope.

(** ** Exceptions and results *)

Inductive exn : Type :=
| ValueError (msg : string)
| RuntimeError (msg : string)
| OSError
| struct_error
| JSONDecodeError
| UnicodeDecodeError
| UnicodeEncodeError
| AttributeError
| TypeError
| OverflowError
| HTTPError
| KeyError
| IndexError.

Inductive result (A : Type) : Type :=
| Ok (a : A)
| Raise (e : exn).

Arguments Ok {A} a.
Arguments Raise {A} e.

Definition bind {A B : Type} (c : result A) (k : A -> result B) : result B :=
  match c with
  | Ok a => k a
  | Raise e => Raise e
  end.

Notation "x <- c ;; k" := (bind c (fun x => k))
  (at level 61, c at next level, right associativity).
Notation "' p <- c ;; k" := (bind c (fun x => let p := x in k))
  (at level 61, p pattern, c at next level, right associativity).

(** ** Strings *)

Definition str : Type := list Z.
Definition bytes : Type := list byte.

Definition lit (s : string) : str :=
  map (fun a => Z.of_N (N_of_ascii a)) (list_ascii_of_string s).

Arguments lit : simpl never.

Fixpoint str_eqb (a b : str) : bool :=
  match a, b with
  | [], [] => true
  | x :: a', y :: b' => (x =? y) && str_eqb a' b'
  | _, _ => false
  end.

Definition str_is_empty (s : str) : bool :=
  match s with [] => true | _ => false end.

(** [str.isspace] of one code point: the code points CPython's
    [_PyUnicode_IsWhitespace] accepts. *)
Definition isspace (c : Z) : bool :=
  ((9 <=? c) && (c <=? 13)) || ((28 <=? c) && (c <=? 32))
  || (c =? 133) || (c =? 160) || (c =? 5760)
  || ((8192 <=? c) && (c <=? 8202))
  || (c =? 8232) || (c =? 8233) || (c =? 8239) || (c =? 8287) || (c =? 12288).

Fixpoint lstrip (s : str) : str :=
  match s with
  | [] => []
  | c :: r => if isspace c then lstrip r else s
  end.

Definition rstrip (s : str) : str := rev (lstrip (rev s)).

(** [s.strip()] *)
Definition strip (s : str) : str := rstrip (lstrip s).

(** ** Floats *)

Definition float : Type := spec_float.
Definition prec : Z := 53.
Definition emax : Z := 1024.

Definition float_valid (x : float) : bool := valid_binary prec emax x.
Definition float_zero : float := S754_zero false.
(** [float(z)] for an integer [z], rounded to nearest even. *)
Definition float_of_Z (z : Z) : float := binary_normalize prec emax z 0 false.
Definition float_sub (x y : float) : float := SFsub prec emax x y.

(** [int(x)]: truncation toward zero; raises on NaN and on infinities. *)
Definition int_of_float (x : float) : result Z :=
  match x with
  | S754_nan => Raise (ValueError "cannot convert float NaN to integer")
  | S754_infinity _ => Raise OverflowError
  | S754_zero _ => Ok 0
  | S754_finite s m e =>
      Ok (if 0 <=? e then cond_Zopp s (Zpos m * 2 ^ e)
          else Z.quot (cond_Zopp s (Zpos m)) (2 ^ (- e)))
  end.

(** The mathematical floor of the number a float denotes; none for NaN and
    the infinities. *)
Definition float_floor (x : float) : option Z :=
  match x with
  | S754_nan | S754_infinity _ => None
  | S754_zero _ => Some 0
  | S754_finite s m e =>
      Some (if 0 <=? e then cond_Zopp s (Zpos m * 2 ^ e)
            else Z.div (cond_Zopp s (Zpos m)) (2 ^ (- e)))
  end.

(** ** Bytes, [struct] and UTF-8 *)

Definition byte_val (b : byte) : Z := Z.of_N (Byte.to_N b).

Definition byte_of (z : Z) : byte :=
  match Byte.of_N (Z.to_N (z mod 256)) with
  | Some b => b
  | None => x00
  end.

(** One [I] field of [struct.pack("<II", ...)]: an unsigned 32-bit integer,
    least significant byte first. *)
Definition pack_u32 (z : Z) : result bytes :=
  if (0 <=? z) && (z <? 2 ^ 32)
  then Ok [byte_of z; byte_of (z / 256); byte_of (z / 65536); byte_of (z / 16777216)]
  else Raise struct_error.

Definition unpack_u32 (b0 b1 b2 b3 : byte) : Z :=
  byte_val b0 + 256 * byte_val b1 + 65536 * byte_val b2 + 16777216 * byte_val b3.

(** [struct.pack("<II", a, b)] *)
Definition struct_pack_II (a b : Z) : result bytes :=
  x <- pack_u32 a ;;
  y <- pack_u32 b ;;
  Ok (x ++ y).

(** [struct.unpack("<II", buf)] *)
Definition struct_unpack_II (buf : bytes) : result (Z * Z) :=
  match buf with
  | [a0; a1; a2; a3; b0; b1; b2; b3] =>
      Ok (unpack_u32 a0 a1 a2 a3, unpack_u32 b0 b1 b2 b3)
  | _ => Raise struct_error
  end.

Definition is_surrogate (c : Z) : bool := (55296 <=? c) && (c <=? 57343).

(** The UTF-8 bytes of one code point; a surrogate has none. *)
Definition utf8_encode_cp (c : Z) : result bytes :=
  if c <? 0 then Raise UnicodeEncodeError
  else if c <? 128 then Ok [byte_of c]
  else if c <? 2048 then Ok [byte_of (192 + c / 64); byte_of (128 + c mod 64)]
  else if c <? 65536 then
    if is_surrogate c then Raise UnicodeEncodeError
    else Ok [byte_of (224 + c / 4096); byte_of (128 + c / 64 mod 64);
             byte_of (128 + c mod 64)]
  else if c <? 1114112 then
    Ok [byte_of (240 + c / 262144); byte_of (128 + c / 4096 mod 64);
        byte_of (128 + c / 64 mod 64); byte_of (128 + c mod 64)]
  else Raise UnicodeEncodeError.

(** [s.encode("utf-8")] *)
Fixpoint utf8_encode (s : str) : result bytes :=
  match s with
  | [] => Ok []
  | c :: r =>
      x <- utf8_encode_cp c ;;
      y <- utf8_encode r ;;
      Ok (x ++ y)
  end.

Definition is_cont (b : byte) : bool :=
  (128 <=? byte_val b) && (byte_val b <? 192).

(** [b.decode("utf-8")], strict: overlong forms, surrogates, code points past
    U+10FFFF and truncated sequences are refused. *)
Fixpoint utf8_decode (bs : bytes) : result str :=
  match bs with
  | [] => Ok []
  | b0 :: r =>
      let c0 := byte_val b0 in
      if c0 <? 128 then
        s <- utf8_decode r ;; Ok (c0 :: s)
      else if c0 <? 194 then Raise UnicodeDecodeError
      else if c0 <? 224 then
        match r with
        | b1 :: r1 =>
            if is_cont b1 then
              s <- utf8_decode r1 ;;
              Ok (((c0 - 192) * 64 + (byte_val b1 - 128)) :: s)
            else Raise UnicodeDecodeError
        | _ => Raise UnicodeDecodeError
        end
      else if c0 <? 240 then
        match r with
        | b1 :: b2 :: r2 =>
            let c := (c0 - 224) * 4096 + (byte_val b1 - 128) * 64
                     + (byte_val b2 - 128) in
            if is_cont b1 && is_cont b2 && (2048 <=? c) && negb (is_surrogate c) then
              s <- utf8_decode r2 ;; Ok (c :: s)
            else Raise UnicodeDecodeError
        | _ => Raise UnicodeDecodeError
        end
      else if c0 <? 245 then
        match r with
        | b1 :: b2 :: b3 :: r3 =>
            let c := (c0 - 240) * 262144 + (byte_val b1 - 128) * 4096
                     + (byte_val b2 - 128) * 64 + (byte_val b3 - 128) in
            if is_cont b1 && is_cont b2 && is_cont b3
               && (65536 <=? c) && (c <? 1114112) then
              s <- utf8_decode r3 ;; Ok (c :: s)
            else Raise UnicodeDecodeError
        | _ => Raise UnicodeDecodeError
        end
      else Raise UnicodeDecodeError
  end.

(** ** SongData *)

Module SongData.

Record t : Type := mk {
  title : str;
  artist : str;
  album : str;
  duration : float;
  position : float;
  url : option str
}.

Definition set_position (self : t) (p : float) : t :=
  mk (title self) (artist self) (album self) (duration self) p (url self).

Definition set_url (self : t) (u : option str) : t :=
  mk (title self) (artist self) (album self) (duration self) (position self) u.

Definition __post_init__ (self : t) : result t :=
  if SFltb (duration self) float_zero then
    Raise (ValueError "Duration must be non-negative")
  else if SFltb (position self) float_zero then
    Raise (ValueError "Position must be non-negative")
  else
    let self :=
      if SFltb (duration self) (position self)
      then set_position self (duration self)
      else self in
    if str_is_empty (strip (title self)) then
      Raise (ValueError "Title cannot be empty")
    else if str_is_empty (strip (artist self)) then
      Raise (ValueError "Artist cannot be empty")
    else Ok self.

(** The dataclass constructor: the fields are stored, then [__post_init__]
    runs. *)
Definition __init__ (title artist album : str) (duration position : float)
    (url : option str) : result t :=
  __post_init__ (mk title artist album duration position url).

End SongData.

(** ** JSON values and Python's [json] module

    A value is what [json.loads] returns and what [json.dumps] accepts:
    [JNull] is Python's [None], [JObj] a [dict] with [str] keys, in insertion
    order.  Binary floating point inside JSON is outside the embedding: a
    number written with a fraction or an exponent, [NaN] and the infinities
    are carried as [JFloat], the literal that was read, and written back as
    that literal.  No theorem below speaks of the value of a [JFloat]. *)

Unset Elimination Schemes.
Inductive json : Type :=
| JNull
| JBool (b : bool)
| JInt (z : Z)
| JFloat (literal : str)
| JStr (s : str)
| JArr (items : list json)
| JObj (members : list (str * json)).
Set Elimination Schemes.

(** *** Dictionaries *)

Fixpoint dict_get {A : Type} (d : list (str * A)) (k : str) : option A :=
  match d with
  | [] => None
  | (k', v) :: r => if str_eqb k' k then Some v else dict_get r k
  end.

(** [d[k] = v]: a key already present keeps its place. *)
Fixpoint dict_set {A : Type} (d : list (str * A)) (k : str) (v : A)
  : list (str * A) :=
  match d with
  | [] => [(k, v)]
  | (k', v') :: r =>
      if str_eqb k' k then (k', v) :: r else (k', v') :: dict_set r k v
  end.

(** [dict(pairs)] *)
Definition dict_of_pairs {A : Type} (ps : list (str * A)) : list (str * A) :=
  fold_left (fun d kv => dict_set d (fst kv) (snd kv)) ps [].

(** *** Text helpers *)

Fixpoint strip_prefix (p s : str) : option str :=
  match p, s with
  | [], _ => Some s
  | a :: p', b :: s' => if a =? b then strip_prefix p' s' else None
  | _ :: _, [] => None
  end.

Definition is_digit (c : Z) : bool := (48 <=? c) && (c <=? 57).

Fixpoint span_digits (s : str) : str * str :=
  match s with
  | [] => ([], [])
  | c :: r =>
      if is_digit c then
        let (d, rest) := span_digits r in (c :: d, rest)
      else ([], s)
  end.

Fixpoint uint_chars (u : Decimal.uint) : str :=
  match u with
  | Decimal.Nil => []
  | Decimal.D0 r => 48 :: uint_chars r
  | Decimal.D1 r => 49 :: uint_chars r
  | Decimal.D2 r => 50 :: uint_chars r
  | Decimal.D3 r => 51 :: uint_chars r
  | Decimal.D4 r => 52 :: uint_chars r
  | Decimal.D5 r => 53 :: uint_chars r
  | Decimal.D6 r => 54 :: uint_chars r
  | Decimal.D7 r => 55 :: uint_chars r
  | Decimal.D8 r => 56 :: uint_chars r
  | Decimal.D9 r => 57 :: uint_chars r
  end.

Definition digit_cons (c : Z) (u : Decimal.uint) : Decimal.uint :=
  if c =? 48 then Decimal.D0 u
  else if c =? 49 then Decimal.D1 u
  else if c =? 50 then Decimal.D2 u
  else if c =? 51 then Decimal.D3 u
  else if c =? 52 then Decimal.D4 u
  else if c =? 53 then Decimal.D5 u
  else if c =? 54 then Decimal.D6 u
  else if c =? 55 then Decimal.D7 u
  else if c =? 56 then Decimal.D8 u
  else Decimal.D9 u.

Fixpoint uint_of_digits (s : str) : Decimal.uint :=
  match s with
  | [] => Decimal.Nil
  | c :: r => digit_cons c (uint_of_digits r)
  end.

(** [int(s)] for a run of decimal digits. *)
Definition int_of_digits (s : str) : Z := Z.of_N (N.of_uint (uint_of_digits s)).

(** [repr(z)] for an integer. *)
Definition int_repr (z : Z) : str :=
  match z with
  | Z0 => [48]
  | Zpos p => uint_chars (Pos.to_uint p)
  | Zneg p => 45 :: uint_chars (Pos.to_uint p)
  end.

(** *** [json.dumps]: separators [", "] and [": "], [ensure_ascii] on *)

Definition hexdigit (d : Z) : Z := if d <? 10 then 48 + d else 87 + d.

(** ['{0:04x}'.format(n)] for [n] below 65536. *)
Definition hex4 (n : Z) : str :=
  [hexdigit (n / 4096 mod 16); hexdigit (n / 256 mod 16);
   hexdigit (n / 16 mod 16); hexdigit (n mod 16)].

(** What [py_encode_basestring_ascii] writes for one code point. *)
Definition escape_char (c : Z) : str :=
  if c =? 34 then [92; 34]
  else if c =? 92 then [92; 92]
  else if c =? 10 then [92; 110]
  else if c =? 13 then [92; 114]
  else if c =? 9 then [92; 116]
  else if c =? 8 then [92; 98]
  else if c =? 12 then [92; 102]
  else if (32 <=? c) && (c <=? 126) then [c]
  else if c <? 65536 then 92 :: 117 :: hex4 c
  else
    let n := c - 65536 in
    (92 :: 117 :: hex4 (Z.lor 55296 (Z.land (Z.shiftr n 10) 1023)))
    ++ (92 :: 117 :: hex4 (Z.lor 56320 (Z.land n 1023))).

Fixpoint escape_body (s : str) : str :=
  match s with
  | [] => []
  | c :: r => escape_char c ++ escape_body r
  end.

Definition encode_basestring_ascii (s : str) : str :=
  34 :: escape_body s ++ [34].

(** [json.dumps(v)], inside the limits of the interpreter.  The limits are
    not modelled: the library raises [RecursionError] for a value nested
    past the recursion limit and, from Python 3.11 on, [ValueError] for an
    integer of more than 4300 digits.  A statement that needs the text of a
    value bounds its nesting and its integers ([nesting], [ints_below]). *)
Fixpoint json_dumps (v : json) : str :=
  match v with
  | JNull => lit "null"
  | JBool true => lit "true"
  | JBool false => lit "false"
  | JInt z => int_repr z
  | JFloat l => l
  | JStr s => encode_basestring_ascii s
  | JArr items =>
      91 :: (fix items_text (l : list json) : str :=
               match l with
               | [] => []
               | [x] => json_dumps x
               | x :: r => json_dumps x ++ 44 :: 32 :: items_text r
               end) items ++ [93]
  | JObj members =>
      123 :: (fix members_text (l : list (str * json)) : str :=
                match l with
                | [] => []
                | [(k, x)] => encode_basestring_ascii k ++ 58 :: 32 :: json_dumps x
                | (k, x) :: r =>
                    encode_basestring_ascii k ++ 58 :: 32 :: json_dumps x
                    ++ 44 :: 32 :: members_text r
                end) members ++ [125]
  end.

(** The text between the brackets of an array, and between the braces of an
    object: the local functions of [json_dumps], by name. *)
Fixpoint items_text (l : list json) : str :=
  match l with
  | [] => []
  | [x] => json_dumps x
  | x :: r => json_dumps x ++ 44 :: 32 :: items_text r
  end.

Fixpoint members_text (l : list (str * json)) : str :=
  match l with
  | [] => []
  | [(k, x)] => encode_basestring_ascii k ++ 58 :: 32 :: json_dumps x
  | (k, x) :: r =>
      encode_basestring_ascii k ++ 58 :: 32 :: json_dumps x
      ++ 44 :: 32 :: members_text r
  end.

(** *** [json.loads]: the scanner of [json.decoder], strict *)

Definition is_json_ws (c : Z) : bool :=
  (c =? 32) || (c =? 9) || (c =? 10) || (c =? 13).

Fixpoint skip_ws (s : str) : str :=
  match s with
  | [] => []
  | c :: r => if is_json_ws c then skip_ws r else s
  end.

Definition unhex (c : Z) : option Z :=
  if (48 <=? c) && (c <=? 57) then Some (c - 48)
  else if (97 <=? c) && (c <=? 102) then Some (c - 87)
  else if (65 <=? c) && (c <=? 70) then Some (c - 55)
  else None.

Definition unhex4 (h1 h2 h3 h4 : Z) : option Z :=
  match unhex h1, unhex h2, unhex h3, unhex h4 with
  | Some a, Some b, Some c, Some d => Some (((a * 16 + b) * 16 + c) * 16 + d)
  | _, _, _, _ => None
  end.

Definition unescape (e : Z) : option Z :=
  if e =? 34 then Some 34
  else if e =? 92 then Some 92
  else if e =? 47 then Some 47
  else if e =? 98 then Some 8
  else if e =? 102 then Some 12
  else if e =? 110 then Some 10
  else if e =? 114 then Some 13
  else if e =? 116 then Some 9
  else None.

(** After a [\uXXXX] that is a high surrogate: the low surrogate of a
    following [\uXXXX], and the text after it. *)
Definition low_surrogate_escape (s : str) : option (Z * str) :=
  match s with
  | b :: u :: g1 :: g2 :: g3 :: g4 :: r =>
      if (b =? 92) && (u =? 117) then
        match unhex4 g1 g2 g3 g4 with
        | Some lo => if (56320 <=? lo) && (lo <=? 57343) then Some (lo, r) else None
        | None => None
        end
      else None
  | _ => None
  end.

(** [scanstring]: the text after an opening quote, up to the closing one.
    None stands for JSONDecodeError. *)
Fixpoint scanstring (s : str) : option (str * str) :=
  match s with
  | [] => None
  | c :: r =>
      if c =? 34 then Some ([], r)
      else if c =? 92 then
        match r with
        | [] => None
        | e :: r1 =>
            if e =? 117 then
              match r1 with
              | h1 :: h2 :: h3 :: h4 :: r2 =>
                  match unhex4 h1 h2 h3 h4 with
                  | None => None
                  | Some hi =>
                      match (if (55296 <=? hi) && (hi <=? 56319)
                             then low_surrogate_escape r2 else None) with
                      | Some (lo, _) =>
                          match r2 with
                          | _ :: _ :: _ :: _ :: _ :: _ :: r3 =>
                              match scanstring r3 with
                              | Some (x, rest) =>
                                  Some ((65536 + Z.lor (Z.shiftl (hi - 55296) 10)
                                                       (lo - 56320)) :: x, rest)
                              | None => None
                              end
                          | _ => None
                          end
                      | None =>
                          match scanstring r2 with
                          | Some (x, rest) => Some (hi :: x, rest)
                          | None => None
                          end
                      end
                  end
              | _ => None
              end
            else
              match unescape e with
              | None => None
              | Some c' =>
                  match scanstring r1 with
                  | Some (x, rest) => Some (c' :: x, rest)
                  | None => None
                  end
              end
        end
      else if c <? 32 then None
      else
        match scanstring r with
        | Some (x, rest) => Some (c :: x, rest)
        | None => None
        end
  end.

(** The number pattern of the scanner: an optional minus sign, the integer
    digits (a lone zero, or a run that starts with a digit from one to nine),
    an optional fraction (a dot and digits) and an optional exponent (e or E,
    an optional sign, digits). *)
Definition scan_int_part (s : str) : option (str * str) :=
  match s with
  | c :: r =>
      if c =? 48 then Some ([48], r)
      else if is_digit c then Some (span_digits s)
      else None
  | [] => None
  end.

Definition scan_frac (s : str) : str * str :=
  match s with
  | c :: r =>
      if c =? 46 then
        match span_digits r with
        | ([], _) => ([], s)
        | (d, rest) => (46 :: d, rest)
        end
      else ([], s)
  | [] => ([], s)
  end.

Definition scan_exp (s : str) : str * str :=
  match s with
  | c :: r =>
      if (c =? 101) || (c =? 69) then
        let (sign, r1) :=
          match r with
          | g :: r' => if (g =? 45) || (g =? 43) then ([g], r') else ([], r)
          | [] => ([], r)
          end in
        match span_digits r1 with
        | ([], _) => ([], s)
        | (d, rest) => (c :: sign ++ d, rest)
        end
      else ([], s)
  | [] => ([], s)
  end.

Definition scan_number (s : str) : option (json * str) :=
  let (sign, s1) :=
    match s with
    | c :: r => if c =? 45 then ([45], r) else ([], s)
    | [] => ([], s)
    end in
  match scan_int_part s1 with
  | None => None
  | Some (ds, s2) =>
      let (frac, s3) := scan_frac s2 in
      let (ex, s4) := scan_exp s3 in
      match frac, ex with
      | [], [] =>
          Some (JInt (match sign with
                      | [] => int_of_digits ds
                      | _ => - int_of_digits ds
                      end), s4)
      | _, _ => Some (JFloat (sign ++ ds ++ frac ++ ex), s4)
      end
  end.

Definition scan_word (w : string) (v : json) (s : str) : option (json * str) :=
  match strip_prefix (lit w) s with
  | Some rest => Some (v, rest)
  | None => None
  end.

(** The values that are neither a string, an array nor an object. *)
Definition scan_atom (s : str) : option (json * str) :=
  match scan_word "null" JNull s with
  | Some r => Some r
  | None =>
  match scan_word "true" (JBool true) s with
  | Some r => Some r
  | None =>
  match scan_word "false" (JBool false) s with
  | Some r => Some r
  | None =>
  match scan_number s with
  | Some r => Some r
  | None =>
  match scan_word "NaN" (JFloat (lit "NaN")) s with
  | Some r => Some r
  | None =>
  match scan_word "Infinity" (JFloat (lit "Infinity")) s with
  | Some r => Some r
  | None => scan_word "-Infinity" (JFloat (lit "-Infinity")) s
  end end end end end end.

(** [scan_once], [JSONArray] and [JSONObject].  The fuel bounds the depth of
    the calls; [json_loads] gives more than any text can use. *)
Fixpoint parse_value (fuel : nat) (s : str) {struct fuel} : option (json * str) :=
  match fuel with
  | O => None
  | S f =>
      match s with
      | [] => None
      | c :: r =>
          if c =? 34 then
            match scanstring r with
            | Some (x, rest) => Some (JStr x, rest)
            | None => None
            end
          else if c =? 123 then
            match skip_ws r with
            | c1 :: r1 =>
                if c1 =? 125 then Some (JObj [], r1)
                else
                  match parse_members f (c1 :: r1) with
                  | Some (ps, rest) => Some (JObj (dict_of_pairs ps), rest)
                  | None => None
                  end
            | [] => None
            end
          else if c =? 91 then
            match skip_ws r with
            | c1 :: r1 =>
                if c1 =? 93 then Some (JArr [], r1)
                else
                  match parse_elems f (c1 :: r1) with
                  | Some (vs, rest) => Some (JArr vs, rest)
                  | None => None
                  end
            | [] => None
            end
          else scan_atom s
      end
  end
with parse_elems (fuel : nat) (s : str) {struct fuel}
  : option (list json * str) :=
  match fuel with
  | O => None
  | S f =>
      match parse_value f s with
      | None => None
      | Some (v, r1) =>
          match skip_ws r1 with
          | c :: r2 =>
              if c =? 93 then Some ([v], r2)
              else if c =? 44 then
                match parse_elems f (skip_ws r2) with
                | Some (vs, rest) => Some (v :: vs, rest)
                | None => None
                end
              else None
          | [] => None
          end
      end
  end
with parse_members (fuel : nat) (s : str) {struct fuel}
  : option (list (str * json) * str) :=
  match fuel with
  | O => None
  | S f =>
      match s with
      | [] => None
      | q :: r =>
          if q =? 34 then
            match scanstring r with
            | None => None
            | Some (k, r1) =>
                match skip_ws r1 with
                | c :: r2 =>
                    if c =? 58 then
                      match parse_value f (skip_ws r2) with
                      | None => None
                      | Some (v, r3) =>
                          match skip_ws r3 with
                          | c' :: r4 =>
                              if c' =? 125 then Some ([(k, v)], r4)
                              else if c' =? 44 then
                                match parse_members f (skip_ws r4) with
                                | Some (ps, rest) => Some ((k, v) :: ps, rest)
                                | None => None
                                end
                              else None
                          | [] => None
                          end
                      end
                    else None
                | [] => None
                end
            end
          else None
      end
  end.

(** [json.loads(s)] for a [str], inside the limits of the interpreter.  The
    limits are not modelled: on a text nested past the recursion limit the
    library raises [RecursionError], and from Python 3.11 on it raises a
    plain [ValueError] on an integer of more than 4300 digits, where this
    function answers as if there were no limit.  No statement below depends
    on which exception it raises. *)
Definition json_loads (s : str) : result json :=
  match s with
  | 65279 :: _ => Raise JSONDecodeError
  | _ =>
      match parse_value (S (S (List.length s))) (skip_ws s) with
      | Some (v, rest) =>
          match skip_ws rest with
          | [] => Ok v
          | _ :: _ => Raise JSONDecodeError
          end
      | None => Raise JSONDecodeError
      end
  end.

(** *** Python operations on a value *)

(** The exact test [float(literal) == 0.0]: the digits are all zero, or the
    number is at most [2^-1075] in magnitude and rounds to zero. *)
Definition float_literal_is_zero (l : str) : bool :=
  let body := match l with c :: r => if c =? 45 then r else l | [] => l end in
  let (ip, r1) := span_digits body in
  let (fp, r2) :=
    match r1 with
    | c :: r => if c =? 46 then span_digits r else ([], r1)
    | [] => ([], r1)
    end in
  let e :=
    match r2 with
    | _ :: g :: r =>
        if g =? 45 then - int_of_digits r
        else if g =? 43 then int_of_digits r
        else int_of_digits (g :: r)
    | _ => 0
    end in
  match ip with
  | [] => false
  | _ :: _ =>
      let m := int_of_digits (ip ++ fp) in
      let e10 := e - Z.of_nat (List.length fp) in
      if m =? 0 then true
      else if 0 <=? e10 then false
      else m * 2 ^ 1075 <=? 10 ^ (- e10)
  end.

(** [bool(v)] *)
Definition truthy (v : json) : bool :=
  match v with
  | JNull => false
  | JBool b => b
  | JInt z => negb (z =? 0)
  | JFloat l => negb (float_literal_is_zero l)
  | JStr s => negb (str_is_empty s)
  | JArr l => match l with [] => false | _ => true end
  | JObj d => match d with [] => false | _ => true end
  end.

(** [v.get(k, default)]: only a dict has the method. *)
Definition py_get (v : json) (k : str) (default : json) : result json :=
  match v with
  | JObj d => Ok (match dict_get d k with Some x => x | None => default end)
  | _ => Raise AttributeError
  end.

(** [v == s] for a [str] [s]. *)
Definition eq_str (v : json) (s : str) : bool :=
  match v with
  | JStr x => str_eqb x s
  | _ => false
  end.

(** ** Methods: state passing with exceptions

    A method of an object of state [S] is a function from the state to a
    result and the state it leaves; the effects made before an exception is
    raised stay. *)

Definition M (S A : Type) : Type := S -> result A * S.

Definition ret {S A : Type} (a : A) : M S A := fun s => (Ok a, s).
Definition raise {S A : Type} (e : exn) : M S A := fun s => (Raise e, s).
Definition lift {S A : Type} (r : result A) : M S A := fun s => (r, s).

Definition bindM {S A B : Type} (c : M S A) (k : A -> M S B) : M S B :=
  fun s =>
    match c s with
    | (Ok a, s') => k a s'
    | (Raise e, s') => (Raise e, s')
    end.

Notation "x <~ c ;; k" := (bindM c (fun x => k))
  (at level 61, c at next level, right associativity).
Notation "c ;;; k" := (bindM c (fun _ => k))
  (at level 61, right associativity).

(** [try: body  except <handles>: handler] *)
Definition try_except {S A : Type} (body : M S A) (handles : exn -> bool)
    (handler : exn -> M S A) : M S A :=
  fun s =>
    match body s with
    | (Ok a, s') => (Ok a, s')
    | (Raise e, s') => if handles e then handler e s' else (Raise e, s')
    end.

(** The classes of the exceptions, as the except clauses test them. *)
Definition is_OSError (e : exn) : bool :=
  match e with OSError | HTTPError => true | _ => false end.

Definition is_Exception (e : exn) : bool := true.

(** ** Stream sockets and the operating system *)

(** What one call of [recv] or [send] meets: a failure (a timeout, a reset),
    or a bound on the bytes the kernel moves in that call. *)
Inductive io_step : Type :=
| io_fail
| io_upto (k : nat).

(** A stream socket: where it is connected, the bytes the peer has sent and
    that were not read yet, the bytes handed to the kernel so far, and what
    the coming calls meet.  Past the end of a plan a call moves all the bytes
    it is asked for; [recv] on an empty stream returns no byte. *)
Record Socket : Type := mk_socket {
  peer : option str;
  rx : bytes;
  rx_plan : list io_step;
  tx : bytes;
  tx_plan : list io_step
}.

(** [socket.socket(AF_UNIX, SOCK_STREAM)] *)
Definition socket_new : Socket := mk_socket None [] [] [] [].

Definition sock_recv (s : Socket) (n : Z) : result bytes * Socket :=
  match peer s with
  | None => (Raise OSError, s)
  | Some _ =>
      match rx_plan s with
      | io_fail :: plan =>
          (Raise OSError, mk_socket (peer s) (rx s) plan (tx s) (tx_plan s))
      | io_upto k :: plan =>
          let m := Nat.min k (Z.to_nat n) in
          (Ok (firstn m (rx s)),
           mk_socket (peer s) (skipn m (rx s)) plan (tx s) (tx_plan s))
      | [] =>
          (Ok (firstn (Z.to_nat n) (rx s)),
           mk_socket (peer s) (skipn (Z.to_nat n) (rx s)) [] (tx s) (tx_plan s))
      end
  end.

(** [sock.send(data)]: the number of bytes the kernel took. *)
Definition sock_send (s : Socket) (data : bytes) : result Z * Socket :=
  match peer s with
  | None => (Raise OSError, s)
  | Some _ =>
      match tx_plan s with
      | io_fail :: plan =>
          (Raise OSError, mk_socket (peer s) (rx s) (rx_plan s) (tx s) plan)
      | io_upto k :: plan =>
          (Ok (Z.of_nat (List.length (firstn k data))),
           mk_socket (peer s) (rx s) (rx_plan s) (tx s ++ firstn k data) plan)
      | [] =>
          (Ok (Z.of_nat (List.length data)),
           mk_socket (peer s) (rx s) (rx_plan s) (tx s ++ data) [])
      end
  end.

(** The part of the operating system [connect] reads: the environment
    variable TMPDIR, the paths that exist, and for each path the stream a
    connection to it opens (none when the connection is refused). *)
Record OS : Type := mk_os {
  environ_TMPDIR : option str;
  path_exists : str -> bool;
  accept : str -> option Socket
}.

(** [os.path.join(a, b)] *)
Definition os_path_join (a b : str) : str :=
  match b with
  | 47 :: _ => b
  | _ =>
      match rev a with
      | [] => b
      | c :: _ => if c =? 47 then a ++ b else a ++ 47 :: b
      end
  end.

(** [str.isdigit]: there is a character and every character is a digit.
    Below 128 the digits are 0 to 9; [digit_above] tells the digits among the
    other code points, which the Unicode tables decide. *)
Definition isdigit (digit_above : Z -> bool) (s : str) : bool :=
  negb (str_is_empty s)
  && forallb (fun c => if c <? 128 then is_digit c else digit_above c) s.

(** ** DiscordRPC *)

Module DiscordRPC.

Record t : Type := mk {
  client_id : str;
  sock : option Socket;
  connected : bool
}.

Definition set_sock (s : option Socket) : M t unit :=
  fun self => (Ok tt, mk (client_id self) s (connected self)).

Definition set_connected (b : bool) : M t unit :=
  fun self => (Ok tt, mk (client_id self) (sock self) b).

(** [self.sock.recv(n)] *)
Definition recv (n : Z) : M t bytes :=
  fun self =>
    match sock self with
    | None => (Raise AttributeError, self)
    | Some s =>
        let (r, s') := sock_recv s n in
        (r, mk (client_id self) (Some s') (connected self))
    end.

(** [self.sock.send(data)] *)
Definition send (data : bytes) : M t Z :=
  fun self =>
    match sock self with
    | None => (Raise AttributeError, self)
    | Some s =>
        let (r, s') := sock_send s data in
        (r, mk (client_id self) (Some s') (connected self))
    end.

(** [self.sock.connect(path)] *)
Definition sock_connect (os : OS) (path : str) : M t unit :=
  fun self =>
    match sock self with
    | None => (Raise AttributeError, self)
    | Some _ =>
        match accept os path with
        | None => (Raise OSError, self)
        | Some s =>
            (Ok tt, mk (client_id self)
                       (Some (mk_socket (Some path) (rx s) (rx_plan s)
                                        (tx s) (tx_plan s)))
                       (connected self))
        end
    end.

Definition _send_packet (opcode : Z) (data : json) : M t unit :=
  fun self =>
    match sock self with
    | None => (Raise (RuntimeError "Socket not connected"), self)
    | Some _ =>
        if opcode <? 0 then
          (Raise (ValueError "Opcode must be a non-negative integer"), self)
        else
          try_except
            (json_data <~ lift (utf8_encode (json_dumps data)) ;;
             header <~ lift (struct_pack_II opcode
                               (Z.of_nat (List.length json_data))) ;;
             send (header ++ json_data) ;;;
             ret tt)
            (fun e => match e with struct_error => true | _ => is_OSError e end)
            (fun e => raise (RuntimeError "Failed to send packet"))
            self
    end.

(** The pair [(None, None)] is [(None, JNull)]. *)
Definition _read_packet : M t (option Z * json) :=
  fun self =>
    match sock self with
    | None => (Ok (None, JNull), self)
    | Some _ =>
        try_except
          (header <~ recv 8 ;;
           if Z.of_nat (List.length header) <? 8 then ret (None, JNull)
           else
             ol <~ lift (struct_unpack_II header) ;;
             let opcode := fst ol in
             let length := snd ol in
             if length >? 1024 * 1024 then raise (ValueError "Packet too large")
             else if length <=? 0 then raise (ValueError "Invalid packet length")
             else
               payload <~ recv length ;;
               data <~ lift (utf8_decode payload) ;;
               v <~ lift (json_loads data) ;;
               ret (Some opcode, v))
          (fun e => match e with
                    | struct_error | JSONDecodeError | UnicodeDecodeError => true
                    | _ => is_OSError e
                    end)
          (fun e => ret (None, JNull))
          self
    end.

(** The except clauses of [connect]: close the socket if there is one. *)
Definition drop_socket : M t unit :=
  fun self =>
    match sock self with
    | Some _ => (Ok tt, mk (client_id self) None (connected self))
    | None => (Ok tt, self)
    end.

(** What one turn of the loop of [connect] ends in. *)
Inductive turn : Type :=
| Continue
| Return (b : bool).

Definition socket_path (tmpdir : str) (i : Z) : str :=
  os_path_join tmpdir (lit "discord-ipc-" ++ int_repr i).

Definition handshake (client_id : str) : json :=
  JObj [(lit "v", JInt 1); (lit "client_id", JStr client_id)].

(** The body of [for i in range(10)], with its two except clauses. *)
Definition connect_turn (os : OS) (tmpdir : str) (i : Z) : M t turn :=
  try_except
    (try_except
       (let path := socket_path tmpdir i in
        if negb (path_exists os path) then ret Continue
        else
          set_sock (Some socket_new) ;;;
          sock_connect os path ;;;
          (fun self => _send_packet 0 (handshake (client_id self)) self) ;;;
          pr <~ _read_packet ;;
          let response := snd pr in
          if truthy response then
            evt <~ lift (py_get response (lit "evt") JNull) ;;
            if eq_str evt (lit "READY") then
              set_connected true ;;; ret (Return true)
            else ret Continue
          else ret Continue)
       (fun e => match e with
                 | JSONDecodeError | struct_error => true
                 | _ => is_OSError e
                 end)
       (fun e => drop_socket ;;; ret Continue))
    is_Exception
    (fun e => drop_socket ;;; ret Continue).

Fixpoint connect_loop (os : OS) (tmpdir : str) (range : list Z) : M t bool :=
  match range with
  | [] => ret false
  | i :: rest =>
      r <~ connect_turn os tmpdir i ;;
      match r with
      | Return b => ret b
      | Continue => connect_loop os tmpdir rest
      end
  end.

Definition range10 : list Z := [0; 1; 2; 3; 4; 5; 6; 7; 8; 9].

(** [os.environ.get("TMPDIR", "/tmp/")] *)
Definition tmpdir_of (os : OS) : str :=
  match environ_TMPDIR os with
  | Some d => d
  | None => lit "/tmp/"
  end.

Definition connect (os : OS) : M t bool :=
  fun self =>
    if connected self then (Ok true, self)
    else
      let tmpdir := tmpdir_of os in
      if negb (path_exists os tmpdir) then (Ok false, self)
      else connect_loop os tmpdir range10 self.

(** The command of [set_activity]: [nonce] is the text of the UUID drawn for
    it and [pid] the process identifier; [JNull] is the activity [None]. *)
Definition command (nonce : str) (pid : Z) (activity : json) : json :=
  JObj [(lit "cmd", JStr (lit "SET_ACTIVITY"));
        (lit "nonce", JStr nonce);
        (lit "args", JObj [(lit "pid", JInt pid);
                           (lit "activity", activity)])].

Definition set_activity (nonce : str) (pid : Z) (activity : json) : M t bool :=
  fun self =>
    if negb (connected self) || match sock self with None => true | Some _ => false end
    then (Ok false, self)
    else
      try_except
        (_send_packet 1 (command nonce pid activity) ;;;
         pr <~ _read_packet ;;
         let response := snd pr in
         if truthy response then
           evt <~ lift (py_get response (lit "evt") JNull) ;;
           if eq_str evt (lit "ERROR") then ret false else ret true
         else ret true)
        is_Exception
        (fun e => ret false)
        self.

Definition close : M t unit :=
  fun self => (Ok tt, mk (client_id self) None false).

Definition __init__ (digit_above : Z -> bool) (client_id : str) : result t :=
  if str_is_empty client_id || str_is_empty (strip client_id) then
    Raise (ValueError "Client ID cannot be empty")
  else if negb (isdigit digit_above client_id) then
    Raise (ValueError "Client ID must be numeric")
  else Ok (mk client_id None false).

End DiscordRPC.

(** ** The web and the two lookups *)

(** What [urllib.request.urlopen(url, timeout=5)] ends in: an exception, or a
    response with its status and what [response.read()] gives. *)
Inductive http_outcome : Type :=
| http_raise (e : exn)
| http_response (status : Z) (body : result bytes).

Definition Web : Type := str -> http_outcome.

Definition is_alnum (c : Z) : bool :=
  ((48 <=? c) && (c <=? 57)) || ((65 <=? c) && (c <=? 90))
  || ((97 <=? c) && (c <=? 122)).

Definition HEXDIGIT (d : Z) : Z := if d <? 10 then 48 + d else 55 + d.

(** [urllib.parse.quote(s)]: the UTF-8 bytes of [s], each kept when it is a
    letter, a digit or one of [_.-~/] and written [%XX] otherwise. *)
Definition quote_byte (b : byte) : str :=
  let c := byte_val b in
  if is_alnum c || (c =? 95) || (c =? 46) || (c =? 45) || (c =? 126) || (c =? 47)
  then [c]
  else [37; HEXDIGIT (c / 16); HEXDIGIT (c mod 16)].

Definition quote (s : str) : result str :=
  bs <- utf8_encode s ;;
  Ok (flat_map quote_byte bs).

(** [x in y] for two [str]. *)
Fixpoint contains (x y : str) : bool :=
  match strip_prefix x y with
  | Some _ => true
  | None =>
      match y with
      | [] => false
      | _ :: r => contains x r
      end
  end.

(** [s.replace(old, new)] for a non-empty [old]; [skip] counts the code
    points of a replaced occurrence that are still to pass. *)
Fixpoint replace_from (old new s : str) (skip : nat) : str :=
  match s with
  | [] => []
  | c :: r =>
      match skip with
      | S k => replace_from old new r k
      | O =>
          match strip_prefix old s with
          | Some _ => new ++ replace_from old new r (List.length old - 1)
          | None => c :: replace_from old new r 0
          end
      end
  end.

Definition replace (old new s : str) : str := replace_from old new s 0.

(** [for x in v]: the items a loop over [v] visits. *)
Definition py_iter (v : json) : result (list json) :=
  match v with
  | JArr l => Ok l
  | JStr s => Ok (map (fun c => JStr [c]) s)
  | JObj d => Ok (map (fun kv => JStr (fst kv)) d)
  | _ => Raise TypeError
  end.

(** [len(v)] *)
Definition py_len (v : json) : result Z :=
  match v with
  | JArr l => Ok (Z.of_nat (List.length l))
  | JStr s => Ok (Z.of_nat (List.length s))
  | JObj d => Ok (Z.of_nat (List.length d))
  | _ => Raise TypeError
  end.

(** [v[0]] *)
Definition py_first (v : json) : result json :=
  match v with
  | JArr (x :: _) => Ok x
  | JStr (c :: _) => Ok (JStr [c])
  | JArr [] | JStr [] => Raise IndexError
  | JObj _ => Raise KeyError
  | _ => Raise TypeError
  end.

Section Lookups.

(** [str.lower]: the case mapping of the Unicode tables, which are no part
    of the repository. *)
Variable str_lower : str -> str.

(** [v.lower()]: only a [str] has the method. *)
Definition py_lower (v : json) : result str :=
  match v with
  | JStr s => Ok (str_lower s)
  | _ => Raise AttributeError
  end.

(** The value [get_album_artwork] returns; [JNull] is [None]. *)
Definition get_album_artwork (web : Web) (artist title album : str) : json :=
  if str_is_empty (strip artist) && str_is_empty (strip title) then JNull
  else
    let body : result json :=
      let query := strip (artist ++ 32 :: title) in
      if str_is_empty query then Ok JNull
      else
        encoded_query <- quote query ;;
        let url := lit "https://api.deezer.com/search/track?q="
                   ++ encoded_query ++ lit "&limit=1" in
        match web url with
        | http_raise e => Raise e
        | http_response status body =>
            if negb (status =? 200) then Ok JNull
            else
              raw <- body ;;
              text <- utf8_decode raw ;;
              data <- json_loads text ;;
              found <- py_get data (lit "data") JNull ;;
              n <- (if truthy found then py_len found else Ok 0) ;;
              if truthy found && (n >? 0) then
                track <- py_first found ;;
                album_info <- py_get track (lit "album") (JObj []) ;;
                xl <- py_get album_info (lit "cover_xl") JNull ;;
                if truthy xl then Ok xl
                else
                  big <- py_get album_info (lit "cover_big") JNull ;;
                  if truthy big then Ok big
                  else py_get album_info (lit "cover_medium") JNull
              else Ok JNull
        end in
    match body with
    | Ok v => v
    | Raise _ => JNull
    end.

(** The test of one search result against the artist and the title. *)
Definition result_matches (artist title result_artist result_title : str) : bool :=
  (contains (str_lower artist) result_artist
   || contains result_artist (str_lower artist))
  && (contains (str_lower title) result_title
      || contains result_title (str_lower title)).

(** The body of the loop over the search results: the link it returns, or
    none when the loop goes on to the next result. *)
Definition scan_result (artist title : str) (r : json) : result (option str) :=
  ra <- py_get r (lit "artistName") (JStr []) ;;
  result_artist <- py_lower ra ;;
  rt <- py_get r (lit "trackName") (JStr []) ;;
  result_title <- py_lower rt ;;
  if result_matches artist title result_artist result_title then
    track_view_url <- py_get r (lit "trackViewUrl") JNull ;;
    match track_view_url with
    | JStr (c :: u) =>
        Ok (Some (replace (lit "itunes.apple.com") (lit "music.apple.com")
                          (c :: u)))
    | _ => Ok None
    end
  else Ok None.

(** [for result in data["results"]] *)
Fixpoint scan_results (artist title : str) (results : list json)
  : result (option str) :=
  match results with
  | [] => Ok None
  | r :: rest =>
      hit <- scan_result artist title r ;;
      match hit with
      | Some u => Ok (Some u)
      | None => scan_results artist title rest
      end
  end.

(** The search link the function falls back to. *)
Definition fallback_url (artist title : str) : result str :=
  let fallback_query := strip (artist ++ 32 :: title) in
  if str_is_empty fallback_query then Ok (lit "https://music.apple.com/")
  else
    encoded_fallback <- quote fallback_query ;;
    Ok (lit "https://music.apple.com/search?term=" ++ encoded_fallback).

Definition search_url (encoded_query : str) : str :=
  lit "https://itunes.apple.com/search?term=" ++ encoded_query
  ++ lit "&media=music&entity=song&limit=5".

Definition get_apple_music_url (web : Web) (artist title album : str)
  : result str :=
  if str_is_empty (strip artist) && str_is_empty (strip title)
  then Ok (lit "https://music.apple.com/")
  else
    let body : result (option str) :=
      let query := strip (title ++ 32 :: artist) in
      if str_is_empty query then Ok (Some (lit "https://music.apple.com/"))
      else
        encoded_query <- quote query ;;
        match web (search_url encoded_query) with
        | http_raise e => Raise e
        | http_response status body =>
            if negb (status =? 200) then Raise HTTPError
            else
              raw <- body ;;
              text <- utf8_decode raw ;;
              data <- json_loads text ;;
              results <- py_get data (lit "results") JNull ;;
              if truthy results then
                items <- py_iter results ;;
                scan_results artist title items
              else Ok None
        end in
    match body with
    | Ok (Some u) => Ok u
    | Ok None | Raise _ => fallback_url artist title
    end.

(** ** The polling loop of [main] *)

(** What one turn of the loop reads from outside: the value of
    [get_current_song()], the web, [int(time.time())], and the UUID and the
    process identifier [set_activity] draws. *)
Record tick_env : Type := mk_env {
  current_song : option SongData.t;
  web : Web;
  now : Z;
  nonce : str;
  pid : Z
}.

(** The variables of [main], and [calls]: the arguments [set_activity] was
    called with, the latest last, kept for the statements. *)
Record loop_state : Type := mk_loop {
  discord : DiscordRPC.t;
  last_was_playing : option bool;
  last_song_info : option str;
  cached_artwork : json;
  calls : list json
}.

(** [discord.set_activity(activity)] in the loop: its result is dropped. *)
Definition call_set_activity (env : tick_env) (activity : json)
  : M loop_state unit :=
  fun st =>
    let (r, d) := DiscordRPC.set_activity (nonce env) (pid env) activity
                    (discord st) in
    (match r with Ok _ => Ok tt | Raise e => Raise e end,
     mk_loop d (last_was_playing st) (last_song_info st) (cached_artwork st)
             (calls st ++ [activity])).

Definition set_last_was_playing (b : bool) : M loop_state unit :=
  fun st => (Ok tt, mk_loop (discord st) (Some b) (last_song_info st)
                            (cached_artwork st) (calls st)).

Definition option_str_eqb (a : option str) (b : str) : bool :=
  match a with
  | Some x => str_eqb x b
  | None => false
  end.

(** The timestamps of the activity of a song at the time [current_time]. *)
Definition timestamps (current_time : Z) (song : SongData.t) : result (Z * Z) :=
  p <- int_of_float (SongData.position song) ;;
  let start_time := current_time - p in
  d <- int_of_float (float_sub (SongData.duration song) (SongData.position song)) ;;
  let end_time := current_time + d in
  Ok (start_time, end_time).

(** The activity of a song, without the assets. *)
Definition activity_of (song : SongData.t) (start_time end_time : Z)
    (apple_music_url : str) : list (str * json) :=
  [(lit "type", JInt 2);
   (lit "name", JStr (lit "Apple Music"));
   (lit "details", JStr (SongData.title song));
   (lit "state", JStr (lit "by " ++ SongData.artist song));
   (lit "timestamps", JObj [(lit "start", JInt start_time);
                            (lit "end", JInt end_time)]);
   (lit "buttons",
    JArr [JObj [(lit "label", JStr (lit "Listen on Apple Music"));
                (lit "url", JStr apple_music_url)]])].

(** [song.url or get_apple_music_url(song.artist, song.title, song.album)] *)
Definition display_url (env : tick_env) (song : SongData.t) : result str :=
  match SongData.url song with
  | Some (c :: u) => Ok (c :: u)
  | _ => get_apple_music_url (web env) (SongData.artist song)
           (SongData.title song) (SongData.album song)
  end.

(** The body of [while True], the sleep apart. *)
Definition tick (env : tick_env) : M loop_state unit :=
  match current_song env with
  | Some song =>
      let current_song_info := SongData.artist song ++ 45 :: SongData.title song in
      (fun st =>
         if negb (option_str_eqb (last_song_info st) current_song_info) then
           (Ok tt,
            mk_loop (discord st) (last_was_playing st) (Some current_song_info)
                    (get_album_artwork (web env) (SongData.artist song)
                       (SongData.title song) (SongData.album song))
                    (calls st))
         else (Ok tt, st)) ;;;
      apple_music_url <~ lift (display_url env song) ;;
      ts <~ lift (timestamps (now env) song) ;;
      (fun st =>
         let activity := activity_of song (fst ts) (snd ts) apple_music_url in
         let activity :=
           if truthy (cached_artwork st) then
             dict_set activity (lit "assets")
               (JObj [(lit "large_image", cached_artwork st);
                      (lit "large_text",
                       JStr (SongData.album song ++ lit " by "
                             ++ SongData.artist song))])
           else activity in
         call_set_activity env (JObj activity) st) ;;;
      set_last_was_playing true
  | None =>
      fun st =>
        match last_was_playing st with
        | Some false => (Ok tt, st)
        | _ => (call_set_activity env JNull ;;; set_last_was_playing false) st
        end
  end.

(** The turns of the loop over the environments they meet, up to the first
    that raises. *)
Fixpoint ticks (envs : list tick_env) : M loop_state unit :=
  match envs with
  | [] => ret tt
  | env :: rest => tick env ;;; ticks rest
  end.

(** The state of the loop before its first turn. *)
Definition loop_start (d : DiscordRPC.t) : loop_state :=
  mk_loop d None None JNull [].

End Lookups.

(** ** The player: get_current_song *)

(** [s.split(sep)] for a non-empty [sep]: the pieces between the occurrences
    of [sep], found from the left; [cur] holds the piece being read, last
    character first, and [skip] counts the characters of a separator that
    are still to pass. *)
Fixpoint split_from (sep s : str) (skip : nat) (cur : str) : list str :=
  match s with
  | [] => [rev cur]
  | c :: r =>
      match skip with
      | S k => split_from sep r k cur
      | O =>
          match strip_prefix sep s with
          | Some _ => rev cur :: split_from sep r (List.length sep - 1) []
          | None => split_from sep r 0 (c :: cur)
          end
      end
  end.

Definition split (sep s : str) : list str := split_from sep s 0 [].

(** What [subprocess.run(..., capture_output=True, text=True, check=True,
    timeout=10)] ends in: an exception (the command is missing, fails, runs
    out of time, or writes what is no text), or the text of its output. *)
Inductive completed : Type :=
| run_raised
| run_stdout (stdout : str).

Section Player.

(** [float(s)]: the number the text denotes, none for the [ValueError] of a
    text that is no number.  The conversion is the interpreter's. *)
Variable py_float : str -> option float.

(** [parts[n]]; the function reads an index only below [len(parts)]. *)
Definition part (parts : list str) (n : nat) : str := nth n parts [].

(** The value [get_current_song] returns from what the player command
    ended in. *)
Definition get_current_song (run : completed) : option SongData.t :=
  match run with
  | run_raised => None
  | run_stdout stdout =>
      let output := strip stdout in
      if str_is_empty output || str_eqb output (lit "NOT_PLAYING") then None
      else
        let parts := split (lit "|||") output in
        if (List.length parts <? 5)%nat then None
        else
          match py_float (part parts 3) with
          | None => None
          | Some duration =>
              match py_float (part parts 4) with
              | None => None
              | Some position =>
                  match SongData.__init__ (strip (part parts 0))
                          (strip (part parts 1)) (strip (part parts 2))
                          duration position None with
                  | Raise _ => None
                  | Ok song_data =>
                      if (6 <=? List.length parts)%nat
                         && negb (str_is_empty (strip (part parts 5)))
                      then Some (SongData.set_url song_data
                                   (Some (strip (part parts 5))))
                      else Some song_data
                  end
              end
          end
  end.

End Player.

(** ** main *)

(** The lines [main] prints. *)
Inductive message : Type :=
| error_line (e : exn)
| failed_to_connect
| shutting_down
| unexpected_error (e : exn).

Definition CLIENT_ID : str := lit "1410325920039960657".

(** [discord.close()] on the client of the loop. *)
Definition call_close : M loop_state unit :=
  fun st =>
    let (r, d) := DiscordRPC.close (discord st) in
    (r, mk_loop d (last_was_playing st) (last_song_info st) (cached_artwork st)
                (calls st)).

(** The [finally] clause of [main]. *)
Definition main_finally (env : tick_env) : M loop_state unit :=
  call_set_activity env JNull ;;; call_close.

(** [main]: [envs] are what the turns of the loop meet before the user
    interrupts the sleep after the last of them (a turn that raises ends the
    loop before), and [exit_env] is what the [finally] clause meets.  The
    result is what is printed and the variables at the end; there are none
    when [main] returns before the loop. *)
Definition main (lower : str -> str) (digit_above : Z -> bool) (os : OS)
    (envs : list tick_env) (exit_env : tick_env)
  : result (list message) * option loop_state :=
  match DiscordRPC.__init__ digit_above CLIENT_ID with
  | Raise (ValueError msg) => (Ok [error_line (ValueError msg)], None)
  | Raise e => (Raise e, None)
  | Ok discord0 =>
      match DiscordRPC.connect os discord0 with
      | (Raise e, _) => (Raise e, None)
      | (Ok false, _) => (Ok [failed_to_connect], None)
      | (Ok true, discord1) =>
          let (r, st) := ticks lower envs (loop_start discord1) in
          let line := match r with
                      | Ok _ => shutting_down
                      | Raise e => unexpected_error e
                      end in
          match main_finally exit_env st with
          | (Ok _, st') => (Ok [line], Some st')
          | (Raise e, st') => (Raise e, Some st')
          end
      end
  end.

(** ** The values of the examples *)

(** A client whose socket is connected to [path] and holds [data] to read. *)
Definition client_on (path : str) (data : bytes) (steps : list io_step)
    (is_connected : bool) : DiscordRPC.t :=
  DiscordRPC.mk (lit "1410325920039960657")
                (Some (mk_socket (Some path) data steps [] []))
                is_connected.

Definition bytes_of (l : list Z) : bytes := map byte_of l.

(** A song and the environments of the examples: no network, a peer that
    sends nothing. *)
Definition song_a : SongData.t :=
  SongData.mk (lit "Song A") (lit "Artist B") (lit "Album C")
              (float_of_Z 200) (float_of_Z 50) None.

Definition offline : Web := fun _ => http_raise OSError.

Definition env_playing (t : Z) : tick_env :=
  mk_env (Some song_a) offline t (lit "n") 7.

Definition env_quiet (t : Z) : tick_env :=
  mk_env None offline t (lit "n") 7.

Definition idle_client : DiscordRPC.t :=
  client_on (lit "/tmp/discord-ipc-0") [] [] true.


(** A search result as the service writes it. *)
Definition search_result (artist_name track_name link : string) : json :=
  JObj [(lit "artistName", JStr (lit artist_name));
        (lit "trackName", JStr (lit track_name));
        (lit "trackViewUrl", JStr (lit link))].

Definition search_answer (results : list json) : json :=
  JObj [(lit "resultCount", JInt (Z.of_nat (List.length results)));
        (lit "results", JArr results)].

(** A web where the search for "Song A Artist B" is answered with [v], and
    nothing else is reachable. *)
Definition web_answering (v : json) : Web :=
  fun url =>
    if str_eqb url (search_url (lit "Song%20A%20Artist%20B"))
    then http_response 200 (utf8_encode (json_dumps v))
    else http_raise OSError.

Definition three_results : list json :=
  [search_result "Other" "Song A" "https://itunes.apple.com/us/album/1";
   search_result "Artist B" "Else" "https://itunes.apple.com/us/album/2";
   search_result "ARTIST B" "Song A (Remastered)"
                 "https://itunes.apple.com/us/album/3"].

Definition linkless_then_linked : list json :=
  [search_result "Artist B" "Song A" "";
   search_result "Artist B" "Song A" "https://itunes.apple.com/us/album/2"].

(** The response [{"evt": "ERROR"}] as the peer sends it: opcode 1, length
    16, and the text. *)
Definition error_frame : bytes :=
  bytes_of ([1; 0; 0; 0; 16; 0; 0; 0] ++ [123; 34] ++ lit "evt" ++ [34; 58; 32; 34]
            ++ lit "ERROR" ++ [34; 125]).

(** A packet as the peer sends it: the header and the text. *)
Definition frame_of (opcode : Z) (text : str) : bytes :=
  bytes_of ([opcode; 0; 0; 0; Z.of_nat (List.length text); 0; 0; 0] ++ text).

(** The text of a dict whose evt is READY. *)
Definition ready_text : str :=
  [123; 34] ++ lit "evt" ++ [34; 58; 32; 34] ++ lit "READY" ++ [34; 125].

(** An operating system for the examples: /tmp/ exists; discord-ipc-0 does
    not exist; discord-ipc-1 exists and refuses the connection;
    discord-ipc-2 answers the handshake with READY; discord-ipc-3 would too. *)
Definition os_example : OS :=
  mk_os None
        (fun p => str_eqb p (lit "/tmp/")
                  || str_eqb p (lit "/tmp/discord-ipc-1")
                  || str_eqb p (lit "/tmp/discord-ipc-2")
                  || str_eqb p (lit "/tmp/discord-ipc-3"))
        (fun p => if str_eqb p (lit "/tmp/discord-ipc-2")
                     || str_eqb p (lit "/tmp/discord-ipc-3")
                  then Some (mk_socket None (frame_of 1 ready_text) [] [] [])
                  else None).

(** A client that was never connected. *)
Definition fresh_client : DiscordRPC.t :=
  DiscordRPC.mk (lit "1410325920039960657") None false.

(** [str.lower] on ASCII text, for the examples. *)
Definition ascii_lower (s : str) : str :=
  map (fun c => if (65 <=? c) && (c <=? 90) then c + 32 else c) s.

(** The handshake of the client of the examples, and its packet. *)
Definition hello : json := DiscordRPC.handshake (lit "1410325920039960657").

Definition hello_packet : bytes := frame_of 0 (json_dumps hello).

(** An answer of the artwork service: the first track has no cover_xl. *)
Definition covers : list (str * json) :=
  [(lit "cover_xl", JNull);
   (lit "cover_big", JStr (lit "https://cdn.example/big.jpg"));
   (lit "cover_medium", JStr (lit "https://cdn.example/medium.jpg"))].

Definition first_track : list (str * json) :=
  [(lit "title", JStr (lit "Song A")); (lit "album", JObj covers)].

Definition artwork_answer : list (str * json) :=
  [(lit "data", JArr [JObj first_track]); (lit "total", JInt 1)].

Definition web_artwork : Web :=
  fun url =>
    if str_eqb url
         (lit "https://api.deezer.com/search/track?q=Artist%20B%20Song%20A&limit=1")
    then http_response 200 (utf8_encode (json_dumps (JObj artwork_answer)))
    else http_raise OSError.

(** A [float] for the examples: it reads whole numbers. *)
Definition whole_numbers (s : str) : option float :=
  if forallb is_digit s && negb (str_is_empty s)
  then Some (float_of_Z (int_of_digits s))
  else None.

(** A line of the player, as the command writes it. *)
Definition player_line : str :=
  lit "Song A|||Artist B|||Album C|||200|||50|||" ++ [10].

(** A search result that names no artist and no track. *)
Definition nameless_result : list (str * json) :=
  [(lit "wrapperType", JStr (lit "track"));
   (lit "trackViewUrl", JStr (lit "https://itunes.apple.com/us/album/9"))].

(** A payload whose text holds a surrogate pair as two code points, and the
    payload with the one code point the pair stands for. *)
Definition paired : json := JObj [(lit "details", JStr [55357; 56832])].

Definition joined : json := JObj [(lit "details", JStr [128512])].

(** The bytes a client has written to its stream. *)
Definition written (c : DiscordRPC.t) : bytes :=
  match DiscordRPC.sock c with
  | Some s => tx s
  | None => []
  end.

(** An answer whose first result has a null artist name and whose second
    result matches. *)
Definition null_artist_then_match : list json :=
  [JObj [(lit "artistName", JNull);
         (lit "trackName", JStr (lit "Song A"));
         (lit "trackViewUrl", JStr (lit "https://itunes.apple.com/us/album/1"))];
   search_result "Artist B" "Song A" "https://itunes.apple.com/us/album/2"].

(** ** The predicates of the statements *)

(** Text that has a UTF-8 form: code points, none a surrogate. *)
Definition valid_cp (c : Z) : Prop :=
  0 <= c < 1114112 /\ is_surrogate c = false.

Definition valid_text (s : str) : Prop := Forall valid_cp s.

(** What may follow a value inside a JSON text: nothing, a comma, or the
    end of an array or of an object. *)
Definition delim (rest : str) : Prop :=
  match rest with
  | [] => True
  | c :: _ => c = 44 \/ c = 93 \/ c = 125
  end.

(** The payloads the round trip is stated for: no float, text that has a
    UTF-8 form, and in a dict no key twice. *)
Unset Elimination Schemes.
Inductive json_ok : json -> Prop :=
| ok_null : json_ok JNull
| ok_bool (b : bool) : json_ok (JBool b)
| ok_int (z : Z) : json_ok (JInt z)
| ok_str (s : str) : valid_text s -> json_ok (JStr s)
| ok_arr (l : list json) : Forall json_ok l -> json_ok (JArr l)
| ok_obj (d : list (str * json)) :
    Forall (fun kv => valid_text (fst kv) /\ json_ok (snd kv)) d ->
    NoDup (map fst d) ->
    json_ok (JObj d).
Set Elimination Schemes.


(** The session of a client: what no packet exchange changes. *)
Definition same_session (a b : DiscordRPC.t) : Prop :=
  DiscordRPC.client_id a = DiscordRPC.client_id b
  /\ DiscordRPC.connected a = DiscordRPC.connected b
  /\ option_map peer (DiscordRPC.sock a) = option_map peer (DiscordRPC.sock b).

(** A method keeps the session when each of its steps does. *)
Definition keeps_session {A : Type} (m : M DiscordRPC.t A) : Prop :=
  forall self, same_session self (snd (m self)).

(** Text of ASCII characters. *)
Definition ascii_text (s : str) : Prop := Forall (fun c => 0 <= c < 128) s.

(** One more character in front of what [scanstring] gives. *)
Definition scan_cons (c : Z) (r : option (str * str)) : option (str * str) :=
  match r with
  | Some (x, rest) => Some (c :: x, rest)
  | None => None
  end.

(** Induction on a value, with the hypothesis for each item of an array and
    each member of a dict. *)
Fixpoint json_induction (P : json -> Prop)
    (Hnull : P JNull) (Hbool : forall b, P (JBool b))
    (Hint : forall z, P (JInt z)) (Hfloat : forall l, P (JFloat l))
    (Hstr : forall s, P (JStr s))
    (Harr : forall l, Forall P l -> P (JArr l))
    (Hobj : forall d, Forall (fun kv => P (snd kv)) d -> P (JObj d))
    (v : json) {struct v} : P v :=
  match v with
  | JNull => Hnull
  | JBool b => Hbool b
  | JInt z => Hint z
  | JFloat l => Hfloat l
  | JStr s => Hstr s
  | JArr l =>
      Harr l ((fix items (l : list json) : Forall P l :=
                 match l with
                 | [] => Forall_nil P
                 | x :: r =>
                     Forall_cons x
                       (json_induction P Hnull Hbool Hint Hfloat Hstr Harr Hobj x)
                       (items r)
                 end) l)
  | JObj d =>
      Hobj d ((fix members (d : list (str * json))
                 : Forall (fun kv => P (snd kv)) d :=
                 match d with
                 | [] => Forall_nil _
                 | kv :: r =>
                     Forall_cons kv
                       (json_induction P Hnull Hbool Hint Hfloat Hstr Harr Hobj
                          (snd kv))
                       (members r)
                 end) d)
  end.

(** The first character of a value: no whitespace, no closing bracket. *)
Definition value_start (c : Z) : Prop :=
  is_json_ws c = false /\ c <> 93 /\ c <> 125 /\ c <> 44.

(** A value reads back: its text, followed by what may follow a value, is
    parsed to the value, with any fuel past the length of the text. *)
Definition reads_back (v : json) : Prop :=
  json_ok v ->
  forall fuel rest,
    (List.length (json_dumps v) <= fuel)%nat -> delim rest ->
    parse_value fuel (json_dumps v ++ rest) = Some (v, rest).

(** The candidate at [path] greets the client: the path exists, the
    connection is accepted, the handshake is sent, and the packet read back is
    a dict whose evt is READY. *)
Definition greets (os : OS) (cid : str) (path : str) : bool :=
  path_exists os path
  && match accept os path with
     | None => false
     | Some s =>
         let c0 := DiscordRPC.mk cid
                     (Some (mk_socket (Some path) (rx s) (rx_plan s) (tx s) (tx_plan s)))
                     false in
         match DiscordRPC._send_packet 0 (DiscordRPC.handshake cid) c0 with
         | (Ok _, c1) =>
             match DiscordRPC._read_packet c1 with
             | (Ok (_, response), _) =>
                 truthy response
                 && match py_get response (lit "evt") JNull with
                    | Ok evt => eq_str evt (lit "READY")
                    | Raise _ => false
                    end
             | (Raise _, _) => false
             end
         | (Raise _, _) => false
         end
     end.

(** The link of a search result the loop returns: the result is a dict
    whose artist and title are text that matches, and whose link is text
    that is not empty. *)
Definition usable_match (lower : str -> str) (artist title : str)
    (r : json) (u : str) : Prop :=
  exists d ra rt,
    r = JObj d
    /\ dict_get d (lit "artistName") = Some (JStr ra)
    /\ dict_get d (lit "trackName") = Some (JStr rt)
    /\ result_matches lower artist title (lower ra) (lower rt) = true
    /\ dict_get d (lit "trackViewUrl") = Some (JStr u)
    /\ u <> [].

(** A web that gives no usable answer: each request ends in an exception,
    in a status other than 200, in a body that cannot be read, or in a body
    that is no UTF-8 text or no JSON text. *)
Definition no_answer (web : Web) : Prop :=
  forall url,
    match web url with
    | http_raise _ => True
    | http_response status body =>
        status <> 200
        \/ match body with
           | Raise _ => True
           | Ok raw =>
               forall text, utf8_decode raw = Ok text ->
                            exists e, json_loads text = Raise e
           end
    end.

(** [d.get(k)] on the members of a dict. *)
Definition get_or_None (d : list (str * json)) (k : str) : json :=
  match dict_get d k with
  | Some x => x
  | None => JNull
  end.

(** The characters of a link made by the program itself: letters, digits,
    and [_.-~/%:?=]. *)
Definition link_char (c : Z) : bool :=
  is_alnum c || (c =? 95) || (c =? 46) || (c =? 45) || (c =? 126) || (c =? 47)
  || (c =? 37) || (c =? 58) || (c =? 63) || (c =? 61).

(** The variables of the loop after the lookup of the artwork in a turn
    that meets [song]: the artwork is looked up when the text made of the
    artist and the title is not the one of the turn before. *)
Definition after_lookup (env : tick_env) (song : SongData.t) (st : loop_state)
  : loop_state :=
  let key := SongData.artist song ++ 45 :: SongData.title song in
  if option_str_eqb (last_song_info st) key then st
  else mk_loop (discord st) (last_was_playing st) (Some key)
               (get_album_artwork (web env) (SongData.artist song)
                  (SongData.title song) (SongData.album song))
               (calls st).

(** The activity a turn sends for [song]. *)
Definition activity_sent (song : SongData.t) (ts : Z * Z) (link : str)
    (artwork : json) : list (str * json) :=
  if truthy artwork then
    dict_set (activity_of song (fst ts) (snd ts) link) (lit "assets")
      (JObj [(lit "large_image", artwork);
             (lit "large_text",
              JStr (SongData.album song ++ lit " by " ++ SongData.artist song))])
  else activity_of song (fst ts) (snd ts) link.

(** The line the player writes: the fields with "|||" between them. *)
Fixpoint join_fields (fields : list str) : str :=
  match fields with
  | [] => []
  | [f] => f
  | f :: rest => f ++ lit "|||" ++ join_fields rest
  end.

(** A field that holds no vertical bar. *)
Definition no_bar (f : str) : Prop := ~ In 124 f.

(** The start of [main]: [connect] on the client of the hard-coded
    identifier, and the turns of the loop from the client it leaves. *)
Definition started (os : OS) : result bool * DiscordRPC.t :=
  DiscordRPC.connect os (DiscordRPC.mk CLIENT_ID None false).

Definition looped (lower : str -> str) (os : OS) (envs : list tick_env)
  : result unit * loop_state :=
  ticks lower envs (loop_start (snd (started os))).

(** The limits of the interpreter a payload has to stay inside: how deep
    its arrays and dicts are nested, and how large its integers are. *)
Fixpoint nesting (v : json) : nat :=
  match v with
  | JArr l =>
      S ((fix deepest (l : list json) : nat :=
            match l with
            | [] => O
            | x :: r => Nat.max (nesting x) (deepest r)
            end) l)
  | JObj d =>
      S ((fix deepest (d : list (str * json)) : nat :=
            match d with
            | [] => O
            | kv :: r => Nat.max (nesting (snd kv)) (deepest r)
            end) d)
  | _ => O
  end.

Fixpoint ints_below (bound : Z) (v : json) : bool :=
  match v with
  | JInt z => Z.abs z <? bound
  | JArr l =>
      (fix all (l : list json) : bool :=
         match l with
         | [] => true
         | x :: r => ints_below bound x && all r
         end) l
  | JObj d =>
      (fix all (d : list (str * json)) : bool :=
         match d with
         | [] => true
         | kv :: r => ints_below bound (snd kv) && all r
         end) d
  | _ => true
  end.

(** [d.get(k, "")] when it is text: the text under [k], the empty text when
    [k] is missing, and none when what is under [k] is no text. *)
Definition name_of (d : list (str * json)) (k : str) : option str :=
  match dict_get d k with
  | Some (JStr s) => Some s
  | Some _ => None
  | None => Some []
  end.

(** * Proofs *)

(** ** The session of a client: what no packet exchange changes *)

Lemma same_session_refl (a : DiscordRPC.t) : same_session a a.
Proof. repeat split. Qed.

Lemma same_session_trans (a b c : DiscordRPC.t) :
  same_session a b -> same_session b c -> same_session a c.
Proof.
  unfold same_session. intros (A1 & A2 & A3) (B1 & B2 & B3).
  repeat split; congruence.
Qed.

Create HintDb session.
#[local] Hint Resolve same_session_refl : session.

Lemma sock_recv_peer (s : Socket) (n : Z) :
  peer (snd (sock_recv s n)) = peer s.
Proof.
  unfold sock_recv. destruct (peer s) eqn:E; simpl; auto.
  destruct (rx_plan s) as [|[|k] plan]; simpl; auto.
Qed.

Lemma sock_send_peer (s : Socket) (data : bytes) :
  peer (snd (sock_send s data)) = peer s.
Proof.
  unfold sock_send. destruct (peer s) eqn:E; simpl; auto.
  destruct (tx_plan s) as [|[|k] plan]; simpl; auto.
Qed.

Lemma recv_session (n : Z) (self : DiscordRPC.t) :
  same_session self (snd (DiscordRPC.recv n self)).
Proof.
  unfold DiscordRPC.recv. destruct (DiscordRPC.sock self) as [s|] eqn:E.
  - pose proof (sock_recv_peer s n) as P.
    destruct (sock_recv s n) as [r s']. simpl in *.
    unfold same_session. simpl. rewrite E. simpl. rewrite P. auto.
  - simpl. auto with session.
Qed.

Lemma send_session (data : bytes) (self : DiscordRPC.t) :
  same_session self (snd (DiscordRPC.send data self)).
Proof.
  unfold DiscordRPC.send. destruct (DiscordRPC.sock self) as [s|] eqn:E.
  - pose proof (sock_send_peer s data) as P.
    destruct (sock_send s data) as [r s']. simpl in *.
    unfold same_session. simpl. rewrite E. simpl. rewrite P. auto.
  - simpl. auto with session.
Qed.

Lemma keeps_ret {A : Type} (a : A) : keeps_session (ret a).
Proof. intros self. simpl. auto with session. Qed.

Lemma keeps_raise {A : Type} (e : exn) : keeps_session (@raise _ A e).
Proof. intros self. simpl. auto with session. Qed.

Lemma keeps_lift {A : Type} (r : result A) : keeps_session (lift r).
Proof. intros self. simpl. auto with session. Qed.

Lemma keeps_bind {A B : Type} (c : M DiscordRPC.t A) (k : A -> M DiscordRPC.t B) :
  keeps_session c -> (forall a, keeps_session (k a)) -> keeps_session (bindM c k).
Proof.
  intros Hc Hk self. unfold bindM. specialize (Hc self).
  destruct (c self) as [[a|e] s1]; simpl in *; auto.
  eapply same_session_trans; [exact Hc | apply Hk].
Qed.

Lemma keeps_try {A : Type} (body : M DiscordRPC.t A) (h : exn -> bool)
    (handler : exn -> M DiscordRPC.t A) :
  keeps_session body -> (forall e, keeps_session (handler e)) ->
  keeps_session (try_except body h handler).
Proof.
  intros Hb Hh self. unfold try_except. specialize (Hb self).
  destruct (body self) as [[a|e] s1]; simpl in *; auto.
  destruct (h e); simpl; auto.
  eapply same_session_trans; [exact Hb | apply Hh].
Qed.

Lemma keeps_if {A : Type} (b : bool) (x y : M DiscordRPC.t A) :
  keeps_session x -> keeps_session y -> keeps_session (if b then x else y).
Proof. destruct b; auto. Qed.

Lemma keeps_recv (n : Z) : keeps_session (DiscordRPC.recv n).
Proof. intros self. apply recv_session. Qed.

Lemma keeps_send (data : bytes) : keeps_session (DiscordRPC.send data).
Proof. intros self. apply send_session. Qed.

#[local] Hint Resolve keeps_ret keeps_raise keeps_lift keeps_recv keeps_send : session.

Ltac keeps :=
  repeat first
    [ apply keeps_bind; [|intros ?]
    | apply keeps_try; [|intros ?]
    | apply keeps_if
    | solve [auto with session] ].

Lemma keeps_send_packet (opcode : Z) (data : json) :
  keeps_session (DiscordRPC._send_packet opcode data).
Proof.
  intros self. unfold DiscordRPC._send_packet.
  destruct (DiscordRPC.sock self); simpl; auto with session.
  destruct (opcode <? 0); simpl; auto with session.
  revert self. change (keeps_session
    (try_except
       (json_data <~ lift (utf8_encode (json_dumps data)) ;;
        header <~ lift (struct_pack_II opcode (Z.of_nat (List.length json_data))) ;;
        DiscordRPC.send (header ++ json_data) ;;; ret tt)
       (fun e => match e with struct_error => true | _ => is_OSError e end)
       (fun _ => raise (RuntimeError "Failed to send packet")))).
  keeps.
Qed.

Lemma keeps_read_packet : keeps_session DiscordRPC._read_packet.
Proof.
  intros self. unfold DiscordRPC._read_packet.
  destruct (DiscordRPC.sock self); simpl; auto with session.
  match goal with |- same_session _ (snd (?m self)) =>
    revert self; change (keeps_session m) end.
  keeps.
Qed.

#[local] Hint Resolve keeps_send_packet keeps_read_packet : session.

Lemma keeps_set_activity (nonce : str) (pid : Z) (activity : json) :
  keeps_session (DiscordRPC.set_activity nonce pid activity).
Proof.
  intros self. unfold DiscordRPC.set_activity.
  destruct (negb (DiscordRPC.connected self) || _); simpl; auto with session.
  match goal with |- same_session _ (snd (?m self)) =>
    revert self; change (keeps_session m) end.
  keeps.
Qed.

Lemma set_activity_returns (nonce : str) (pid : Z) (activity : json)
    (self : DiscordRPC.t) :
  exists b, fst (DiscordRPC.set_activity nonce pid activity self) = Ok b.
Proof.
  unfold DiscordRPC.set_activity.
  destruct (negb (DiscordRPC.connected self) || _); [eexists; reflexivity|].
  unfold try_except, bindM.
  destruct (DiscordRPC._send_packet 1 _ self) as [[[]|e] self1]; cbn;
    [|eexists; reflexivity].
  destruct (DiscordRPC._read_packet self1) as [[[op response]|e] self2]; cbn;
    [|eexists; reflexivity].
  destruct (truthy response); cbn; [|eexists; reflexivity].
  unfold lift. destruct (py_get response (lit "evt") JNull); cbn;
    [|eexists; reflexivity].
  destruct (eq_str a (lit "ERROR")); cbn; eexists; reflexivity.
Qed.

(** ** Floats: truncation, floor and the sign of a difference *)

Lemma digits2_pos_upper (m : positive) :
  Zpos m < 2 ^ Zpos (digits2_pos m).
Proof.
  induction m as [m IH|m IH|]; simpl digits2_pos.
  - rewrite Pos2Z.inj_succ, Z.pow_succ_r by lia. lia.
  - rewrite Pos2Z.inj_succ, Z.pow_succ_r by lia. lia.
  - reflexivity.
Qed.

Lemma digits2_pos_lower (m : positive) :
  2 ^ (Zpos (digits2_pos m) - 1) <= Zpos m.
Proof.
  induction m as [m IH|m IH|]; simpl digits2_pos.
  - rewrite Pos2Z.inj_succ.
    replace (Z.succ (Zpos (digits2_pos m)) - 1)
      with (Z.succ (Zpos (digits2_pos m) - 1)) by lia.
    rewrite Z.pow_succ_r by lia. lia.
  - rewrite Pos2Z.inj_succ.
    replace (Z.succ (Zpos (digits2_pos m)) - 1)
      with (Z.succ (Zpos (digits2_pos m) - 1)) by lia.
    rewrite Z.pow_succ_r by lia. lia.
  - simpl. lia.
Qed.

Lemma iter_xO_value (m d : positive) :
  Zpos (Pos.iter xO m d) = Zpos m * 2 ^ Zpos d.
Proof.
  change (Pos.iter xO m d) with (shift_pos d m).
  rewrite shift_pos_correct. change (Z.pow_pos 2 d) with (2 ^ Zpos d). lia.
Qed.

(** What [valid_binary] says of a finite float: at most [prec] digits, and
    exactly [prec] above the least exponent. *)
Lemma valid_finite_digits (s : bool) (m : positive) (e : Z) :
  float_valid (S754_finite s m e) = true ->
  3 - emax - prec <= e
  /\ Zpos (digits2_pos m) <= prec
  /\ (3 - emax - prec < e -> Zpos (digits2_pos m) = prec).
Proof.
  unfold float_valid, valid_binary, bounded, canonical_mantissa, fexp, SpecFloat.emin.
  intros H. apply andb_prop in H. destruct H as [H _].
  apply Z.eqb_eq in H. lia.
Qed.

Lemma binary_round_aux_sign (sx : bool) (mx ex : Z) (lx : location) :
  match binary_round_aux prec emax sx mx ex lx with
  | S754_finite s _ _ => s = sx
  | _ => True
  end.
Proof.
  unfold binary_round_aux.
  destruct (shr_fexp prec emax mx ex lx) as [mrs' e'].
  destruct (shr_fexp prec emax _ e' loc_Exact) as [mrs'' e''].
  destruct (shr_m mrs''); auto.
  destruct (e'' <=? emax - prec); auto.
Qed.

Lemma binary_normalize_sign (m e : Z) :
  0 <= m ->
  match binary_normalize prec emax m e false with
  | S754_finite s _ _ => s = false
  | _ => True
  end.
Proof.
  intros H. destruct m as [|p|p]; simpl; auto; [|lia].
  unfold binary_round.
  destruct (shl_align p e _) as [mz ez].
  apply binary_round_aux_sign.
Qed.

(** The difference of two valid floats that are not negative, the first not
    below the second, is never a negative finite number. *)
Lemma float_sub_sign (mx my : positive) (ex ey : Z) :
  float_valid (S754_finite false mx ex) = true ->
  float_valid (S754_finite false my ey) = true ->
  SFltb (S754_finite false mx ex) (S754_finite false my ey) = false ->
  match float_sub (S754_finite false mx ex) (S754_finite false my ey) with
  | S754_finite s _ _ => s = false
  | _ => True
  end.
Proof.
  intros Vx Vy Hlt.
  apply valid_finite_digits in Vx. destruct Vx as (Lx & Dx & Nx).
  apply valid_finite_digits in Vy. destruct Vy as (Ly & Dy & Ny).
  unfold float_sub, SFsub. cbn [cond_Zopp].
  apply binary_normalize_sign.
  unfold SFltb, SFcompare in Hlt.
  unfold shl_align.
  revert Hlt.
  destruct (Z.compare_spec ex ey) as [E|E|E]; intros Hlt; [| discriminate |].
  - subst ey. rewrite Z.min_id, Z.sub_diag. cbn [fst].
    rewrite Pos.compare_cont_spec in Hlt.
    destruct (Pos.compare_spec mx my) as [C|C|C]; simpl in Hlt;
      try discriminate; lia.
  - rewrite Z.min_r by lia. rewrite Z.sub_diag.
    destruct (ey - ex) eqn:Ed; try lia. cbn [fst].
    rewrite iter_xO_value.
    pose proof (digits2_pos_lower mx) as Lo.
    pose proof (digits2_pos_upper my) as Up.
    rewrite Nx in Lo by lia.
    assert (P1 : 2 ^ Zpos (digits2_pos my) <= 2 ^ prec)
      by (apply Z.pow_le_mono_r; lia).
    assert (P2 : 2 ^ 1 <= 2 ^ Zpos p)
      by (apply Z.pow_le_mono_r; lia).
    change (2 ^ prec) with (2 * 2 ^ (prec - 1)) in P1.
    change (2 ^ 1) with 2 in P2.
    nia.
Qed.

(** On a float that is not a negative finite number, [int] is the floor. *)
Lemma int_of_float_floor (x : float) :
  match x with S754_finite s _ _ => s = false | _ => True end ->
  match float_floor x with
  | Some k => int_of_float x = Ok k
  | None => exists e, int_of_float x = Raise e
  end.
Proof.
  destruct x as [s|s| |s m e]; simpl; intros H; try (eexists; reflexivity); auto.
  subst s. cbn [cond_Zopp].
  destruct (0 <=? e) eqn:E; [reflexivity|].
  apply Z.leb_gt in E.
  rewrite Z.quot_div_nonneg; [reflexivity | lia |].
  apply Z.pow_pos_nonneg; lia.
Qed.

Lemma float_sub_self (m : positive) (e : Z) :
  float_sub (S754_finite false m e) (S754_finite false m e) = S754_zero false.
Proof.
  unfold float_sub, SFsub, shl_align.
  rewrite Z.min_id, Z.sub_diag. cbn [fst cond_Zopp].
  rewrite ?Z.sub_diag. reflexivity.
Qed.

(** The floats of a snapshot that passed the validation. *)
Lemma validated_floats (ti ar al : str) (d p : float) (u : option str)
    (song : SongData.t) :
  float_valid d = true -> float_valid p = true ->
  SongData.__init__ ti ar al d p u = Ok song ->
  match SongData.position song with
  | S754_finite s _ _ => s = false
  | _ => True
  end
  /\ match float_sub (SongData.duration song) (SongData.position song) with
     | S754_finite s _ _ => s = false
     | _ => True
     end.
Proof.
  intros Vd Vp. unfold SongData.__init__, SongData.__post_init__. cbn [SongData.duration SongData.position].
  destruct (SFltb d float_zero) eqn:Hd; [discriminate|].
  destruct (SFltb p float_zero) eqn:Hp; [discriminate|].
  destruct (SFltb d p) eqn:Hlt.
  - cbn [SongData.set_position SongData.title SongData.artist].
    destruct (str_is_empty (strip ti)); [discriminate|].
    destruct (str_is_empty (strip ar)); [discriminate|].
    intros H. inversion H. subst song. cbn.
    destruct d as [s|s| |s m e]; try destruct s; try discriminate;
      try (cbn; auto; fail).
    rewrite float_sub_self. auto.
  - cbn [SongData.title SongData.artist].
    destruct (str_is_empty (strip ti)); [discriminate|].
    destruct (str_is_empty (strip ar)); [discriminate|].
    intros H. inversion H. subst song. cbn [SongData.duration SongData.position].
    destruct d as [sd|sd| |sd md ed]; destruct p as [sp|sp| |sp mp ep];
      try destruct sd; try destruct sp; try discriminate;
      try (cbn; auto; fail).
    split; [reflexivity | apply float_sub_sign; assumption].
Qed.

(** ** Bytes, the header and ASCII text *)

Lemma byte_val_range (b : byte) : 0 <= byte_val b < 256.
Proof.
  unfold byte_val. pose proof (Byte.to_N_bounded b). lia.
Qed.

Lemma byte_val_of (z : Z) : byte_val (byte_of z) = z mod 256.
Proof.
  unfold byte_val, byte_of.
  pose proof (Z.mod_pos_bound z 256 ltac:(lia)) as R.
  destruct (Byte.of_N (Z.to_N (z mod 256))) as [b|] eqn:E.
  - apply Byte.to_of_N in E. rewrite E. lia.
  - apply Byte.of_N_None_iff in E. lia.
Qed.

Lemma unpack_pack_u32 (z : Z) :
  0 <= z < 2 ^ 32 ->
  exists b0 b1 b2 b3,
    pack_u32 z = Ok [b0; b1; b2; b3] /\ unpack_u32 b0 b1 b2 b3 = z.
Proof.
  intros R. unfold pack_u32.
  replace ((0 <=? z) && (z <? 2 ^ 32)) with true
    by (symmetry; apply andb_true_intro; split;
        [apply Z.leb_le | apply Z.ltb_lt]; lia).
  do 4 eexists. split; [reflexivity|].
  unfold unpack_u32. rewrite !byte_val_of.
  change (2 ^ 32) with 4294967296 in R.
  Z.div_mod_to_equations. lia.
Qed.

Lemma utf8_encode_ascii (s : str) :
  ascii_text s -> utf8_encode s = Ok (map byte_of s).
Proof.
  induction 1 as [|c r Hc _ IH]; [reflexivity|].
  cbn [utf8_encode map]. rewrite IH. unfold utf8_encode_cp.
  replace (c <? 0) with false by (symmetry; apply Z.ltb_ge; lia).
  replace (c <? 128) with true by (symmetry; apply Z.ltb_lt; lia).
  reflexivity.
Qed.

Lemma utf8_decode_ascii (s : str) :
  ascii_text s -> utf8_decode (map byte_of s) = Ok s.
Proof.
  induction 1 as [|c r Hc _ IH]; [reflexivity|].
  cbn [utf8_decode map]. rewrite IH, byte_val_of.
  rewrite Z.mod_small by lia.
  replace (c <? 128) with true by (symmetry; apply Z.ltb_lt; lia).
  reflexivity.
Qed.

(** ** Hexadecimal digits and surrogate pairs *)

Lemma unhex_hexdigit (d : Z) : 0 <= d < 16 -> unhex (hexdigit d) = Some d.
Proof.
  intros R.
  assert (H : d = 0 \/ d = 1 \/ d = 2 \/ d = 3 \/ d = 4 \/ d = 5 \/ d = 6
              \/ d = 7 \/ d = 8 \/ d = 9 \/ d = 10 \/ d = 11 \/ d = 12
              \/ d = 13 \/ d = 14 \/ d = 15) by lia.
  repeat (destruct H as [H|H]; [subst d; reflexivity|]).
  subst d; reflexivity.
Qed.

Lemma unhex4_hex4 (n : Z) (tail : str) :
  0 <= n < 65536 ->
  exists h1 h2 h3 h4,
    hex4 n ++ tail = h1 :: h2 :: h3 :: h4 :: tail
    /\ unhex4 h1 h2 h3 h4 = Some n.
Proof.
  intros R. unfold hex4. do 4 eexists. split; [reflexivity|].
  unfold unhex4.
  rewrite !unhex_hexdigit by (apply Z.mod_pos_bound; lia).
  f_equal. Z.div_mod_to_equations. lia.
Qed.

Lemma land_high_low (m a : Z) :
  0 <= a < 1024 -> Z.land (m * 1024) a = 0.
Proof.
  intros R. apply Z.bits_inj'. intros i Hi.
  rewrite Z.land_spec, Z.bits_0.
  destruct (Z.ltb_spec i 10) as [L|G].
  - change 1024 with (2 ^ 10). rewrite Z.mul_pow2_bits_low by lia. reflexivity.
  - destruct (Z.eq_dec a 0) as [->|N].
    + rewrite Z.bits_0. apply andb_false_r.
    + rewrite (Z.bits_above_log2 a i); [apply andb_false_r | lia |].
      apply Z.log2_lt_pow2; [lia|].
      apply Z.lt_le_trans with (2 ^ 10); [simpl; lia|].
      apply Z.pow_le_mono_r; lia.
Qed.

Lemma lor_high_low (m a : Z) :
  0 <= a < 1024 -> Z.lor (m * 1024) a = m * 1024 + a.
Proof.
  intros R. pose proof (land_high_low m a R) as L.
  rewrite <- Z.lxor_lor by exact L.
  symmetry. apply Z.add_nocarry_lxor. exact L.
Qed.

(** The surrogates [json.dumps] writes for a code point past U+FFFF, and the
    code point [json.loads] makes of them. *)
Lemma surrogate_pair (c : Z) :
  65536 <= c < 1114112 ->
  let n := c - 65536 in
  let hi := Z.lor 55296 (Z.land (Z.shiftr n 10) 1023) in
  let lo := Z.lor 56320 (Z.land n 1023) in
  55296 <= hi <= 56319 /\ 56320 <= lo <= 57343
  /\ 65536 + Z.lor (Z.shiftl (hi - 55296) 10) (lo - 56320) = c.
Proof.
  intros R n hi lo.
  assert (Hn : 0 <= n < 1048576) by (unfold n; lia).
  assert (Ea : Z.land (Z.shiftr n 10) 1023 = n / 1024).
  { change 1023 with (Z.ones 10). rewrite Z.land_ones by lia.
    rewrite Z.shiftr_div_pow2 by lia. change (2 ^ 10) with 1024.
    apply Z.mod_small. Z.div_mod_to_equations. lia. }
  assert (Eb : Z.land n 1023 = n mod 1024).
  { change 1023 with (Z.ones 10). rewrite Z.land_ones by lia. reflexivity. }
  assert (Ra : 0 <= n / 1024 < 1024) by (Z.div_mod_to_equations; lia).
  assert (Rb : 0 <= n mod 1024 < 1024) by (apply Z.mod_pos_bound; lia).
  assert (Ehi : hi = 55296 + n / 1024).
  { unfold hi. rewrite Ea. change 55296 with (54 * 1024).
    apply lor_high_low. exact Ra. }
  assert (Elo : lo = 56320 + n mod 1024).
  { unfold lo. rewrite Eb. change 56320 with (55 * 1024).
    apply lor_high_low. exact Rb. }
  rewrite Ehi, Elo. repeat split; try lia.
  replace (55296 + n / 1024 - 55296) with (n / 1024) by lia.
  replace (56320 + n mod 1024 - 56320) with (n mod 1024) by lia.
  rewrite Z.shiftl_mul_pow2 by lia. change (2 ^ 10) with 1024.
  rewrite lor_high_low by exact Rb.
  unfold n. Z.div_mod_to_equations. lia.
Qed.

(** ** Strings through [json.dumps] and [json.loads] *)

Lemma scanstring_raw (c : Z) (r : str) :
  c <> 34 -> c <> 92 -> 32 <= c ->
  scanstring (c :: r) = scan_cons c (scanstring r).
Proof.
  intros H1 H2 H3. cbn [scanstring].
  replace (c =? 34) with false by (symmetry; apply Z.eqb_neq; exact H1).
  replace (c =? 92) with false by (symmetry; apply Z.eqb_neq; exact H2).
  replace (c <? 32) with false by (symmetry; apply Z.ltb_ge; exact H3).
  reflexivity.
Qed.

Lemma scanstring_escape (e c : Z) (r : str) :
  unescape e = Some c ->
  scanstring (92 :: e :: r) = scan_cons c (scanstring r).
Proof.
  intros H. cbn [scanstring]. change (92 =? 34) with false.
  change (92 =? 92) with true. cbv iota.
  destruct (e =? 117) eqn:E.
  - apply Z.eqb_eq in E. subst e. discriminate.
  - rewrite H. reflexivity.
Qed.

Lemma scanstring_u (h1 h2 h3 h4 c : Z) (r : str) :
  unhex4 h1 h2 h3 h4 = Some c ->
  (55296 <=? c) && (c <=? 56319) = false ->
  scanstring (92 :: 117 :: h1 :: h2 :: h3 :: h4 :: r) = scan_cons c (scanstring r).
Proof.
  intros H S. cbn [scanstring]. change (92 =? 34) with false.
  change (92 =? 92) with true. change (117 =? 117) with true. cbv iota.
  rewrite H, S. reflexivity.
Qed.

Lemma scanstring_pair (h1 h2 h3 h4 g1 g2 g3 g4 hi lo : Z) (r : str) :
  unhex4 h1 h2 h3 h4 = Some hi ->
  (55296 <=? hi) && (hi <=? 56319) = true ->
  unhex4 g1 g2 g3 g4 = Some lo ->
  (56320 <=? lo) && (lo <=? 57343) = true ->
  scanstring (92 :: 117 :: h1 :: h2 :: h3 :: h4
              :: 92 :: 117 :: g1 :: g2 :: g3 :: g4 :: r)
  = scan_cons (65536 + Z.lor (Z.shiftl (hi - 55296) 10) (lo - 56320))
              (scanstring r).
Proof.
  intros H S G L. cbn [scanstring]. change (92 =? 34) with false.
  change (92 =? 92) with true. change (117 =? 117) with true. cbv iota.
  rewrite H, S. unfold low_surrogate_escape.
  change (92 =? 92) with true. change (117 =? 117) with true. cbn [andb].
  rewrite G, L. reflexivity.
Qed.

Lemma range_tests (lo hi c : Z) :
  (lo <=? c) && (c <=? hi) = false <-> ~ (lo <= c <= hi).
Proof.
  rewrite andb_false_iff, Z.leb_gt, Z.leb_gt. lia.
Qed.

(** One code point: what is written for it reads back as it. *)
Lemma scanstring_escape_char (c : Z) (tail : str) :
  valid_cp c ->
  scanstring (escape_char c ++ tail) = scan_cons c (scanstring tail).
Proof.
  intros [R S]. unfold is_surrogate in S. apply range_tests in S.
  unfold escape_char.
  destruct (Z.eqb_spec c 34) as [->|N1]; [apply scanstring_escape; reflexivity|].
  destruct (Z.eqb_spec c 92) as [->|N2]; [apply scanstring_escape; reflexivity|].
  destruct (Z.eqb_spec c 10) as [->|N3]; [apply scanstring_escape; reflexivity|].
  destruct (Z.eqb_spec c 13) as [->|N4]; [apply scanstring_escape; reflexivity|].
  destruct (Z.eqb_spec c 9) as [->|N5]; [apply scanstring_escape; reflexivity|].
  destruct (Z.eqb_spec c 8) as [->|N6]; [apply scanstring_escape; reflexivity|].
  destruct (Z.eqb_spec c 12) as [->|N7]; [apply scanstring_escape; reflexivity|].
  destruct ((32 <=? c) && (c <=? 126)) eqn:P.
  - apply andb_prop in P. destruct P as [P1 P2]. apply Z.leb_le in P1.
    cbn [app]. apply scanstring_raw; assumption.
  - destruct (Z.ltb_spec c 65536) as [L|G].
    + destruct (unhex4_hex4 c tail ltac:(lia)) as (h1 & h2 & h3 & h4 & E & U).
      cbn [app]. rewrite E. apply scanstring_u; [exact U|].
      apply range_tests. lia.
    + destruct (surrogate_pair c ltac:(lia)) as (Rh & Rl & Ec).
      cbv zeta.
      set (hi := Z.lor 55296 (Z.land (Z.shiftr (c - 65536) 10) 1023)) in *.
      set (lo := Z.lor 56320 (Z.land (c - 65536) 1023)) in *.
      destruct (unhex4_hex4 lo tail ltac:(lia)) as (g1 & g2 & g3 & g4 & Eg & Ug).
      destruct (unhex4_hex4 hi (92 :: 117 :: g1 :: g2 :: g3 :: g4 :: tail)
                  ltac:(lia)) as (h1 & h2 & h3 & h4 & Eh & Uh).
      rewrite <- app_assoc. cbn [app]. rewrite Eg, Eh.
      rewrite (scanstring_pair h1 h2 h3 h4 g1 g2 g3 g4 hi lo tail Uh);
        [rewrite Ec; reflexivity | | exact Ug | ].
      * apply andb_true_intro. split; apply Z.leb_le; lia.
      * apply andb_true_intro. split; apply Z.leb_le; lia.
Qed.

Lemma scanstring_escape_body (s rest : str) :
  valid_text s ->
  scanstring (escape_body s ++ 34 :: rest) = Some (s, rest).
Proof.
  induction 1 as [|c r Hc _ IH]; [reflexivity|].
  cbn [escape_body]. rewrite <- app_assoc.
  rewrite scanstring_escape_char by exact Hc.
  rewrite IH. reflexivity.
Qed.

(** What is written is ASCII. *)
Lemma hexdigit_ascii (d : Z) : 0 <= d < 16 -> 0 <= hexdigit d < 128.
Proof. intros R. unfold hexdigit. destruct (d <? 10); lia. Qed.

Lemma hex4_ascii (n : Z) : ascii_text (hex4 n).
Proof.
  unfold hex4.
  repeat constructor; apply hexdigit_ascii; apply Z.mod_pos_bound; lia.
Qed.

Lemma escape_char_ascii (c : Z) : ascii_text (escape_char c).
Proof.
  unfold escape_char, ascii_text.
  repeat (match goal with
          | |- Forall _ (if ?b then _ else _) => destruct b eqn:?
          end; [repeat constructor; lia|]).
  destruct ((32 <=? c) && (c <=? 126)) eqn:P.
  - apply andb_prop in P. destruct P as [P1 P2].
    apply Z.leb_le in P1. apply Z.leb_le in P2. repeat constructor; lia.
  - destruct (c <? 65536).
    + constructor; [lia|]. constructor; [lia|]. apply hex4_ascii.
    + cbv zeta. apply Forall_app. split;
        (constructor; [lia|]; constructor; [lia|]; apply hex4_ascii).
Qed.

Lemma escape_body_ascii (s : str) : ascii_text (escape_body s).
Proof.
  induction s as [|c r IH]; [constructor|].
  cbn [escape_body]. apply Forall_app. split; [apply escape_char_ascii | exact IH].
Qed.

Lemma encode_basestring_ascii_ascii (s : str) :
  ascii_text (encode_basestring_ascii s).
Proof.
  unfold encode_basestring_ascii. constructor; [lia|].
  apply Forall_app. split; [apply escape_body_ascii|].
  repeat constructor; lia.
Qed.

(** ** Integers through [json.dumps] and [json.loads] *)

Lemma uint_chars_digits (u : Decimal.uint) :
  Forall (fun c => is_digit c = true) (uint_chars u).
Proof.
  induction u; cbn [uint_chars]; constructor; (reflexivity || assumption).
Qed.

Lemma uint_of_digits_chars (u : Decimal.uint) :
  uint_of_digits (uint_chars u) = u.
Proof.
  induction u; cbn [uint_chars uint_of_digits]; [reflexivity|..];
    rewrite IHu; reflexivity.
Qed.

Lemma span_digits_app (ds rest : str) :
  Forall (fun c => is_digit c = true) ds ->
  match rest with [] => True | c :: _ => is_digit c = false end ->
  span_digits (ds ++ rest) = (ds, rest).
Proof.
  intros H Hr. induction H as [|c r Hc _ IH].
  - cbn [app]. destruct rest as [|c r]; [reflexivity|].
    cbn [span_digits]. rewrite Hr. reflexivity.
  - cbn [app span_digits]. rewrite Hc, IH. reflexivity.
Qed.

Lemma nzhead_head (u : Decimal.uint) :
  match Decimal.nzhead u with Decimal.D0 _ => False | _ => True end.
Proof. induction u; cbn; auto. Qed.

(** The decimal digits of a positive number start with a digit that is not
    zero. *)
Lemma to_uint_head (p : positive) :
  exists c r, uint_chars (Pos.to_uint p) = c :: r
              /\ is_digit c = true /\ c <> 48.
Proof.
  pose proof (DecimalPos.Unsigned.to_uint_nonzero p) as NZ.
  assert (U : Decimal.unorm (Pos.to_uint p) = Pos.to_uint p).
  { rewrite <- (DecimalPos.Unsigned.to_of (Pos.to_uint p)).
    rewrite DecimalPos.Unsigned.of_to. reflexivity. }
  destruct (Pos.to_uint p) as [|u|u|u|u|u|u|u|u|u|u] eqn:E;
    try (cbn [uint_chars]; do 2 eexists; split; [reflexivity|];
         split; [reflexivity | discriminate]).
  - exfalso. pose proof (DecimalPos.Unsigned.to_uint_nonnil p). congruence.
  - exfalso. unfold Decimal.unorm in U. cbn [Decimal.nzhead] in U.
    pose proof (nzhead_head u) as H.
    destruct (Decimal.nzhead u); try discriminate; try contradiction.
    apply NZ. congruence.
Qed.

Lemma int_of_digits_pos (p : positive) :
  int_of_digits (uint_chars (Pos.to_uint p)) = Zpos p.
Proof.
  unfold int_of_digits. rewrite uint_of_digits_chars.
  change (N.of_uint (Pos.to_uint p)) with (Pos.of_uint (Pos.to_uint p)).
  rewrite DecimalPos.Unsigned.of_to. reflexivity.
Qed.

Lemma delim_not_digit (rest : str) :
  delim rest -> match rest with [] => True | c :: _ => is_digit c = false end.
Proof.
  destruct rest as [|c r]; [auto|]. cbn. intros [->|[->| ->]]; reflexivity.
Qed.

Lemma scan_frac_delim (rest : str) : delim rest -> scan_frac rest = ([], rest).
Proof.
  destruct rest as [|c r]; [reflexivity|]. cbn. intros [->|[->| ->]]; reflexivity.
Qed.

Lemma scan_exp_delim (rest : str) : delim rest -> scan_exp rest = ([], rest).
Proof.
  destruct rest as [|c r]; [reflexivity|]. cbn. intros [->|[->| ->]]; reflexivity.
Qed.

Lemma scan_digits_pos (p : positive) (rest : str) :
  delim rest ->
  scan_int_part (uint_chars (Pos.to_uint p) ++ rest)
  = Some (uint_chars (Pos.to_uint p), rest).
Proof.
  intros D. destruct (to_uint_head p) as (c & r & E & Hd & Hz).
  pose proof (span_digits_app (uint_chars (Pos.to_uint p)) rest
                (uint_chars_digits _) (delim_not_digit rest D)) as Sp.
  rewrite E in *. cbn [app] in *. unfold scan_int_part.
  replace (c =? 48) with false by (symmetry; apply Z.eqb_neq; exact Hz).
  rewrite Hd, Sp. reflexivity.
Qed.

Lemma scan_number_int (z : Z) (rest : str) :
  delim rest -> scan_number (int_repr z ++ rest) = Some (JInt z, rest).
Proof.
  intros D. unfold scan_number, int_repr. destruct z as [|p|p].
  - cbn [app]. change (48 =? 45) with false. cbv iota.
    unfold scan_int_part. change (48 =? 48) with true. cbv iota.
    rewrite scan_frac_delim, scan_exp_delim by exact D. reflexivity.
  - destruct (to_uint_head p) as (c & r & E & Hd & Hz).
    assert (N : (c =? 45) = false).
    { apply Z.eqb_neq. intros ->. discriminate. }
    pose proof (scan_digits_pos p rest D) as Sp. rewrite E in Sp |- *.
    cbn [app] in *. rewrite N, Sp.
    rewrite scan_frac_delim, scan_exp_delim by exact D.
    rewrite <- E, int_of_digits_pos. reflexivity.
  - cbn [app]. change (45 =? 45) with true. cbv iota.
    rewrite (scan_digits_pos p rest D).
    rewrite scan_frac_delim, scan_exp_delim by exact D.
    rewrite int_of_digits_pos. reflexivity.
Qed.

(** The first character of an integer is a digit or the minus sign. *)
Lemma int_repr_head (z : Z) :
  exists c r, int_repr z = c :: r /\ (is_digit c = true \/ c = 45).
Proof.
  unfold int_repr. destruct z as [|p|p].
  - do 2 eexists. split; [reflexivity | left; reflexivity].
  - destruct (to_uint_head p) as (c & r & E & Hd & _).
    exists c, r. auto.
  - do 2 eexists. split; [reflexivity | right; reflexivity].
Qed.

Lemma int_repr_ascii (z : Z) : ascii_text (int_repr z).
Proof.
  assert (H : forall u, ascii_text (uint_chars u)).
  { intros u. pose proof (uint_chars_digits u) as D.
    unfold ascii_text. eapply Forall_impl; [|exact D].
    intros c Hc. unfold is_digit in Hc. apply andb_prop in Hc.
    destruct Hc as [A B]. apply Z.leb_le in A. apply Z.leb_le in B. lia. }
  unfold int_repr. destruct z; [repeat constructor; lia | apply H |].
  constructor; [lia | apply H].
Qed.

Lemma scan_atom_int (z : Z) (rest : str) :
  delim rest -> scan_atom (int_repr z ++ rest) = Some (JInt z, rest).
Proof.
  intros D. pose proof (scan_number_int z rest D) as N.
  destruct (int_repr_head z) as (c & r & E & Hc).
  rewrite E in *. cbn [app] in *.
  assert (W : forall w v k tl, lit w = k :: tl -> 97 <= k ->
                scan_word w v (c :: r ++ rest) = None).
  { intros w v k tl Ew Hk. unfold scan_word. rewrite Ew.
    cbn [strip_prefix].
    replace (k =? c) with false; [reflexivity|].
    symmetry. apply Z.eqb_neq. intros ->.
    destruct Hc as [Hc| ->]; [|lia].
    unfold is_digit in Hc. apply andb_prop in Hc. destruct Hc as [_ B].
    apply Z.leb_le in B. lia. }
  unfold scan_atom.
  rewrite (W "null"%string JNull 110 (lit "ull") eq_refl) by lia.
  rewrite (W "true"%string (JBool true) 116 (lit "rue") eq_refl) by lia.
  rewrite (W "false"%string (JBool false) 102 (lit "alse") eq_refl) by lia.
  rewrite N. reflexivity.
Qed.

(** ** Values through [json.dumps] and [json.loads] *)

Lemma json_dumps_arr (l : list json) :
  json_dumps (JArr l) = 91 :: items_text l ++ [93].
Proof. reflexivity. Qed.

Lemma json_dumps_obj (d : list (str * json)) :
  json_dumps (JObj d) = 123 :: members_text d ++ [125].
Proof. reflexivity. Qed.

Lemma str_eqb_eq (a b : str) : str_eqb a b = true <-> a = b.
Proof.
  revert b. induction a as [|x a IH]; intros [|y b]; cbn; split;
    try discriminate; try reflexivity.
  - intros H. apply andb_prop in H. destruct H as [H1 H2].
    apply Z.eqb_eq in H1. apply IH in H2. congruence.
  - intros H. inversion H. subst. rewrite Z.eqb_refl. cbn. apply IH. reflexivity.
Qed.

Lemma dict_set_fresh {A : Type} (d : list (str * A)) (k : str) (v : A) :
  ~ In k (map fst d) -> dict_set d k v = d ++ [(k, v)].
Proof.
  induction d as [|[k' v'] d IH]; cbn; intros H; [reflexivity|].
  destruct (str_eqb k' k) eqn:E.
  - apply str_eqb_eq in E. tauto.
  - rewrite IH by tauto. reflexivity.
Qed.

Lemma dict_fold_fresh {A : Type} (ps acc : list (str * A)) :
  NoDup (map fst (acc ++ ps)) ->
  fold_left (fun d kv => dict_set d (fst kv) (snd kv)) ps acc = acc ++ ps.
Proof.
  revert acc. induction ps as [|[k v] ps IH]; intros acc H; cbn.
  - rewrite app_nil_r. reflexivity.
  - rewrite dict_set_fresh.
    + rewrite IH; rewrite <- app_assoc; [reflexivity | exact H].
    + rewrite map_app in H. cbn in H. apply NoDup_remove_2 in H.
      intros Hin. apply H. apply in_or_app. left. exact Hin.
Qed.

Lemma dict_of_pairs_nodup {A : Type} (ps : list (str * A)) :
  NoDup (map fst ps) -> dict_of_pairs ps = ps.
Proof. intros H. unfold dict_of_pairs. apply (dict_fold_fresh ps []). exact H. Qed.

Lemma json_dumps_head (v : json) :
  json_ok v -> exists c r, json_dumps v = c :: r /\ value_start c.
Proof.
  intros H. destruct H as [|[|]|z|s|l|d].
  1-3: (do 2 eexists; split; [reflexivity|];
        unfold value_start; repeat split; try reflexivity; discriminate).
  - destruct (int_repr_head z) as (c & r & E & Hc). exists c, r.
    split; [exact E|]. unfold value_start, is_json_ws.
    destruct Hc as [Hc| ->]; [|repeat split; try reflexivity; discriminate].
    unfold is_digit in Hc. apply andb_prop in Hc. destruct Hc as [A B].
    apply Z.leb_le in A. apply Z.leb_le in B.
    repeat split; lia.
  - do 2 eexists. split; [reflexivity|].
    unfold value_start; repeat split; try reflexivity; discriminate.
  - do 2 eexists. split; [reflexivity|].
    unfold value_start; repeat split; try reflexivity; discriminate.
  - do 2 eexists. split; [reflexivity|].
    unfold value_start; repeat split; try reflexivity; discriminate.
Qed.

Lemma skip_ws_solid (c : Z) (r : str) :
  is_json_ws c = false -> skip_ws (c :: r) = c :: r.
Proof. intros H. cbn [skip_ws]. rewrite H. reflexivity. Qed.

Lemma skip_ws_dumps (v : json) (rest : str) :
  json_ok v -> skip_ws (json_dumps v ++ rest) = json_dumps v ++ rest.
Proof.
  intros H. destruct (json_dumps_head v H) as (c & r & E & S & _).
  rewrite E. cbn [app]. apply skip_ws_solid. exact S.
Qed.

Lemma parse_value_S (f : nat) (c : Z) (r : str) :
  parse_value (S f) (c :: r)
  = if c =? 34 then
      match scanstring r with
      | Some (x, rest) => Some (JStr x, rest)
      | None => None
      end
    else if c =? 123 then
      match skip_ws r with
      | c1 :: r1 =>
          if c1 =? 125 then Some (JObj [], r1)
          else
            match parse_members f (c1 :: r1) with
            | Some (ps, rest) => Some (JObj (dict_of_pairs ps), rest)
            | None => None
            end
      | [] => None
      end
    else if c =? 91 then
      match skip_ws r with
      | c1 :: r1 =>
          if c1 =? 93 then Some (JArr [], r1)
          else
            match parse_elems f (c1 :: r1) with
            | Some (vs, rest) => Some (JArr vs, rest)
            | None => None
            end
      | [] => None
      end
    else scan_atom (c :: r).
Proof. reflexivity. Qed.

Lemma parse_elems_S (f : nat) (s : str) :
  parse_elems (S f) s
  = match parse_value f s with
    | None => None
    | Some (v, r1) =>
        match skip_ws r1 with
        | c :: r2 =>
            if c =? 93 then Some ([v], r2)
            else if c =? 44 then
              match parse_elems f (skip_ws r2) with
              | Some (vs, rest) => Some (v :: vs, rest)
              | None => None
              end
            else None
        | [] => None
        end
    end.
Proof. reflexivity. Qed.

Lemma parse_members_S (f : nat) (k : str) (tail : str) :
  valid_text k ->
  parse_members (S f) (encode_basestring_ascii k ++ 58 :: 32 :: tail)
  = match parse_value f (skip_ws (32 :: tail)) with
    | None => None
    | Some (v, r3) =>
        match skip_ws r3 with
        | c' :: r4 =>
            if c' =? 125 then Some ([(k, v)], r4)
            else if c' =? 44 then
              match parse_members f (skip_ws r4) with
              | Some (ps, rest) => Some ((k, v) :: ps, rest)
              | None => None
              end
            else None
        | [] => None
        end
    end.
Proof.
  intros Hk. unfold encode_basestring_ascii.
  cbn [app parse_members]. change (34 =? 34) with true. cbv iota.
  rewrite <- app_assoc. cbn [app].
  rewrite scanstring_escape_body by exact Hk.
  cbn [skip_ws]. change (is_json_ws 58) with false. cbv iota.
  change (58 =? 58) with true. cbv iota. reflexivity.
Qed.

Lemma items_text_cons (x y : json) (r : list json) :
  items_text (x :: y :: r) = json_dumps x ++ 44 :: 32 :: items_text (y :: r).
Proof. reflexivity. Qed.

Lemma members_text_cons (k : str) (x : json) (kv : str * json)
    (r : list (str * json)) :
  members_text ((k, x) :: kv :: r)
  = encode_basestring_ascii k ++ 58 :: 32 :: json_dumps x
    ++ 44 :: 32 :: members_text (kv :: r).
Proof. destruct kv. reflexivity. Qed.

Lemma items_text_head (x : json) (r : list json) :
  json_ok x -> exists c t, items_text (x :: r) = c :: t /\ value_start c.
Proof.
  intros H. destruct (json_dumps_head x H) as (c & t & E & S).
  destruct r as [|y r].
  - exists c, t. cbn [items_text]. auto.
  - rewrite items_text_cons, E. cbn [app]. eauto.
Qed.

Lemma members_text_head (k : str) (x : json) (r : list (str * json)) :
  exists t, members_text ((k, x) :: r) = 34 :: t.
Proof.
  destruct r as [|kv r].
  - cbn [members_text]. unfold encode_basestring_ascii. cbn [app]. eauto.
  - rewrite members_text_cons. unfold encode_basestring_ascii. cbn [app]. eauto.
Qed.

Lemma skip_ws_space (s : str) : skip_ws (32 :: s) = skip_ws s.
Proof. reflexivity. Qed.

Lemma skip_ws_items (x : json) (r : list json) (rest : str) :
  json_ok x -> skip_ws (items_text (x :: r) ++ rest) = items_text (x :: r) ++ rest.
Proof.
  intros H. destruct (items_text_head x r H) as (c & t & E & S & _).
  rewrite E. cbn [app]. apply skip_ws_solid. exact S.
Qed.

Lemma skip_ws_members (k : str) (x : json) (r : list (str * json)) (rest : str) :
  skip_ws (members_text ((k, x) :: r) ++ rest) = members_text ((k, x) :: r) ++ rest.
Proof.
  destruct (members_text_head k x r) as (t & E).
  rewrite E. cbn [app]. apply skip_ws_solid. reflexivity.
Qed.

Lemma elems_read_back (l : list json) :
  Forall reads_back l -> Forall json_ok l -> l <> [] ->
  forall f rest,
    (List.length (items_text l) + 1 <= f)%nat ->
    parse_elems f (items_text l ++ 93 :: rest) = Some (l, rest).
Proof.
  induction l as [|x l IH]; intros HR HO HN f rest Hf; [congruence|].
  inversion HR as [|? ? Rx Rl]. inversion HO as [|? ? Ox Ol]. subst.
  destruct f as [|f]; [lia|]. rewrite parse_elems_S.
  destruct l as [|y r].
  - cbn [items_text] in *.
    rewrite (Rx Ox f (93 :: rest)); [|lia|cbn; auto].
    change (skip_ws (93 :: rest)) with (93 :: rest).
    change (93 =? 93) with true. reflexivity.
  - rewrite items_text_cons in *. rewrite length_app in Hf.
    cbn [List.length] in Hf.
    rewrite <- app_assoc. cbn [app].
    rewrite (Rx Ox f (44 :: 32 :: items_text (y :: r) ++ 93 :: rest));
      [|lia|cbn; auto].
    change (skip_ws (44 :: 32 :: items_text (y :: r) ++ 93 :: rest))
      with (44 :: 32 :: items_text (y :: r) ++ 93 :: rest).
    change (44 =? 93) with false. change (44 =? 44) with true. cbv iota.
    inversion Ol as [|? ? Oy _]. subst.
    rewrite skip_ws_space, skip_ws_items by exact Oy.
    rewrite (IH Rl Ol ltac:(discriminate) f rest) by lia.
    reflexivity.
Qed.

Lemma members_read_back (d : list (str * json)) :
  Forall (fun kv => reads_back (snd kv)) d ->
  Forall (fun kv => valid_text (fst kv) /\ json_ok (snd kv)) d ->
  d <> [] ->
  forall f rest,
    (List.length (members_text d) + 1 <= f)%nat ->
    parse_members f (members_text d ++ 125 :: rest) = Some (d, rest).
Proof.
  induction d as [|[k x] d IH]; intros HR HO HN f rest Hf; [congruence|].
  inversion HR as [|? ? Rx Rl]. inversion HO as [|? ? [Vk Ox] Ol]. subst.
  cbn [fst snd] in *.
  destruct f as [|f]; [lia|].
  destruct d as [|kv r].
  - cbn [members_text] in *. rewrite length_app in Hf. cbn [List.length] in Hf.
    rewrite <- app_assoc. cbn [app].
    rewrite parse_members_S by exact Vk.
    change (skip_ws (32 :: json_dumps x ++ 125 :: rest))
      with (skip_ws (json_dumps x ++ 125 :: rest)).
    rewrite skip_ws_dumps by exact Ox.
    rewrite (Rx Ox f (125 :: rest)); [|lia|cbn; auto].
    change (skip_ws (125 :: rest)) with (125 :: rest).
    change (125 =? 125) with true. reflexivity.
  - rewrite members_text_cons in *. rewrite length_app in Hf.
    cbn [List.length] in Hf. rewrite length_app in Hf. cbn [List.length] in Hf.
    rewrite <- app_assoc. cbn [app]. rewrite <- app_assoc. cbn [app].
    rewrite parse_members_S by exact Vk.
    change (skip_ws (32 :: json_dumps x ++ 44 :: 32 :: members_text (kv :: r)
                     ++ 125 :: rest))
      with (skip_ws (json_dumps x ++ 44 :: 32 :: members_text (kv :: r)
                     ++ 125 :: rest)).
    rewrite skip_ws_dumps by exact Ox.
    rewrite (Rx Ox f (44 :: 32 :: members_text (kv :: r) ++ 125 :: rest));
      [|lia|cbn; auto].
    change (skip_ws (44 :: 32 :: members_text (kv :: r) ++ 125 :: rest))
      with (44 :: 32 :: members_text (kv :: r) ++ 125 :: rest).
    change (44 =? 125) with false. change (44 =? 44) with true. cbv iota.
    destruct kv as [k2 x2].
    rewrite skip_ws_space, skip_ws_members.
    rewrite (IH Rl Ol ltac:(discriminate) f rest) by lia.
    reflexivity.
Qed.

Lemma json_reads_back (v : json) : reads_back v.
Proof.
  induction v as [|b|z|l|s|l IH|d IH] using json_induction;
    intros Hok fuel rest Hf Hd.
  - destruct fuel; [vm_compute in Hf; lia | reflexivity].
  - destruct fuel; [destruct b; vm_compute in Hf; lia | destruct b; reflexivity].
  - destruct (int_repr_head z) as (c & r & E & Hc).
    cbn [json_dumps] in *. destruct fuel; [rewrite E in Hf; cbn in Hf; lia|].
    pose proof (scan_atom_int z rest Hd) as A.
    rewrite E in *. cbn [app] in *. rewrite parse_value_S.
    assert (N : (c =? 34) = false /\ (c =? 123) = false /\ (c =? 91) = false).
    { destruct Hc as [Hc| ->]; [|repeat split; reflexivity].
      unfold is_digit in Hc. lia. }
    destruct N as (N1 & N2 & N3). rewrite N1, N2, N3. exact A.
  - inversion Hok.
  - inversion Hok as [| | |? Vs| |]. subst.
    cbn [json_dumps]. unfold encode_basestring_ascii.
    destruct fuel; [cbn in Hf; lia|]. cbn [app].
    rewrite parse_value_S. change (34 =? 34) with true. cbv iota.
    rewrite <- app_assoc. cbn [app].
    rewrite scanstring_escape_body by exact Vs. reflexivity.
  - inversion Hok as [| | | |? Ol|]. subst.
    rewrite json_dumps_arr in *. cbn [List.length] in Hf.
    rewrite length_app in Hf. cbn [List.length] in Hf.
    destruct fuel; [lia|]. cbn [app]. rewrite parse_value_S.
    change (91 =? 34) with false. change (91 =? 123) with false.
    change (91 =? 91) with true. cbv iota.
    rewrite <- app_assoc. cbn [app].
    destruct l as [|x r].
    + cbn [items_text app]. change (skip_ws (93 :: rest)) with (93 :: rest).
      change (93 =? 93) with true. reflexivity.
    + inversion Ol as [|? ? Ox _]. subst.
      destruct (items_text_head x r Ox) as (c & t & E & S & N93 & _).
      rewrite E at 1. cbn [app]. rewrite skip_ws_solid by exact S.
      replace (c =? 93) with false by (symmetry; apply Z.eqb_neq; exact N93).
      change (c :: t ++ 93 :: rest) with ((c :: t) ++ 93 :: rest). rewrite <- E.
      rewrite (elems_read_back (x :: r) IH Ol ltac:(discriminate) fuel rest)
        by lia.
      reflexivity.
  - inversion Hok as [| | | | |? Ol ND]. subst.
    rewrite json_dumps_obj in *. cbn [List.length] in Hf.
    rewrite length_app in Hf. cbn [List.length] in Hf.
    destruct fuel; [lia|]. cbn [app]. rewrite parse_value_S.
    change (123 =? 34) with false. change (123 =? 123) with true. cbv iota.
    rewrite <- app_assoc. cbn [app].
    destruct d as [|[k x] r].
    + cbn [members_text app]. change (skip_ws (125 :: rest)) with (125 :: rest).
      change (125 =? 125) with true. reflexivity.
    + destruct (members_text_head k x r) as (t & E).
      rewrite E at 1. cbn [app]. rewrite skip_ws_solid by reflexivity.
      change (34 =? 125) with false. cbv iota.
      change (34 :: t ++ 125 :: rest) with ((34 :: t) ++ 125 :: rest).
      rewrite <- E.
      rewrite (members_read_back ((k, x) :: r) IH Ol ltac:(discriminate)
                 fuel rest) by lia.
      rewrite dict_of_pairs_nodup by exact ND. reflexivity.
Qed.

(** [json.loads(json.dumps(v))] is [v]. *)
Lemma json_loads_dumps (v : json) :
  json_ok v -> json_loads (json_dumps v) = Ok v.
Proof.
  intros Hok. unfold json_loads.
  destruct (json_dumps_head v Hok) as (c & r & E & Hs & _).
  assert (B : c <> 65279).
  { intros ->. clear - E Hok. destruct Hok as [|[|]|z|s|l|d]; try discriminate.
    destruct (int_repr_head z) as (c & t & E' & Hc). cbn [json_dumps] in E.
    rewrite E' in E. inversion E. subst.
    destruct Hc as [Hc|Hc]; [unfold is_digit in Hc; lia | discriminate]. }
  pose proof (json_reads_back v Hok (S (S (List.length (json_dumps v)))) []
                ltac:(lia) I) as P.
  rewrite app_nil_r in P.
  pose proof (skip_ws_dumps v [] Hok) as W. rewrite app_nil_r in W.
  rewrite W, P. rewrite E.
  destruct c as [|p|p]; try reflexivity.
  destruct (Pos.eq_dec p 65279) as [->|Np]; [congruence|].
  clear - Np. cbn [skip_ws].
  repeat (destruct p as [p|p|]; try reflexivity). congruence.
Qed.

(** The text of a value is ASCII: [ensure_ascii] is on. *)
Lemma items_text_ascii (l : list json) :
  Forall (fun v => ascii_text (json_dumps v)) l -> ascii_text (items_text l).
Proof.
  induction 1 as [|x r Hx Hr IH]; [constructor|].
  destruct r as [|y r]; [exact Hx|].
  rewrite items_text_cons. apply Forall_app. split; [exact Hx|].
  constructor; [lia|]. constructor; [lia|]. exact IH.
Qed.

Lemma members_text_ascii (d : list (str * json)) :
  Forall (fun kv => ascii_text (json_dumps (snd kv))) d ->
  ascii_text (members_text d).
Proof.
  induction 1 as [|[k x] r Hx Hr IH]; [constructor|]. cbn [snd] in Hx.
  assert (A : ascii_text (encode_basestring_ascii k ++ 58 :: 32 :: json_dumps x)).
  { apply Forall_app. split; [apply encode_basestring_ascii_ascii|].
    constructor; [lia|]. constructor; [lia|]. exact Hx. }
  destruct r as [|kv r]; [exact A|].
  rewrite members_text_cons.
  change (encode_basestring_ascii k ++ 58 :: 32 :: json_dumps x
          ++ 44 :: 32 :: members_text (kv :: r))
    with (encode_basestring_ascii k
          ++ (58 :: 32 :: json_dumps x) ++ 44 :: 32 :: members_text (kv :: r)).
  rewrite app_assoc. apply Forall_app. split; [exact A|].
  constructor; [lia|]. constructor; [lia|]. exact IH.
Qed.

Lemma json_dumps_ascii (v : json) : json_ok v -> ascii_text (json_dumps v).
Proof.
  induction v as [|b|z|l|s|l IH|d IH] using json_induction; intros Hok.
  - repeat constructor; lia.
  - destruct b; repeat constructor; lia.
  - apply int_repr_ascii.
  - inversion Hok.
  - apply encode_basestring_ascii_ascii.
  - inversion Hok as [| | | |? Ol|]. subst. rewrite json_dumps_arr.
    constructor; [lia|]. apply Forall_app. split; [|repeat constructor; lia].
    apply items_text_ascii. rewrite Forall_forall in *. auto.
  - inversion Hok as [| | | | |? Ol ND]. subst. rewrite json_dumps_obj.
    constructor; [lia|]. apply Forall_app. split; [|repeat constructor; lia].
    apply members_text_ascii. rewrite Forall_forall in *.
    intros kv Hin. apply IH; [exact Hin|]. apply (Ol kv Hin).
Qed.

Lemma json_dumps_nonempty (v : json) :
  json_ok v -> (0 < List.length (json_dumps v))%nat.
Proof.
  intros H. destruct (json_dumps_head v H) as (c & r & E & _).
  rewrite E. cbn. lia.
Qed.

(** ** Facts on strings *)

Lemma lstrip_all_space (s : str) :
  forallb isspace s = true -> lstrip s = [].
Proof.
  induction s as [|c r IH]; simpl; [reflexivity|].
  intros H. apply andb_prop in H. destruct H as [Hc Hr].
  rewrite Hc. auto.
Qed.

Lemma strip_all_space (s : str) :
  forallb isspace s = true -> strip s = [].
Proof.
  intros H. unfold strip, rstrip. rewrite (lstrip_all_space s H). reflexivity.
Qed.

(** ** Facts on float comparisons *)

Lemma SFleb_zero_not_ltb (x : float) :
  SFleb float_zero x = true -> SFltb x float_zero = false.
Proof.
  destruct x as [s|s| |s m e]; try destruct s; simpl; intros H;
    try reflexivity; try discriminate.
Qed.

(** ** SongData: the clamp law and the validation of the text fields *)

(** C7: with a title and an artist that are not blank, a duration and a
    position that are not negative, and a position past the duration, the
    construction succeeds and the snapshot's position is its duration. *)
Theorem SongData_clamp_law (ti ar al : str) (d p : float) (u : option str) :
  strip ti <> [] -> strip ar <> [] ->
  SFleb float_zero d = true ->
  SFleb float_zero p = true ->
  SFltb d p = true ->
  exists s, SongData.__init__ ti ar al d p u = Ok s
            /\ SongData.position s = SongData.duration s
            /\ SongData.duration s = d
            /\ SongData.title s = ti /\ SongData.artist s = ar.
Proof.
  intros Hti Har Hd Hp Hlt.
  unfold SongData.__init__, SongData.__post_init__. simpl.
  rewrite (SFleb_zero_not_ltb d Hd), (SFleb_zero_not_ltb p Hp), Hlt. simpl.
  destruct (strip ti) eqn:Et; [congruence|].
  destruct (strip ar) eqn:Ea; [congruence|].
  simpl. eexists. repeat split.
Qed.

Lemma SongData_clamp_law_witness :
  exists s, SongData.__init__ (lit "Song A") (lit "Artist B") (lit "Album C")
              (float_of_Z 200) (float_of_Z 250) None = Ok s
            /\ SongData.position s = SongData.duration s
            /\ SongData.duration s = float_of_Z 200
            /\ SongData.title s = lit "Song A"
            /\ SongData.artist s = lit "Artist B".
Proof.
  apply (SongData_clamp_law (lit "Song A") (lit "Artist B") (lit "Album C")
           (float_of_Z 200) (float_of_Z 250) None);
    vm_compute; congruence.
Defined.

(** C8: a title or an artist that is empty or holds only whitespace makes
    the construction fail with a ValueError. *)
Theorem SongData_blank_rejected (ti ar al : str) (d p : float) (u : option str) :
  forallb isspace ti = true \/ forallb isspace ar = true ->
  exists msg, SongData.__init__ ti ar al d p u = Raise (ValueError msg).
Proof.
  intros H.
  unfold SongData.__init__, SongData.__post_init__. simpl.
  destruct (SFltb d float_zero); [eexists; reflexivity|].
  destruct (SFltb p float_zero); [eexists; reflexivity|].
  assert (E : forall q, SongData.title (if SFltb d p
              then SongData.set_position (SongData.mk ti ar al d p u) q
              else SongData.mk ti ar al d p u) = ti
           /\ SongData.artist (if SFltb d p
              then SongData.set_position (SongData.mk ti ar al d p u) q
              else SongData.mk ti ar al d p u) = ar)
    by (intros q; destruct (SFltb d p); split; reflexivity).
  destruct (E d) as [E1 E2]. rewrite E1, E2.
  destruct H as [H|H].
  - rewrite (strip_all_space ti H). simpl. eexists; reflexivity.
  - destruct (str_is_empty (strip ti)); [eexists; reflexivity|].
    rewrite (strip_all_space ar H). simpl. eexists; reflexivity.
Qed.

Lemma SongData_blank_rejected_witness :
  exists msg, SongData.__init__ (lit "  ") (lit "Artist B") (lit "Album C")
                (float_of_Z 200) (float_of_Z 50) None = Raise (ValueError msg).
Proof.
  apply (SongData_blank_rejected (lit "  ") (lit "Artist B") (lit "Album C")
           (float_of_Z 200) (float_of_Z 50) None).
  left. reflexivity.
Defined.
(** ** _read_packet and the length field *)

(** C1, as the code has it: when the header that was received carries a
    length of 0 or above 1 MiB, [_read_packet] raises ValueError; it reads
    nothing past the header, whatever the socket holds. *)
Theorem read_packet_bad_length_raises
    (self self1 : DiscordRPC.t) (header : bytes) (opcode length : Z) :
  DiscordRPC.sock self <> None ->
  DiscordRPC.recv 8 self = (Ok header, self1) ->
  struct_unpack_II header = Ok (opcode, length) ->
  length = 0 \/ length > 1024 * 1024 ->
  exists msg, DiscordRPC._read_packet self = (Raise (ValueError msg), self1).
Proof.
  intros Hs Hr Hu Hl.
  unfold DiscordRPC._read_packet.
  destruct (DiscordRPC.sock self) eqn:E; [|congruence].
  unfold try_except, bindM. rewrite Hr.
  assert (Hlen : (Z.of_nat (List.length header) <? 8) = false).
  { unfold struct_unpack_II in Hu.
    do 8 (destruct header as [|? header]; try discriminate).
    destruct header; [reflexivity | discriminate]. }
  rewrite Hlen. unfold lift. rewrite Hu. cbn [fst snd].
  destruct Hl as [Hl|Hl].
  - subst length. cbn. eexists; reflexivity.
  - assert (G : (length >? 1024 * 1024) = true) by (apply Z.gtb_lt; lia).
    rewrite G. cbn. eexists; reflexivity.
Qed.

Lemma read_packet_bad_length_raises_witness :
  exists msg,
    DiscordRPC._read_packet
      (client_on (lit "/tmp/discord-ipc-0")
                 (bytes_of [1; 0; 0; 0; 1; 0; 16; 0; 123; 125]) [] true)
    = (Raise (ValueError msg),
       client_on (lit "/tmp/discord-ipc-0") (bytes_of [123; 125]) [] true).
Proof.
  apply (read_packet_bad_length_raises
           (client_on (lit "/tmp/discord-ipc-0")
                      (bytes_of [1; 0; 0; 0; 1; 0; 16; 0; 123; 125]) [] true)
           (client_on (lit "/tmp/discord-ipc-0") (bytes_of [123; 125]) [] true)
           (bytes_of [1; 0; 0; 0; 1; 0; 16; 0]) 1 1048577).
  - discriminate.
  - reflexivity.
  - reflexivity.
  - right. lia.
Defined.

(** C1 as the specification states it fails: on a header whose length field
    is 0 the call raises, and does not return the pair of None. *)
Lemma read_packet_zero_length_counterexample :
  fst (DiscordRPC._read_packet
         (client_on (lit "/tmp/discord-ipc-0")
                    (bytes_of [1; 0; 0; 0; 0; 0; 0; 0]) [] true))
  = Raise (ValueError "Invalid packet length")
  /\ fst (DiscordRPC._read_packet
            (client_on (lit "/tmp/discord-ipc-0")
                       (bytes_of [1; 0; 0; 0; 0; 0; 0; 0]) [] true))
     <> Ok (None, JNull).
Proof.
  split; [reflexivity | discriminate].
Qed.

(** ** set_activity and the state of the connection *)

(** C3, as the code has it: [set_activity] never raises and never changes
    the client identifier, the connected flag or the socket the client holds.
    It returns false at once when the client is not connected or has no
    socket, false when the send fails, false when reading raises, and false
    when the response is a dict whose evt is ERROR; when [_read_packet]
    returns the pair of None (the read failed or the payload could not be
    decoded) it returns true. *)
Theorem set_activity_frame (nonce : str) (pid : Z) (activity : json)
    (self : DiscordRPC.t) :
  same_session self (snd (DiscordRPC.set_activity nonce pid activity self))
  /\ (exists b, fst (DiscordRPC.set_activity nonce pid activity self) = Ok b)
  /\ (DiscordRPC.connected self = false \/ DiscordRPC.sock self = None ->
      DiscordRPC.set_activity nonce pid activity self = (Ok false, self))
  /\ (DiscordRPC.connected self = true -> DiscordRPC.sock self <> None ->
      (forall e self1,
          DiscordRPC._send_packet 1 (DiscordRPC.command nonce pid activity) self
          = (Raise e, self1) ->
          DiscordRPC.set_activity nonce pid activity self = (Ok false, self1))
      /\ (forall self1 e self2,
          DiscordRPC._send_packet 1 (DiscordRPC.command nonce pid activity) self
          = (Ok tt, self1) ->
          DiscordRPC._read_packet self1 = (Raise e, self2) ->
          DiscordRPC.set_activity nonce pid activity self = (Ok false, self2))
      /\ (forall self1 op response evt self2,
          DiscordRPC._send_packet 1 (DiscordRPC.command nonce pid activity) self
          = (Ok tt, self1) ->
          DiscordRPC._read_packet self1 = (Ok (op, response), self2) ->
          truthy response = true ->
          py_get response (lit "evt") JNull = Ok evt ->
          DiscordRPC.set_activity nonce pid activity self
          = (Ok (negb (eq_str evt (lit "ERROR"))), self2))
      /\ (forall self1 self2,
          DiscordRPC._send_packet 1 (DiscordRPC.command nonce pid activity) self
          = (Ok tt, self1) ->
          DiscordRPC._read_packet self1 = (Ok (None, JNull), self2) ->
          DiscordRPC.set_activity nonce pid activity self = (Ok true, self2))).
Proof.
  split; [apply keeps_set_activity|].
  split; [apply set_activity_returns|].
  unfold DiscordRPC.set_activity.
  destruct (DiscordRPC.connected self) eqn:Ec;
    destruct (DiscordRPC.sock self) as [s|] eqn:Es; cbn [negb orb].
  2-4: (split; [reflexivity|]; intros; congruence).
  unfold try_except, bindM.
  split; [intros [H|H]; discriminate|].
  - intros _ _. repeat split.
    + intros e self1 H. rewrite H. reflexivity.
    + intros self1 e self2 H1 H2. rewrite H1, H2. reflexivity.
    + intros self1 op response evt self2 H1 H2 Ht Hg. rewrite H1, H2. cbn.
      rewrite Ht. unfold lift. rewrite Hg.
      destruct (eq_str evt (lit "ERROR")); reflexivity.
    + intros self1 self2 H1 H2. rewrite H1, H2. reflexivity.
Qed.

Example set_activity_on_error_response :
  DiscordRPC.set_activity (lit "n") 7 JNull
    (client_on (lit "/tmp/discord-ipc-0") error_frame [] true)
  = (Ok false,
     DiscordRPC.mk (lit "1410325920039960657")
       (Some (mk_socket (Some (lit "/tmp/discord-ipc-0")) [] []
                (match utf8_encode (json_dumps (DiscordRPC.command (lit "n") 7 JNull)) with
                 | Ok b => bytes_of [1; 0; 0; 0; Z.of_nat (List.length b); 0; 0; 0] ++ b
                 | Raise _ => []
                 end) []))
       true).
Proof. vm_compute. reflexivity. Qed.

(** C3 as the specification states it fails: the read of the response meets
    a failure of the transport, and the call returns true. *)
Lemma set_activity_read_failure_counterexample :
  fst (DiscordRPC.recv 8
         (snd (DiscordRPC._send_packet 1 (DiscordRPC.command (lit "n") 7 JNull)
                 (client_on (lit "/tmp/discord-ipc-0") [] [io_fail] true))))
  = Raise OSError
  /\ fst (DiscordRPC.set_activity (lit "n") 7 JNull
            (client_on (lit "/tmp/discord-ipc-0") [] [io_fail] true))
     = Ok true.
Proof. split; vm_compute; reflexivity. Qed.

(** ** The loop: when the presence is cleared *)

Lemma bindM_Ok {S A B : Type} (c : M S A) (k : A -> M S B) (s st : S) (b : B) :
  bindM c k s = (Ok b, st) ->
  exists a s', c s = (Ok a, s') /\ k a s' = (Ok b, st).
Proof.
  unfold bindM. destruct (c s) as [[a|e] s']; intros H; [|discriminate].
  exists a, s'. auto.
Qed.

Lemma call_set_activity_spec (env : tick_env) (activity : json) (st : loop_state) :
  exists d, call_set_activity env activity st
            = (Ok tt, mk_loop d (last_was_playing st) (last_song_info st)
                              (cached_artwork st) (calls st ++ [activity])).
Proof.
  unfold call_set_activity.
  destruct (set_activity_returns (nonce env) (pid env) activity (discord st))
    as [b Hb].
  destruct (DiscordRPC.set_activity (nonce env) (pid env) activity (discord st))
    as [r d]. simpl in Hb. subst r. exists d. reflexivity.
Qed.

(** One turn that finds nothing playing: it never raises, it leaves the
    cache at false, and it calls [set_activity(None)] unless the cache was
    false already. *)
Lemma quiet_tick (lower : str -> str) (env : tick_env) (st : loop_state) :
  current_song env = None ->
  fst (tick lower env st) = Ok tt
  /\ last_was_playing (snd (tick lower env st)) = Some false
  /\ calls (snd (tick lower env st))
     = calls st ++ match last_was_playing st with
                   | Some false => []
                   | _ => [JNull]
                   end.
Proof.
  intros Hq. unfold tick. rewrite Hq.
  assert (G : forall st', fst ((call_set_activity env JNull ;;; set_last_was_playing false) st') = Ok tt
            /\ last_was_playing (snd ((call_set_activity env JNull ;;; set_last_was_playing false) st')) = Some false
            /\ calls (snd ((call_set_activity env JNull ;;; set_last_was_playing false) st')) = calls st' ++ [JNull]).
  { intros st'. unfold bindM.
    destruct (call_set_activity_spec env JNull st') as [d Hd]. rewrite Hd.
    simpl. auto. }
  destruct (last_was_playing st) as [[|]|] eqn:E.
  - apply G.
  - simpl. rewrite E, app_nil_r. auto.
  - apply G.
Qed.

Lemma quiet_ticks (lower : str -> str) (envs : list tick_env) (st : loop_state) :
  Forall (fun e => current_song e = None) envs ->
  last_was_playing st = Some false ->
  fst (ticks lower envs st) = Ok tt
  /\ last_was_playing (snd (ticks lower envs st)) = Some false
  /\ calls (snd (ticks lower envs st)) = calls st.
Proof.
  intros H. revert st. induction H as [|env rest Hq _ IH]; intros st Hl.
  - simpl. auto.
  - simpl. unfold bindM.
    destruct (quiet_tick lower env st Hq) as (T1 & T2 & T3).
    destruct (tick lower env st) as [r st1]. simpl in *. subst r.
    rewrite Hl, app_nil_r in T3.
    destruct (IH st1 T2) as (I1 & I2 & I3).
    repeat split; congruence.
Qed.

Lemma playing_tick_sets_cache (lower : str -> str) (env : tick_env)
    (song : SongData.t) (st0 st : loop_state) :
  current_song env = Some song ->
  tick lower env st0 = (Ok tt, st) ->
  last_was_playing st = Some true.
Proof.
  intros Hs Ht. unfold tick in Ht. rewrite Hs in Ht.
  apply bindM_Ok in Ht. destruct Ht as (? & s1 & _ & Ht).
  apply bindM_Ok in Ht. destruct Ht as (u & s2 & _ & Ht).
  apply bindM_Ok in Ht. destruct Ht as (ts & s3 & _ & Ht).
  apply bindM_Ok in Ht. destruct Ht as (? & s4 & _ & Ht).
  unfold set_last_was_playing in Ht. inversion Ht. reflexivity.
Qed.

(** C4: after a turn that found a song playing, the first turn that finds
    nothing playing calls [set_activity(None)] once, and the turns that find
    nothing playing after it call nothing; in any state, a turn that finds
    nothing playing clears only when the cache is not false. *)
Theorem clear_once_after_playing (lower : str -> str)
    (env_play env1 : tick_env) (song : SongData.t) (st0 st : loop_state)
    (envs : list tick_env) :
  current_song env_play = Some song ->
  tick lower env_play st0 = (Ok tt, st) ->
  current_song env1 = None ->
  Forall (fun e => current_song e = None) envs ->
  fst (tick lower env1 st) = Ok tt
  /\ calls (snd (tick lower env1 st)) = calls st ++ [JNull]
  /\ fst (ticks lower envs (snd (tick lower env1 st))) = Ok tt
  /\ calls (snd (ticks lower envs (snd (tick lower env1 st))))
     = calls st ++ [JNull]
  /\ (forall env' st',
         current_song env' = None ->
         calls (snd (tick lower env' st')) <> calls st' ->
         last_was_playing st' <> Some false).
Proof.
  intros Hs Ht Hq Hqs.
  pose proof (playing_tick_sets_cache lower env_play song st0 st Hs Ht) as Hl.
  destruct (quiet_tick lower env1 st Hq) as (T1 & T2 & T3).
  rewrite Hl in T3.
  destruct (quiet_ticks lower envs (snd (tick lower env1 st)) Hqs T2)
    as (Q1 & _ & Q3).
  repeat split; try congruence.
  intros env' st' Hq' Hc Hf.
  destruct (quiet_tick lower env' st' Hq') as (_ & _ & T3').
  rewrite Hf, app_nil_r in T3'. congruence.
Qed.

Lemma clear_once_after_playing_witness :
  fst (tick (fun s => s) (env_quiet 101)
         (snd (tick (fun s => s) (env_playing 100) (loop_start idle_client))))
  = Ok tt
  /\ calls (snd (tick (fun s => s) (env_quiet 101)
                   (snd (tick (fun s => s) (env_playing 100)
                           (loop_start idle_client)))))
     = calls (snd (tick (fun s => s) (env_playing 100) (loop_start idle_client)))
       ++ [JNull]
  /\ fst (ticks (fun s => s) [env_quiet 102; env_quiet 103]
            (snd (tick (fun s => s) (env_quiet 101)
                    (snd (tick (fun s => s) (env_playing 100)
                            (loop_start idle_client))))))
     = Ok tt
  /\ calls (snd (ticks (fun s => s) [env_quiet 102; env_quiet 103]
                   (snd (tick (fun s => s) (env_quiet 101)
                           (snd (tick (fun s => s) (env_playing 100)
                                   (loop_start idle_client)))))))
     = calls (snd (tick (fun s => s) (env_playing 100) (loop_start idle_client)))
       ++ [JNull]
  /\ (forall env' st',
         current_song env' = None ->
         calls (snd (tick (fun s => s) env' st')) <> calls st' ->
         last_was_playing st' <> Some false).
Proof.
  apply (clear_once_after_playing (fun s => s) (env_playing 100) (env_quiet 101)
           song_a (loop_start idle_client)
           (snd (tick (fun s => s) (env_playing 100) (loop_start idle_client)))
           [env_quiet 102; env_quiet 103]).
  - reflexivity.
  - vm_compute. reflexivity.
  - reflexivity.
  - repeat constructor.
Defined.

(** C5: on the first turn of the loop, when nothing is playing,
    [set_activity(None)] is called: the cache starts at None, which is not
    false. *)
Theorem first_tick_clears (lower : str -> str) (d : DiscordRPC.t)
    (w : Web) (t : Z) (nonce : str) (pid : Z) :
  last_was_playing (loop_start d) = None
  /\ fst (tick lower (mk_env None w t nonce pid) (loop_start d)) = Ok tt
  /\ calls (snd (tick lower (mk_env None w t nonce pid) (loop_start d))) = [JNull]
  /\ last_was_playing (snd (tick lower (mk_env None w t nonce pid) (loop_start d)))
     = Some false.
Proof.
  destruct (quiet_tick lower (mk_env None w t nonce pid) (loop_start d) eq_refl)
    as (T1 & T2 & T3).
  repeat split; assumption.
Qed.

(** ** The timestamps of the activity *)

Lemma timestamps_floor (t : Z) (ti ar al : str) (d p : float)
    (u : option str) (song : SongData.t) :
  float_valid d = true -> float_valid p = true ->
  SongData.__init__ ti ar al d p u = Ok song ->
  match float_floor (SongData.position song),
        float_floor (float_sub (SongData.duration song) (SongData.position song))
  with
  | Some a, Some b => timestamps t song = Ok (t - a, t + b)
  | _, _ => exists e, timestamps t song = Raise e
  end.
Proof.
  intros Vd Vp Hi.
  destruct (validated_floats ti ar al d p u song Vd Vp Hi) as [S1 S2].
  apply int_of_float_floor in S1. apply int_of_float_floor in S2.
  unfold timestamps.
  destruct (float_floor (SongData.position song)) as [a|].
  - rewrite S1. cbn [bind].
    destruct (float_floor (float_sub _ _)) as [b|].
    + rewrite S2. reflexivity.
    + destruct S2 as [e S2]. rewrite S2. eexists; reflexivity.
  - destruct S1 as [e S1]. rewrite S1. eexists; reflexivity.
Qed.

Lemma activity_timestamps (song : SongData.t) (a b : Z) (link : str)
    (assets : json) (c : bool) :
  dict_get (if c then dict_set (activity_of song a b link) (lit "assets") assets
            else activity_of song a b link) (lit "timestamps")
  = Some (JObj [(lit "start", JInt a); (lit "end", JInt b)]).
Proof. destruct c; reflexivity. Qed.

(** C9: for a snapshot that passed the validation, processed at the time
    [now], whose position and difference of duration and position have a
    floor (they are finite), the timestamps of the activity are
    [now - floor(position)] and [now + floor(duration - position)], and the
    turn of the loop passes them to [set_activity]; when one of the two has
    no floor the turn raises.  With a duration of 200.0 and a position of
    50.0 they are [now - 50] and [now + 150]. *)
Theorem timestamps_are_floors (lower : str -> str) (env : tick_env)
    (st : loop_state) (ti ar al : str) (d p : float) (u : option str)
    (song : SongData.t) :
  float_valid d = true -> float_valid p = true ->
  SongData.__init__ ti ar al d p u = Ok song ->
  current_song env = Some song ->
  match float_floor (SongData.position song),
        float_floor (float_sub (SongData.duration song) (SongData.position song))
  with
  | Some a, Some b =>
      timestamps (now env) song = Ok (now env - a, now env + b)
      /\ (forall link, display_url lower env song = Ok link ->
          exists act st',
            tick lower env st = (Ok tt, st')
            /\ calls st' = calls st ++ [JObj act]
            /\ dict_get act (lit "timestamps")
               = Some (JObj [(lit "start", JInt (now env - a));
                             (lit "end", JInt (now env + b))]))
  | _, _ => exists e, fst (tick lower env st) = Raise e
  end
  /\ (forall t, timestamps t song_a = Ok (t - 50, t + 150)).
Proof.
  intros Vd Vp Hi Hs.
  pose proof (timestamps_floor (now env) ti ar al d p u song Vd Vp Hi) as Ht.
  split.
  - assert (Hraise : (exists e, timestamps (now env) song = Raise e) ->
                     exists e, fst (tick lower env st) = Raise e).
    { intros [e He]. unfold tick. rewrite Hs. unfold bindM at 1.
      match goal with |- context [if ?c then _ else _] => destruct c end;
        unfold bindM, lift; destruct (display_url lower env song);
        try (eexists; reflexivity); rewrite He; eexists; reflexivity. }
    destruct (float_floor (SongData.position song)) as [a|]; [|auto].
    destruct (float_floor (float_sub _ _)) as [b|]; [|auto].
    split; [exact Ht|].
    intros link Hl. unfold tick. rewrite Hs. unfold bindM at 1.
    match goal with |- context [if ?c then _ else _] => destruct c end;
      unfold bindM, lift; rewrite Hl, Ht; cbn [fst snd];
      match goal with
      | |- context [call_set_activity env (JObj ?act) ?s] =>
          destruct (call_set_activity_spec env (JObj act) s) as [dd Hc];
          rewrite Hc; exists act; eexists; split; [reflexivity|];
          split; [reflexivity | apply activity_timestamps]
      end.
  - intros t. unfold timestamps.
    replace (int_of_float (SongData.position song_a)) with (@Ok Z 50)
      by (vm_compute; reflexivity).
    replace (int_of_float (float_sub (SongData.duration song_a)
                                     (SongData.position song_a)))
      with (@Ok Z 150) by (vm_compute; reflexivity).
    reflexivity.
Qed.

Lemma timestamps_are_floors_witness :
  (timestamps 1700000000 song_a = Ok (1700000000 - 50, 1700000000 + 150)
   /\ (forall link, display_url (fun s => s) (env_playing 1700000000) song_a = Ok link ->
       exists act st',
         tick (fun s => s) (env_playing 1700000000) (loop_start idle_client)
         = (Ok tt, st')
         /\ calls st' = calls (loop_start idle_client) ++ [JObj act]
         /\ dict_get act (lit "timestamps")
            = Some (JObj [(lit "start", JInt (1700000000 - 50));
                          (lit "end", JInt (1700000000 + 150))])))
  /\ (forall t, timestamps t song_a = Ok (t - 50, t + 150)).
Proof.
  exact (timestamps_are_floors (fun s => s) (env_playing 1700000000)
           (loop_start idle_client)
           (lit "Song A") (lit "Artist B") (lit "Album C")
           (float_of_Z 200) (float_of_Z 50) None song_a
           eq_refl eq_refl eq_refl eq_refl).
Defined.

Example display_url_offline :
  display_url (fun s => s) (env_playing 1700000000) song_a
  = Ok (lit "https://music.apple.com/search?term=Artist%20B%20Song%20A").
Proof. vm_compute. reflexivity. Qed.

(** ** connect: the candidates in their order *)

Lemma drop_socket_spec (self : DiscordRPC.t) :
  exists self', DiscordRPC.drop_socket self = (Ok tt, self')
                /\ DiscordRPC.connected self' = DiscordRPC.connected self
                /\ DiscordRPC.client_id self' = DiscordRPC.client_id self.
Proof.
  unfold DiscordRPC.drop_socket. destruct (DiscordRPC.sock self);
    eexists; repeat split.
Qed.

(** One turn of the loop, from a client that is not connected. *)
Lemma connect_turn_spec (os : OS) (tmpdir : str) (i : Z) (self : DiscordRPC.t) :
  DiscordRPC.connected self = false ->
  exists self',
    DiscordRPC.client_id self' = DiscordRPC.client_id self
    /\ if greets os (DiscordRPC.client_id self) (DiscordRPC.socket_path tmpdir i)
       then DiscordRPC.connect_turn os tmpdir i self
            = (Ok (DiscordRPC.Return true), self')
            /\ DiscordRPC.connected self' = true
            /\ option_map peer (DiscordRPC.sock self')
               = Some (Some (DiscordRPC.socket_path tmpdir i))
       else DiscordRPC.connect_turn os tmpdir i self = (Ok DiscordRPC.Continue, self')
            /\ DiscordRPC.connected self' = false.
Proof.
  intros Hc.
  set (path := DiscordRPC.socket_path tmpdir i).
  set (cid := DiscordRPC.client_id self).
  assert (Hturn : DiscordRPC.connect_turn os tmpdir i self
    = let handlers (r : result DiscordRPC.turn * DiscordRPC.t) :=
          match r with
          | (Ok a, s') => (Ok a, s')
          | (Raise e, s') =>
              (Ok DiscordRPC.Continue,
               match DiscordRPC.sock s' with
               | Some _ => DiscordRPC.mk (DiscordRPC.client_id s') None
                             (DiscordRPC.connected s')
               | None => s'
               end)
          end in
      if path_exists os path then
        match accept os path with
        | None => (Ok DiscordRPC.Continue, DiscordRPC.mk cid None false)
        | Some s =>
            let c0 := DiscordRPC.mk cid
                        (Some (mk_socket (Some path) (rx s) (rx_plan s) (tx s)
                                 (tx_plan s))) false in
            match DiscordRPC._send_packet 0 (DiscordRPC.handshake cid) c0 with
            | (Raise e, c1) => handlers (Raise e, c1)
            | (Ok _, c1) =>
                match DiscordRPC._read_packet c1 with
                | (Raise e, c2) => handlers (Raise e, c2)
                | (Ok pr, c2) =>
                    if truthy (snd pr) then
                      match py_get (snd pr) (lit "evt") JNull with
                      | Raise e => handlers (Raise e, c2)
                      | Ok evt =>
                          if eq_str evt (lit "READY")
                          then (Ok (DiscordRPC.Return true),
                                DiscordRPC.mk (DiscordRPC.client_id c2)
                                  (DiscordRPC.sock c2) true)
                          else (Ok DiscordRPC.Continue, c2)
                      end
                    else (Ok DiscordRPC.Continue, c2)
                end
            end
        end
      else (Ok DiscordRPC.Continue, self)).
  { unfold DiscordRPC.connect_turn, try_except. fold path.
    destruct (path_exists os path); cbn [negb]; [|reflexivity].
    unfold bindM at 1. cbn [DiscordRPC.set_sock].
    unfold bindM at 1. unfold DiscordRPC.sock_connect.
    cbn [DiscordRPC.sock DiscordRPC.client_id DiscordRPC.connected].
    fold cid. rewrite Hc.
    destruct (accept os path) as [s|]; [|reflexivity].
    unfold bindM at 1. cbn [DiscordRPC.client_id].
    destruct (DiscordRPC._send_packet 0 _ _) as [[[]|e1] c1].
    2:{ destruct (match e1 with JSONDecodeError | struct_error => true | _ => is_OSError e1 end);
        unfold bindM, DiscordRPC.drop_socket; destruct (DiscordRPC.sock c1); reflexivity. }
    unfold bindM at 1.
    destruct (DiscordRPC._read_packet c1) as [[pr|e2] c2].
    2:{ destruct (match e2 with JSONDecodeError | struct_error => true | _ => is_OSError e2 end);
        unfold bindM, DiscordRPC.drop_socket; destruct (DiscordRPC.sock c2); reflexivity. }
    destruct (truthy (snd pr)); [|reflexivity].
    unfold bindM at 1. unfold lift.
    destruct (py_get (snd pr) (lit "evt") JNull) as [evt|e3].
    2:{ destruct (match e3 with JSONDecodeError | struct_error => true | _ => is_OSError e3 end);
        unfold bindM, DiscordRPC.drop_socket; destruct (DiscordRPC.sock c2); reflexivity. }
    destruct (eq_str evt (lit "READY")); reflexivity. }
  rewrite Hturn. clear Hturn. unfold greets. fold path cid. cbv zeta.
  destruct (path_exists os path); cbn [andb].
  2:{ exists self. auto. }
  destruct (accept os path) as [s|].
  2:{ eexists. split; [|split; reflexivity]. reflexivity. }
  set (c0 := DiscordRPC.mk cid _ false).
  pose proof (keeps_send_packet 0 (DiscordRPC.handshake cid) c0) as K1.
  destruct (DiscordRPC._send_packet 0 (DiscordRPC.handshake cid) c0)
    as [[[]|e1] c1]; cbn [snd] in K1; destruct K1 as (I1 & C1 & P1);
    cbn in I1, C1, P1.
  2:{ eexists. split; [|split; [reflexivity|]];
        destruct (DiscordRPC.sock c1); cbn; congruence. }
  pose proof (keeps_read_packet c1) as K2.
  destruct (DiscordRPC._read_packet c1) as [[[op response]|e2] c2];
    cbn [snd] in K2; destruct K2 as (I2 & C2 & P2).
  2:{ eexists. split; [|split; [reflexivity|]];
        destruct (DiscordRPC.sock c2); cbn; congruence. }
  cbn [snd].
  destruct (truthy response); cbn [andb].
  2:{ exists c2. split; [congruence|]. split; [reflexivity | congruence]. }
  destruct (py_get response (lit "evt") JNull) as [evt|e3].
  2:{ eexists. split; [|split; [reflexivity|]];
        destruct (DiscordRPC.sock c2); cbn; congruence. }
  destruct (eq_str evt (lit "READY")).
  - eexists. split; [|split; [reflexivity|split; [reflexivity|]]]; cbn; congruence.
  - exists c2. split; [congruence|]. split; [reflexivity | congruence].
Qed.

Lemma connect_loop_spec (os : OS) (tmpdir : str) (range : list Z)
    (self : DiscordRPC.t) :
  DiscordRPC.connected self = false ->
  match find (fun i => greets os (DiscordRPC.client_id self)
                         (DiscordRPC.socket_path tmpdir i)) range with
  | Some k =>
      exists self',
        DiscordRPC.connect_loop os tmpdir range self = (Ok true, self')
        /\ DiscordRPC.connected self' = true
        /\ option_map peer (DiscordRPC.sock self')
           = Some (Some (DiscordRPC.socket_path tmpdir k))
  | None =>
      exists self',
        DiscordRPC.connect_loop os tmpdir range self = (Ok false, self')
        /\ DiscordRPC.connected self' = false
  end.
Proof.
  revert self. induction range as [|i rest IH]; intros self Hc.
  - simpl. exists self. auto.
  - cbn [find DiscordRPC.connect_loop]. unfold bindM.
    destruct (connect_turn_spec os tmpdir i self Hc) as (self1 & Hid & Ht).
    destruct (greets os (DiscordRPC.client_id self) (DiscordRPC.socket_path tmpdir i)).
    + destruct Ht as (T & C & P). rewrite T. exists self1. auto.
    + destruct Ht as (T & C). rewrite T.
      specialize (IH self1 C). rewrite Hid in IH. exact IH.
Qed.

(** C2: from a client that is not connected, [connect] never raises.  When
    the runtime directory does not exist it returns false and changes
    nothing.  Otherwise it returns true, connected to the first of
    discord-ipc-0 ... discord-ipc-9, in this order, that greets the client,
    and false, still not connected, when none of the ten does; a path that
    does not exist is passed over with no socket opened. *)
Theorem connect_first_ready (os : OS) (self : DiscordRPC.t) :
  DiscordRPC.connected self = false ->
  (if path_exists os (DiscordRPC.tmpdir_of os) then
     match find (fun i => greets os (DiscordRPC.client_id self)
                            (DiscordRPC.socket_path (DiscordRPC.tmpdir_of os) i))
                [0; 1; 2; 3; 4; 5; 6; 7; 8; 9] with
     | Some k =>
         exists self',
           DiscordRPC.connect os self = (Ok true, self')
           /\ DiscordRPC.connected self' = true
           /\ option_map peer (DiscordRPC.sock self')
              = Some (Some (DiscordRPC.socket_path (DiscordRPC.tmpdir_of os) k))
     | None =>
         exists self',
           DiscordRPC.connect os self = (Ok false, self')
           /\ DiscordRPC.connected self' = false
     end
   else DiscordRPC.connect os self = (Ok false, self))
  /\ (forall i self0,
         path_exists os (DiscordRPC.socket_path (DiscordRPC.tmpdir_of os) i) = false ->
         DiscordRPC.connect_turn os (DiscordRPC.tmpdir_of os) i self0
         = (Ok DiscordRPC.Continue, self0)).
Proof.
  intros Hc. split.
  - unfold DiscordRPC.connect. rewrite Hc.
    destruct (path_exists os (DiscordRPC.tmpdir_of os)); cbn [negb]; [|reflexivity].
    apply (connect_loop_spec os (DiscordRPC.tmpdir_of os) DiscordRPC.range10 self Hc).
  - intros i self0 He. unfold DiscordRPC.connect_turn, try_except.
    rewrite He. reflexivity.
Qed.

Lemma connect_first_ready_witness :
  (exists self',
      DiscordRPC.connect os_example fresh_client = (Ok true, self')
      /\ DiscordRPC.connected self' = true
      /\ option_map peer (DiscordRPC.sock self')
         = Some (Some (lit "/tmp/discord-ipc-2")))
  /\ (forall i self0,
         path_exists os_example
           (DiscordRPC.socket_path (DiscordRPC.tmpdir_of os_example) i) = false ->
         DiscordRPC.connect_turn os_example (DiscordRPC.tmpdir_of os_example) i self0
         = (Ok DiscordRPC.Continue, self0)).
Proof.
  exact (connect_first_ready os_example fresh_client eq_refl).
Defined.

Example connect_no_runtime_directory :
  DiscordRPC.connect (mk_os None (fun _ => false) (fun _ => None)) fresh_client
  = (Ok false, fresh_client).
Proof. reflexivity. Qed.

Example connect_no_candidate :
  DiscordRPC.connect (mk_os None (fun p => str_eqb p (lit "/tmp/")) (fun _ => None))
    fresh_client
  = (Ok false, fresh_client).
Proof. vm_compute. reflexivity. Qed.

(** ** get_apple_music_url *)

Lemma utf8_encode_cp_valid (c : Z) :
  valid_cp c -> exists b, utf8_encode_cp c = Ok b.
Proof.
  intros [R S]. unfold utf8_encode_cp. rewrite S.
  destruct (c <? 0) eqn:E0; [apply Z.ltb_lt in E0; lia|].
  destruct (c <? 128); [eexists; reflexivity|].
  destruct (c <? 2048); [eexists; reflexivity|].
  destruct (c <? 65536); [eexists; reflexivity|].
  destruct (c <? 1114112) eqn:E; [eexists; reflexivity|].
  apply Z.ltb_ge in E. lia.
Qed.

Lemma utf8_encode_valid (s : str) :
  valid_text s -> exists b, utf8_encode s = Ok b.
Proof.
  induction 1 as [|c r Hc _ IH]; simpl.
  - eexists; reflexivity.
  - destruct (utf8_encode_cp_valid c Hc) as [x Hx]. destruct IH as [y Hy].
    rewrite Hx, Hy. eexists; reflexivity.
Qed.

Lemma lstrip_valid (s : str) : valid_text s -> valid_text (lstrip s).
Proof.
  induction 1 as [|c r Hc Hr IH]; simpl; [constructor|].
  destruct (isspace c); [exact IH | constructor; assumption].
Qed.

Lemma strip_valid (s : str) : valid_text s -> valid_text (strip s).
Proof.
  intros H. unfold strip, rstrip, valid_text.
  apply Forall_rev. apply lstrip_valid. apply Forall_rev.
  apply lstrip_valid. exact H.
Qed.

Lemma lstrip_nil (s : str) :
  lstrip s = [] -> forallb isspace s = true.
Proof.
  induction s as [|c r IH]; simpl; [reflexivity|].
  destruct (isspace c); [exact IH | discriminate].
Qed.

Lemma lstrip_head (s : str) (c : Z) (r : str) :
  lstrip s = c :: r -> isspace c = false.
Proof.
  induction s as [|x s IH]; simpl; [discriminate|].
  destruct (isspace x) eqn:E; [exact IH|].
  intros H. inversion H. subst. exact E.
Qed.

Lemma forallb_rev_true {A : Type} (f : A -> bool) (l : list A) :
  forallb f (rev l) = true -> forallb f l = true.
Proof.
  rewrite !forallb_forall. intros H x Hx. apply H. apply -> in_rev. exact Hx.
Qed.

Lemma strip_nil (s : str) : strip s = [] -> forallb isspace s = true.
Proof.
  unfold strip, rstrip. intros H.
  assert (H1 : lstrip (rev (lstrip s)) = []).
  { destruct (lstrip (rev (lstrip s))) as [|c l]; [reflexivity|].
    simpl in H. destruct (rev l); discriminate. }
  apply lstrip_nil in H1. apply forallb_rev_true in H1.
  destruct (lstrip s) as [|c r] eqn:E.
  - apply lstrip_nil. exact E.
  - apply lstrip_head in E. simpl in H1. rewrite E in H1. discriminate.
Qed.

(** A text and another joined by a space strip to nothing only when both
    are blank. *)
Lemma strip_joined_nil (a b : str) :
  strip (a ++ 32 :: b) = [] -> strip a = [] /\ strip b = [].
Proof.
  intros H. apply strip_nil in H. rewrite forallb_app in H.
  apply andb_prop in H. destruct H as [Ha Hb]. simpl in Hb.
  split; apply strip_all_space; assumption.
Qed.

Lemma joined_not_blank (a b x y : str) :
  str_is_empty (strip a) && str_is_empty (strip b) = false ->
  (x = a /\ y = b) \/ (x = b /\ y = a) ->
  str_is_empty (strip (x ++ 32 :: y)) = false.
Proof.
  intros H Hxy. destruct (strip (x ++ 32 :: y)) eqn:E; [|reflexivity].
  apply strip_joined_nil in E. destruct E as [E1 E2].
  destruct Hxy as [[-> ->]|[-> ->]]; rewrite E1, E2 in H; discriminate.
Qed.

Lemma quote_valid (s : str) : valid_text s -> exists q, quote s = Ok q.
Proof.
  intros H. unfold quote. destruct (utf8_encode_valid s H) as [b Hb].
  rewrite Hb. eexists; reflexivity.
Qed.

Lemma replace_domain_nonempty (c : Z) (u : str) :
  replace (lit "itunes.apple.com") (lit "music.apple.com") (c :: u) <> [].
Proof.
  unfold replace. cbn [replace_from].
  destruct (strip_prefix _ _); [|discriminate].
  unfold lit. simpl. discriminate.
Qed.

Lemma scan_result_nonempty (lower : str -> str) (artist title : str) (r : json)
    (link : str) :
  scan_result lower artist title r = Ok (Some link) -> link <> [].
Proof.
  unfold scan_result.
  destruct (py_get r (lit "artistName") (JStr [])) as [ra|]; [|discriminate].
  cbn [bind]. destruct (py_lower lower ra); [|discriminate].
  cbn [bind]. destruct (py_get r (lit "trackName") (JStr [])) as [rt|]; [|discriminate].
  cbn [bind]. destruct (py_lower lower rt); [|discriminate].
  cbn [bind]. destruct (result_matches _ _ _ _ _); [|discriminate].
  destruct (py_get r (lit "trackViewUrl") JNull) as [tv|]; [|discriminate].
  cbn [bind]. destruct tv as [| | | |[|c u]| |]; try discriminate.
  intros H. inversion H. apply replace_domain_nonempty.
Qed.

Lemma scan_results_nonempty (lower : str -> str) (artist title : str)
    (items : list json) (link : str) :
  scan_results lower artist title items = Ok (Some link) -> link <> [].
Proof.
  induction items as [|r rest IH]; simpl; [discriminate|].
  destruct (scan_result lower artist title r) as [[l|]|] eqn:E; cbn [bind];
    [|exact IH|discriminate].
  intros H. inversion H. subst l.
  eapply scan_result_nonempty; eassumption.
Qed.

Lemma scan_results_skip (lower : str -> str) (artist title : str)
    (pre rest : list json) :
  Forall (fun x => scan_result lower artist title x = Ok None) pre ->
  scan_results lower artist title (pre ++ rest)
  = scan_results lower artist title rest.
Proof.
  induction 1 as [|x pre Hx _ IH]; simpl; [reflexivity|].
  rewrite Hx. exact IH.
Qed.

Lemma fallback_url_nonempty (artist title : str) :
  fallback_url artist title <> Ok [].
Proof.
  unfold fallback_url.
  destruct (str_is_empty _); [unfold lit; simpl; discriminate|].
  destruct (quote _); cbn [bind]; [|discriminate].
  unfold lit. simpl. discriminate.
Qed.

Lemma fallback_url_valid (artist title : str) :
  valid_text artist -> valid_text title ->
  exists link, fallback_url artist title = Ok link.
Proof.
  intros Ha Ht. unfold fallback_url.
  destruct (str_is_empty _); [eexists; reflexivity|].
  destruct (quote_valid (strip (artist ++ 32 :: title))) as [q Hq].
  { apply strip_valid. apply Forall_app. split; [exact Ha|].
    constructor; [|exact Ht]. split; [lia | reflexivity]. }
  rewrite Hq. eexists; reflexivity.
Qed.

Lemma usable_match_hit (lower : str -> str) (artist title : str)
    (r : json) (u : str) :
  usable_match lower artist title r u ->
  scan_result lower artist title r
  = Ok (Some (replace (lit "itunes.apple.com") (lit "music.apple.com") u)).
Proof.
  intros (d & ra & rt & -> & Ha & Ht & Hm & Hu & Hn).
  unfold scan_result, py_get. rewrite Ha, Ht, Hu. cbn [bind py_lower].
  rewrite Hm. destruct u; [congruence | reflexivity].
Qed.

(** What the function does once the search has answered with a list. *)
Lemma get_apple_music_url_answered (lower : str -> str) (web : Web)
    (artist title album q : str) (raw : bytes) (text : str) (data : json)
    (items : list json) :
  str_is_empty (strip artist) && str_is_empty (strip title) = false ->
  quote (strip (title ++ 32 :: artist)) = Ok q ->
  web (search_url q) = http_response 200 (Ok raw) ->
  utf8_decode raw = Ok text ->
  json_loads text = Ok data ->
  py_get data (lit "results") JNull = Ok (JArr items) ->
  get_apple_music_url lower web artist title album
  = match scan_results lower artist title items with
    | Ok (Some u) => Ok u
    | _ => fallback_url artist title
    end.
Proof.
  intros Hb Hq Hw Hd Hj Hr.
  unfold get_apple_music_url. rewrite Hb.
  rewrite (joined_not_blank artist title title artist Hb) by auto.
  rewrite Hq. cbn [bind]. rewrite Hw. cbn [Z.eqb Pos.eqb negb bind].
  rewrite Hd. cbn [bind]. rewrite Hj. cbn [bind]. rewrite Hr. cbn [bind].
  destruct items as [|x items]; reflexivity.
Qed.

Lemma get_apple_music_url_nonempty (lower : str -> str) (web : Web)
    (artist title album : str) :
  get_apple_music_url lower web artist title album <> Ok [].
Proof.
  unfold get_apple_music_url.
  destruct (str_is_empty (strip artist) && str_is_empty (strip title));
    [unfold lit; simpl; discriminate|].
  destruct (str_is_empty (strip (title ++ 32 :: artist)));
    [unfold lit; simpl; discriminate|].
  destruct (quote _) as [q|]; cbn [bind]; [|apply fallback_url_nonempty].
  destruct (web (search_url q)) as [e|status body]; [apply fallback_url_nonempty|].
  destruct (negb (status =? 200)); [apply fallback_url_nonempty|].
  destruct body as [raw|]; cbn [bind]; [|apply fallback_url_nonempty].
  destruct (utf8_decode raw) as [text|]; cbn [bind]; [|apply fallback_url_nonempty].
  destruct (json_loads text) as [data|]; cbn [bind]; [|apply fallback_url_nonempty].
  destruct (py_get data (lit "results") JNull) as [results|]; cbn [bind];
    [|apply fallback_url_nonempty].
  destruct (truthy results); [|apply fallback_url_nonempty].
  destruct (py_iter results) as [items|]; cbn [bind]; [|apply fallback_url_nonempty].
  destruct (scan_results lower artist title items) as [[u|]|] eqn:E;
    try apply fallback_url_nonempty.
  apply scan_results_nonempty in E. congruence.
Qed.

Lemma get_apple_music_url_returns (lower : str -> str) (web : Web)
    (artist title album : str) :
  valid_text artist -> valid_text title ->
  exists link, get_apple_music_url lower web artist title album = Ok link.
Proof.
  intros Ha Ht. unfold get_apple_music_url.
  pose proof (fallback_url_valid artist title Ha Ht) as F.
  destruct (str_is_empty (strip artist) && str_is_empty (strip title));
    [eexists; reflexivity|].
  destruct (str_is_empty (strip (title ++ 32 :: artist))); [eexists; reflexivity|].
  destruct (quote _) as [q|]; cbn [bind]; [|exact F].
  destruct (web (search_url q)) as [e|status body]; [exact F|].
  destruct (negb (status =? 200)); [exact F|].
  destruct body as [raw|]; cbn [bind]; [|exact F].
  destruct (utf8_decode raw) as [text|]; cbn [bind]; [|exact F].
  destruct (json_loads text) as [data|]; cbn [bind]; [|exact F].
  destruct (py_get data (lit "results") JNull) as [results|]; cbn [bind]; [|exact F].
  destruct (truthy results); [|exact F].
  destruct (py_iter results) as [items|]; cbn [bind]; [|exact F].
  destruct (scan_results lower artist title items) as [[u|]|]; try exact F.
  eexists; reflexivity.
Qed.

Lemma scan_results_raise (lower : str -> str) (artist title : str)
    (pre : list json) (r : json) (post : list json) (e : exn) :
  Forall (fun x => scan_result lower artist title x = Ok None) pre ->
  scan_result lower artist title r = Raise e ->
  scan_results lower artist title (pre ++ r :: post) = Raise e.
Proof.
  intros Hpre Hr. rewrite scan_results_skip by exact Hpre.
  cbn [scan_results]. rewrite Hr. reflexivity.
Qed.

Lemma scan_result_no_dict (lower : str -> str) (artist title : str) (r : json) :
  (forall d, r <> JObj d) ->
  scan_result lower artist title r = Raise AttributeError.
Proof.
  intros H. destruct r; try reflexivity. exfalso. eapply H. reflexivity.
Qed.

Lemma scan_result_no_text (lower : str -> str) (artist title : str)
    (d : list (str * json)) (x : json) :
  (forall s, x <> JStr s) ->
  dict_get d (lit "artistName") = Some x
  \/ ((dict_get d (lit "artistName") = None
       \/ exists s, dict_get d (lit "artistName") = Some (JStr s))
      /\ dict_get d (lit "trackName") = Some x) ->
  scan_result lower artist title (JObj d) = Raise AttributeError.
Proof.
  intros Hx H. unfold scan_result, py_get.
  assert (Hlow : py_lower lower x = Raise AttributeError).
  { destruct x; try reflexivity. exfalso. eapply Hx. reflexivity. }
  destruct H as [Ha|[Ha Ht]].
  - rewrite Ha. cbn [bind]. rewrite Hlow. reflexivity.
  - rewrite Ht.
    destruct Ha as [Ha|[s Ha]]; rewrite Ha; cbn [bind py_lower];
      rewrite Hlow; reflexivity.
Qed.

Lemma scan_result_named (lower : str -> str) (artist title : str)
    (d : list (str * json)) (ra rt : str) :
  name_of d (lit "artistName") = Some ra ->
  name_of d (lit "trackName") = Some rt ->
  scan_result lower artist title (JObj d)
  = if result_matches lower artist title (lower ra) (lower rt) then
      match dict_get d (lit "trackViewUrl") with
      | Some (JStr (c :: u)) =>
          Ok (Some (replace (lit "itunes.apple.com") (lit "music.apple.com")
                      (c :: u)))
      | _ => Ok None
      end
    else Ok None.
Proof.
  unfold name_of, scan_result, py_get. intros Ha Ht.
  assert (A : py_lower lower match dict_get d (lit "artistName") with
                             | Some x => x | None => JStr [] end
              = Ok (lower ra)).
  { destruct (dict_get d (lit "artistName")) as [[| | | |s| |]|];
      try discriminate; inversion Ha; reflexivity. }
  assert (T : py_lower lower match dict_get d (lit "trackName") with
                             | Some x => x | None => JStr [] end
              = Ok (lower rt)).
  { destruct (dict_get d (lit "trackName")) as [[| | | |s| |]|];
      try discriminate; inversion Ht; reflexivity. }
  cbn [bind]. rewrite A. cbn [bind]. rewrite T. cbn [bind].
  destruct (result_matches lower artist title (lower ra) (lower rt));
    [|reflexivity].
  destruct (dict_get d (lit "trackViewUrl")) as [[| | | |[|c u]| |]|];
    reflexivity.
Qed.

(** C10, as the code has it.  When the search answers with status 200 and a
    body that parses to a dict whose results are a list, the function goes
    through the results in their order.  It passes over a result on which
    the body of its loop completes without a return: on a dict whose
    artist name and track name are text (the empty text when missing), when
    the names do not match, or when the link is missing, empty or no text.  It returns the link,
    with itunes.apple.com replaced by music.apple.com, of the first result
    that matches and carries a link that is text and not empty, when all
    the results before it are passed over.  When the body of the loop raises
    on a result before any such return, the search ends there and the
    function returns the fallback link, whatever comes after; it raises on
    a result that is no dict, and on a dict whose artist name or track name
    is there and is no text (null, a number).  When every result is passed
    over it returns the fallback link too, built from the artist followed
    by the title.  It never returns the empty string, and on text that has
    a UTF-8 form it returns a link. *)
Theorem canonical_url_first_usable (lower : str -> str) (web : Web)
    (artist title album q : str) (raw : bytes) (text : str) (data : json)
    (items : list json) :
  str_is_empty (strip artist) && str_is_empty (strip title) = false ->
  quote (strip (title ++ 32 :: artist)) = Ok q ->
  web (search_url q) = http_response 200 (Ok raw) ->
  utf8_decode raw = Ok text ->
  json_loads text = Ok data ->
  py_get data (lit "results") JNull = Ok (JArr items) ->
  (forall pre r post u,
      items = pre ++ r :: post ->
      Forall (fun x => scan_result lower artist title x = Ok None) pre ->
      usable_match lower artist title r u ->
      get_apple_music_url lower web artist title album
      = Ok (replace (lit "itunes.apple.com") (lit "music.apple.com") u))
  /\ (Forall (fun x => scan_result lower artist title x = Ok None) items ->
      get_apple_music_url lower web artist title album
      = fallback_url artist title
      /\ fallback_url artist title
         = (e <- quote (strip (artist ++ 32 :: title)) ;;
            Ok (lit "https://music.apple.com/search?term=" ++ e)))
  /\ (forall web' artist' title' album',
         get_apple_music_url lower web' artist' title' album' <> Ok []
         /\ (valid_text artist' -> valid_text title' ->
             exists link,
               get_apple_music_url lower web' artist' title' album' = Ok link))
  /\ (forall pre r post e,
         items = pre ++ r :: post ->
         Forall (fun x => scan_result lower artist title x = Ok None) pre ->
         scan_result lower artist title r = Raise e ->
         get_apple_music_url lower web artist title album
         = fallback_url artist title)
  /\ (forall r, (forall d, r <> JObj d) ->
                scan_result lower artist title r = Raise AttributeError)
  /\ (forall d x,
         (forall s, x <> JStr s) ->
         dict_get d (lit "artistName") = Some x
         \/ ((dict_get d (lit "artistName") = None
              \/ exists s, dict_get d (lit "artistName") = Some (JStr s))
             /\ dict_get d (lit "trackName") = Some x) ->
         scan_result lower artist title (JObj d) = Raise AttributeError)
  /\ (forall d ra rt,
         name_of d (lit "artistName") = Some ra ->
         name_of d (lit "trackName") = Some rt ->
         scan_result lower artist title (JObj d)
         = if result_matches lower artist title (lower ra) (lower rt) then
             match dict_get d (lit "trackViewUrl") with
             | Some (JStr (c :: u)) =>
                 Ok (Some (replace (lit "itunes.apple.com")
                             (lit "music.apple.com") (c :: u)))
             | _ => Ok None
             end
           else Ok None).
Proof.
  intros Hb Hq Hw Hd Hj Hr.
  pose proof (get_apple_music_url_answered lower web artist title album q raw
                text data items Hb Hq Hw Hd Hj Hr) as Hbody.
  split; [|split; [|split; [|split; [|split; [|split]]]]].
  - intros pre r post u -> Hpre Hu. rewrite Hbody.
    rewrite scan_results_skip by exact Hpre. cbn [scan_results].
    rewrite (usable_match_hit lower artist title r u Hu). reflexivity.
  - intros Hall. split.
    + rewrite Hbody. rewrite <- (app_nil_r items).
      rewrite scan_results_skip by exact Hall. reflexivity.
    + unfold fallback_url.
      rewrite (joined_not_blank artist title artist title Hb) by auto.
      reflexivity.
  - intros web' artist' title' album'. split.
    + apply get_apple_music_url_nonempty.
    + apply get_apple_music_url_returns.
  - intros pre r post e -> Hpre He. rewrite Hbody.
    rewrite (scan_results_raise lower artist title pre r post e Hpre He).
    reflexivity.
  - apply scan_result_no_dict.
  - apply scan_result_no_text.
  - apply scan_result_named.
Qed.

Lemma canonical_url_first_usable_witness :
  get_apple_music_url ascii_lower (web_answering (search_answer three_results))
    (lit "Artist B") (lit "Song A") (lit "Album C")
  = Ok (lit "https://music.apple.com/us/album/3").
Proof.
  refine (proj1 (canonical_url_first_usable ascii_lower
              (web_answering (search_answer three_results))
              (lit "Artist B") (lit "Song A") (lit "Album C")
              (lit "Song%20A%20Artist%20B")
              (match utf8_encode (json_dumps (search_answer three_results)) with
               | Ok b => b
               | Raise _ => []
               end)
              (json_dumps (search_answer three_results))
              (search_answer three_results) three_results _ _ _ _ _ _)
            [search_result "Other" "Song A" "https://itunes.apple.com/us/album/1";
             search_result "Artist B" "Else" "https://itunes.apple.com/us/album/2"]
            (search_result "ARTIST B" "Song A (Remastered)"
                           "https://itunes.apple.com/us/album/3")
            []
            (lit "https://itunes.apple.com/us/album/3") _ _ _).
  all: try (vm_compute; reflexivity).
  - repeat constructor.
  - exists [(lit "artistName", JStr (lit "ARTIST B"));
            (lit "trackName", JStr (lit "Song A (Remastered)"));
            (lit "trackViewUrl", JStr (lit "https://itunes.apple.com/us/album/3"))],
           (lit "ARTIST B"), (lit "Song A (Remastered)").
    repeat split; try reflexivity. vm_compute. discriminate.
Defined.

(** C10 as the specification states it fails three times.  The first
    result matches the artist and the title and its link is the empty text;
    the function returns the link of the second result.  With no result at
    all the fallback link is built from "Artist B Song A", where the query of
    the search was "Song A Artist B".  And when the first result has a null
    artist name, the second result, which matches and has a link, is never
    looked at: the function returns the fallback link. *)
Lemma canonical_url_counterexample :
  scan_result ascii_lower (lit "Artist B") (lit "Song A")
    (search_result "Artist B" "Song A" "") = Ok None
  /\ result_matches ascii_lower (lit "Artist B") (lit "Song A")
       (ascii_lower (lit "Artist B")) (ascii_lower (lit "Song A")) = true
  /\ get_apple_music_url ascii_lower
       (web_answering (search_answer linkless_then_linked))
       (lit "Artist B") (lit "Song A") (lit "Album C")
     = Ok (lit "https://music.apple.com/us/album/2")
  /\ quote (strip (lit "Song A" ++ 32 :: lit "Artist B"))
     = Ok (lit "Song%20A%20Artist%20B")
  /\ get_apple_music_url ascii_lower (web_answering (search_answer []))
       (lit "Artist B") (lit "Song A") (lit "Album C")
     = Ok (lit "https://music.apple.com/search?term=Artist%20B%20Song%20A")
  /\ scan_result ascii_lower (lit "Artist B") (lit "Song A")
       (search_result "Artist B" "Song A" "https://itunes.apple.com/us/album/2")
     = Ok (Some (lit "https://music.apple.com/us/album/2"))
  /\ get_apple_music_url ascii_lower
       (web_answering (search_answer null_artist_then_match))
       (lit "Artist B") (lit "Song A") (lit "Album C")
     = Ok (lit "https://music.apple.com/search?term=Artist%20B%20Song%20A").
Proof. repeat split; vm_compute; reflexivity. Qed.

(** ** The round trip of a packet *)

Lemma struct_pack_unpack_II (a b : Z) :
  0 <= a < 2 ^ 32 -> 0 <= b < 2 ^ 32 ->
  exists header,
    struct_pack_II a b = Ok header /\ List.length header = 8%nat
    /\ struct_unpack_II header = Ok (a, b).
Proof.
  intros Ha Hb.
  destruct (unpack_pack_u32 a Ha) as (a0 & a1 & a2 & a3 & Pa & Ua).
  destruct (unpack_pack_u32 b Hb) as (b0 & b1 & b2 & b3 & Pb & Ub).
  exists [a0; a1; a2; a3; b0; b1; b2; b3].
  unfold struct_pack_II. rewrite Pa, Pb. cbn [bind app].
  repeat split. cbn [struct_unpack_II]. rewrite Ua, Ub. reflexivity.
Qed.

Lemma firstn_exact {A : Type} (a b : list A) :
  firstn (List.length a) (a ++ b) = a.
Proof. rewrite firstn_app, Nat.sub_diag, firstn_all. cbn. apply app_nil_r. Qed.

Lemma skipn_exact {A : Type} (a b : list A) :
  skipn (List.length a) (a ++ b) = b.
Proof. rewrite skipn_app, Nat.sub_diag, skipn_all. reflexivity. Qed.

Lemma bindM_step {S A B : Type} (c : M S A) (k : A -> M S B) (s s' : S) (a : A) :
  c s = (Ok a, s') -> bindM c k s = k a s'.
Proof. intros H. unfold bindM. rewrite H. reflexivity. Qed.

(** [recv] on a stream that moves all the bytes asked for. *)
Lemma recv_exact (self : DiscordRPC.t) (s : Socket) (chunk rest : bytes) (n : Z) :
  DiscordRPC.sock self = Some s -> peer s <> None -> rx_plan s = [] ->
  rx s = chunk ++ rest -> Z.to_nat n = List.length chunk ->
  DiscordRPC.recv n self
  = (Ok chunk,
     DiscordRPC.mk (DiscordRPC.client_id self)
       (Some (mk_socket (peer s) rest [] (tx s) (tx_plan s)))
       (DiscordRPC.connected self)).
Proof.
  intros Hs Hp Hplan Hrx Hn. unfold DiscordRPC.recv. rewrite Hs.
  unfold sock_recv. destruct (peer s) as [p|]; [|congruence].
  rewrite Hplan, Hrx, Hn, firstn_exact, skipn_exact. reflexivity.
Qed.




(** Text outside the payloads of the round trip: a surrogate pair written
    as two code points is escaped as two and read back as the one code point
    the pair stands for. *)
Example surrogate_pair_joined :
  json_loads (json_dumps (JStr [55357; 56832])) = Ok (JStr [128512]).
Proof. reflexivity. Qed.
(** ** More on the packets *)

Lemma pack_u32_out_of_range (z : Z) :
  z < 0 \/ 2 ^ 32 <= z -> pack_u32 z = Raise struct_error.
Proof.
  intros H. unfold pack_u32.
  replace ((0 <=? z) && (z <? 2 ^ 32)) with false; [reflexivity|].
  symmetry. apply andb_false_iff.
  destruct H as [H|H]; [left; apply Z.leb_gt | right; apply Z.ltb_ge]; lia.
Qed.

Lemma hello_ok : json_ok hello.
Proof.
  apply ok_obj.
  - repeat (apply Forall_cons || apply Forall_nil || split
            || apply ok_int || apply ok_str || reflexivity
            || (vm_compute; discriminate)).
  - vm_compute. repeat constructor; intros H; cbn in H; intuition discriminate.
Defined.

(** X1: [_send_packet] with an opcode outside the 32 bits of the header
    fails and sends nothing: a negative opcode raises [ValueError], an opcode
    from [2^32] on raises the [RuntimeError] that wraps the packing error;
    the client and its stream are as before. *)
Theorem send_packet_out_of_range (opcode : Z) (data : json)
    (self : DiscordRPC.t) :
  DiscordRPC.sock self <> None -> json_ok data ->
  opcode < 0 \/ 2 ^ 32 <= opcode ->
  exists msg,
    DiscordRPC._send_packet opcode data self
    = (Raise (if opcode <? 0 then ValueError msg else RuntimeError msg), self).
Proof.
  intros Hs Hok Hop. unfold DiscordRPC._send_packet.
  destruct (DiscordRPC.sock self) as [s|]; [|congruence].
  destruct (opcode <? 0) eqn:E; [eexists; reflexivity|].
  apply Z.ltb_ge in E. destruct Hop as [Hop|Hop]; [lia|].
  unfold try_except, bindM, lift.
  rewrite (utf8_encode_ascii _ (json_dumps_ascii data Hok)).
  unfold struct_pack_II. rewrite pack_u32_out_of_range by (right; exact Hop).
  cbn. eexists. reflexivity.
Qed.

Lemma send_packet_out_of_range_witness :
  exists msg,
    DiscordRPC._send_packet (2 ^ 32) hello idle_client
    = (Raise (RuntimeError msg), idle_client).
Proof.
  apply (send_packet_out_of_range (2 ^ 32) hello idle_client).
  - discriminate.
  - exact hello_ok.
  - right. lia.
Defined.

(** X2: [_send_packet] does not look at what [send] returns.  When the
    kernel takes only the first [k] bytes of the packet, the call returns as
    if all were sent, and the stream holds a packet cut after [k] bytes. *)
Theorem send_packet_short_write (opcode : Z) (data : json)
    (self : DiscordRPC.t) (s : Socket) (k : nat) (plan : list io_step) :
  0 <= opcode < 2 ^ 32 -> json_ok data ->
  Z.of_nat (List.length (json_dumps data)) < 2 ^ 32 ->
  DiscordRPC.sock self = Some s -> peer s <> None ->
  tx_plan s = io_upto k :: plan ->
  exists header,
    struct_pack_II opcode (Z.of_nat (List.length (json_dumps data))) = Ok header
    /\ DiscordRPC._send_packet opcode data self
       = (Ok tt,
          DiscordRPC.mk (DiscordRPC.client_id self)
            (Some (mk_socket (peer s) (rx s) (rx_plan s)
                     (tx s ++ firstn k (header ++ map byte_of (json_dumps data)))
                     plan))
            (DiscordRPC.connected self)).
Proof.
  intros Hop Hok Hlen Hs Hp Hplan.
  destruct (struct_pack_unpack_II opcode
              (Z.of_nat (List.length (json_dumps data))) Hop)
    as (header & Hpack & _); [lia|].
  exists header. split; [exact Hpack|].
  unfold DiscordRPC._send_packet. rewrite Hs.
  replace (opcode <? 0) with false by (symmetry; apply Z.ltb_ge; lia).
  unfold try_except, bindM, lift, ret, DiscordRPC.send.
  rewrite (utf8_encode_ascii _ (json_dumps_ascii data Hok)), length_map, Hpack, Hs.
  unfold sock_send. destruct (peer s) as [p|]; [|congruence].
  rewrite Hplan. reflexivity.
Qed.

Lemma send_packet_short_write_witness :
  exists header,
    struct_pack_II 0 (Z.of_nat (List.length (json_dumps hello))) = Ok header
    /\ DiscordRPC._send_packet 0 hello
         (DiscordRPC.mk CLIENT_ID
            (Some (mk_socket (Some (lit "/tmp/discord-ipc-0")) [] [] []
                             [io_upto 5]))
            true)
       = (Ok tt,
          DiscordRPC.mk CLIENT_ID
            (Some (mk_socket (Some (lit "/tmp/discord-ipc-0")) [] []
                     ([] ++ firstn 5 (header ++ map byte_of (json_dumps hello)))
                     []))
            true).
Proof.
  apply (send_packet_short_write 0 hello
           (DiscordRPC.mk CLIENT_ID
              (Some (mk_socket (Some (lit "/tmp/discord-ipc-0")) [] [] []
                               [io_upto 5]))
              true)
           (mk_socket (Some (lit "/tmp/discord-ipc-0")) [] [] [] [io_upto 5])
           5 []);
    try reflexivity; try discriminate.
  - change (2 ^ 32) with 4294967296. lia.
  - exact hello_ok.
Defined.

(** X3: when the kernel refuses the write, [_send_packet] raises a
    [RuntimeError] (the [OSError] is wrapped) and the stream holds no byte
    more than before. *)
Theorem send_packet_transport_failure (opcode : Z) (data : json)
    (self : DiscordRPC.t) (s : Socket) (plan : list io_step) :
  0 <= opcode < 2 ^ 32 -> json_ok data ->
  Z.of_nat (List.length (json_dumps data)) < 2 ^ 32 ->
  DiscordRPC.sock self = Some s -> peer s <> None ->
  tx_plan s = io_fail :: plan ->
  exists msg,
    DiscordRPC._send_packet opcode data self
    = (Raise (RuntimeError msg),
       DiscordRPC.mk (DiscordRPC.client_id self)
         (Some (mk_socket (peer s) (rx s) (rx_plan s) (tx s) plan))
         (DiscordRPC.connected self)).
Proof.
  intros Hop Hok Hlen Hs Hp Hplan.
  destruct (struct_pack_unpack_II opcode
              (Z.of_nat (List.length (json_dumps data))) Hop)
    as (header & Hpack & _); [lia|].
  unfold DiscordRPC._send_packet. rewrite Hs.
  replace (opcode <? 0) with false by (symmetry; apply Z.ltb_ge; lia).
  unfold try_except, bindM, lift, ret, raise, DiscordRPC.send.
  rewrite (utf8_encode_ascii _ (json_dumps_ascii data Hok)), length_map, Hpack, Hs.
  unfold sock_send. destruct (peer s) as [p|]; [|congruence].
  rewrite Hplan. cbn. eexists. reflexivity.
Qed.

Lemma send_packet_transport_failure_witness :
  exists msg,
    DiscordRPC._send_packet 0 hello
      (DiscordRPC.mk CLIENT_ID
         (Some (mk_socket (Some (lit "/tmp/discord-ipc-0")) [] [] [] [io_fail]))
         true)
    = (Raise (RuntimeError msg), idle_client).
Proof.
  apply (send_packet_transport_failure 0 hello
           (DiscordRPC.mk CLIENT_ID
              (Some (mk_socket (Some (lit "/tmp/discord-ipc-0")) [] [] []
                               [io_fail]))
              true)
           (mk_socket (Some (lit "/tmp/discord-ipc-0")) [] [] [] [io_fail])
           []);
    try reflexivity; try discriminate.
  - change (2 ^ 32) with 4294967296. lia.
  - exact hello_ok.
Defined.

(** What the steps of [_read_packet] can raise. *)
Lemma sock_recv_raises (s : Socket) (n : Z) (e : exn) (s' : Socket) :
  sock_recv s n = (Raise e, s') -> e = OSError.
Proof.
  unfold sock_recv. destruct (peer s); [|congruence].
  destruct (rx_plan s) as [|[|k] plan]; congruence.
Qed.

Lemma recv_raises (n : Z) (self self' : DiscordRPC.t) (e : exn) :
  DiscordRPC.sock self <> None ->
  DiscordRPC.recv n self = (Raise e, self') -> e = OSError.
Proof.
  unfold DiscordRPC.recv. destruct (DiscordRPC.sock self) as [s|]; [|congruence].
  intros _. destruct (sock_recv s n) as [r s'] eqn:E. intros H.
  inversion H. subst. eapply sock_recv_raises. exact E.
Qed.

Lemma bind_raises {A B : Type} (c : result A) (k : A -> result B) (e : exn) :
  bind c k = Raise e -> c = Raise e \/ exists a, c = Ok a /\ k a = Raise e.
Proof. destruct c as [a|e']; cbn; intros H; [right; eauto | left; congruence]. Qed.

Lemma utf8_decode_raises (bs : bytes) (e : exn) :
  utf8_decode bs = Raise e -> e = UnicodeDecodeError.
Proof.
  remember (List.length bs) as n eqn:Hn. revert bs Hn.
  induction n as [n IH] using lt_wf_ind. intros bs Hn.
  destruct bs as [|b0 r]; [discriminate|]. cbn [utf8_decode].
  assert (Step : forall (r' : bytes) (c : Z),
             (List.length r' < n)%nat ->
             (s <- utf8_decode r' ;; Ok (c :: s)) = Raise e ->
             e = UnicodeDecodeError).
  { intros r' c Hl H. apply bind_raises in H.
    destruct H as [H|(a & _ & H)]; [|discriminate].
    eapply IH; [exact Hl | reflexivity | exact H]. }
  cbn [List.length] in Hn.
  destruct (byte_val b0 <? 128); [apply Step; lia|].
  destruct (byte_val b0 <? 194); [congruence|].
  destruct (byte_val b0 <? 224).
  { destruct r as [|b1 r1]; [congruence|].
    destruct (is_cont b1); [|congruence]. apply Step. cbn [List.length] in Hn. lia. }
  destruct (byte_val b0 <? 240).
  { destruct r as [|b1 [|b2 r2]]; try congruence.
    match goal with |- (if ?c then _ else _) = _ -> _ => destruct c end;
      [|congruence].
    apply Step. cbn [List.length] in Hn. lia. }
  destruct (byte_val b0 <? 245); [|congruence].
  destruct r as [|b1 [|b2 [|b3 r3]]]; try congruence.
  match goal with |- (if ?c then _ else _) = _ -> _ => destruct c end;
    [|congruence].
  apply Step. cbn [List.length] in Hn. lia.
Qed.

(** X4: when the first read gives fewer than the eight bytes of a header,
    or fails, [_read_packet] returns [(None, None)]; the bytes it got are
    taken from the stream and the rest of the header is not waited for. *)
Theorem read_packet_short_header (self self1 : DiscordRPC.t)
    (r : result bytes) :
  DiscordRPC.sock self <> None ->
  DiscordRPC.recv 8 self = (r, self1) ->
  match r with
  | Ok header => (List.length header < 8)%nat
  | Raise _ => True
  end ->
  DiscordRPC._read_packet self = (Ok (None, JNull), self1).
Proof.
  intros Hs Hrecv Hr. unfold DiscordRPC._read_packet.
  destruct (DiscordRPC.sock self) as [s|] eqn:Es; [|congruence].
  unfold try_except, bindM. rewrite Hrecv. destruct r as [header|e].
  - replace (Z.of_nat (List.length header) <? 8) with true
      by (symmetry; apply Z.ltb_lt; lia).
    reflexivity.
  - rewrite (recv_raises 8 self self1 e) by (congruence || exact Hrecv).
    reflexivity.
Qed.

Lemma read_packet_short_header_witness :
  DiscordRPC._read_packet
    (client_on (lit "/tmp/discord-ipc-0") (bytes_of [1; 0; 0; 0; 16]) [] true)
  = (Ok (None, JNull), idle_client).
Proof.
  apply (read_packet_short_header _ _ (Ok (bytes_of [1; 0; 0; 0; 16]))).
  - discriminate.
  - reflexivity.
  - cbn. lia.
Defined.

(** X5: a packet whose payload is no UTF-8 text is read to its end and
    dropped: [_read_packet] returns [(None, None)] and the stream stands
    after the packet. *)
Theorem read_packet_malformed_payload (self self1 self2 : DiscordRPC.t)
    (header payload : bytes) (opcode length : Z) (e : exn) :
  DiscordRPC.sock self <> None ->
  DiscordRPC.recv 8 self = (Ok header, self1) ->
  struct_unpack_II header = Ok (opcode, length) ->
  0 < length <= 1024 * 1024 ->
  DiscordRPC.recv length self1 = (Ok payload, self2) ->
  utf8_decode payload = Raise e ->
  DiscordRPC._read_packet self = (Ok (None, JNull), self2).
Proof.
  intros Hs H8 Hu Hl Hp Hbad. unfold DiscordRPC._read_packet.
  destruct (DiscordRPC.sock self) as [s|] eqn:Es; [|congruence].
  unfold try_except. rewrite (bindM_step _ _ _ _ _ H8).
  assert (L8 : List.length header = 8%nat).
  { unfold struct_unpack_II in Hu.
    repeat (destruct header as [|? header]; try discriminate). reflexivity. }
  rewrite L8. change (Z.of_nat 8 <? 8) with false. cbv iota.
  unfold lift at 1.
  rewrite (bindM_step _ _ _ _ _ (f_equal2 pair Hu eq_refl)). cbn [fst snd].
  replace (length >? 1024 * 1024) with false
    by (symmetry; rewrite Z.gtb_ltb; apply Z.ltb_ge; lia).
  replace (length <=? 0) with false by (symmetry; apply Z.leb_gt; lia).
  rewrite (bindM_step _ _ _ _ _ Hp). unfold bindM, lift, ret.
  rewrite Hbad. rewrite (utf8_decode_raises _ _ Hbad). reflexivity.
Qed.

Lemma read_packet_malformed_payload_witness :
  DiscordRPC._read_packet
    (client_on (lit "/tmp/discord-ipc-0")
               (bytes_of [1; 0; 0; 0; 2; 0; 0; 0; 123; 255; 9]) [] true)
  = (Ok (None, JNull),
     client_on (lit "/tmp/discord-ipc-0") (bytes_of [9]) [] true).
Proof.
  apply (read_packet_malformed_payload _
           (client_on (lit "/tmp/discord-ipc-0") (bytes_of [123; 255; 9]) [] true)
           _ (bytes_of [1; 0; 0; 0; 2; 0; 0; 0]) (bytes_of [123; 255]) 1 2
           UnicodeDecodeError);
    try reflexivity; try discriminate.
  lia.
Defined.
(** ** More on the client: connect and the constructor *)

Lemma connect_loop_returns (os : OS) (tmpdir : str) (range : list Z)
    (self : DiscordRPC.t) :
  DiscordRPC.connected self = false ->
  exists b self',
    DiscordRPC.connect_loop os tmpdir range self = (Ok b, self')
    /\ DiscordRPC.connected self' = b
    /\ DiscordRPC.client_id self' = DiscordRPC.client_id self
    /\ (b = true -> DiscordRPC.sock self' <> None).
Proof.
  revert self. induction range as [|i rest IH]; intros self Hc.
  - exists false, self. repeat split; auto. discriminate.
  - destruct (connect_turn_spec os tmpdir i self Hc) as (self1 & Hid & Hturn).
    cbn [DiscordRPC.connect_loop]. unfold bindM.
    destruct (greets os (DiscordRPC.client_id self)
                (DiscordRPC.socket_path tmpdir i)).
    + destruct Hturn as (Ht & Hc1 & Hp). rewrite Ht.
      exists true, self1. repeat split; auto.
      intros _ Hn. rewrite Hn in Hp. discriminate.
    + destruct Hturn as (Ht & Hc1). rewrite Ht.
      destruct (IH self1 Hc1) as (b & self' & Hl & Hb & Hid' & Hs).
      exists b, self'. repeat split; auto. congruence.
Qed.

Lemma connect_returns (os : OS) (self : DiscordRPC.t) :
  exists b self',
    DiscordRPC.connect os self = (Ok b, self')
    /\ DiscordRPC.connected self' = b
    /\ DiscordRPC.client_id self' = DiscordRPC.client_id self
    /\ (b = true -> DiscordRPC.connected self = false ->
        DiscordRPC.sock self' <> None).
Proof.
  unfold DiscordRPC.connect.
  destruct (DiscordRPC.connected self) eqn:Hc.
  - exists true, self. repeat split; auto. discriminate.
  - destruct (negb (path_exists os (DiscordRPC.tmpdir_of os))).
    + exists false, self. repeat split; auto. discriminate.
    + destruct (connect_loop_returns os (DiscordRPC.tmpdir_of os)
                  DiscordRPC.range10 self Hc) as (b & self' & H & Hb & Hid & Hs).
      exists b, self'. repeat split; auto.
Qed.

(** X7: [connect] never raises, whatever the sockets of the runtime
    directory do: it returns a boolean that is the [connected] flag it
    leaves, it keeps the client identifier, and a client it connects holds a
    socket. *)
Theorem connect_never_raises (os : OS) (self : DiscordRPC.t) :
  exists b self',
    DiscordRPC.connect os self = (Ok b, self')
    /\ DiscordRPC.connected self' = b
    /\ DiscordRPC.client_id self' = DiscordRPC.client_id self
    /\ (b = true -> DiscordRPC.connected self = false ->
        DiscordRPC.sock self' <> None).
Proof.
  unfold DiscordRPC.connect.
  destruct (DiscordRPC.connected self) eqn:Hc.
  - exists true, self. repeat split; auto. discriminate.
  - destruct (negb (path_exists os (DiscordRPC.tmpdir_of os))).
    + exists false, self. repeat split; auto. discriminate.
    + destruct (connect_loop_returns os (DiscordRPC.tmpdir_of os)
                  DiscordRPC.range10 self Hc) as (b & self' & H & Hb & Hid & Hs).
      exists b, self'. repeat split; auto.
Qed.

(** X8: once [connect] has returned [True], a further [connect] returns
    [True] at once: it leaves the client as it is and reads nothing of the
    operating system. *)
Theorem connect_again (os os' : OS) (self self' : DiscordRPC.t) :
  DiscordRPC.connect os self = (Ok true, self') ->
  DiscordRPC.connect os' self' = (Ok true, self').
Proof.
  intros H. destruct (connect_returns os self) as (b & s & Hc & Hb & _).
  rewrite H in Hc.
  assert (Hf : DiscordRPC.connected self' = true) by congruence.
  unfold DiscordRPC.connect. rewrite Hf. reflexivity.
Qed.

Lemma connect_again_witness :
  DiscordRPC.connect (mk_os None (fun _ => false) (fun _ => None))
    (snd (DiscordRPC.connect os_example fresh_client))
  = (Ok true, snd (DiscordRPC.connect os_example fresh_client)).
Proof.
  apply (connect_again os_example _ fresh_client). reflexivity.
Defined.

Lemma isspace_not_digit (c : Z) : is_digit c = true -> isspace c = false.
Proof.
  unfold is_digit, isspace. intros H. apply andb_prop in H.
  destruct H as [A B]. apply Z.leb_le in A. apply Z.leb_le in B.
  repeat (apply orb_false_iff; split);
    try (apply andb_false_iff; (left; apply Z.leb_gt; lia) || (right; apply Z.leb_gt; lia));
    apply Z.eqb_neq; lia.
Qed.

Lemma init_of_digits (digit_above : Z -> bool) (client_id : str) :
  client_id <> [] ->
  forallb is_digit client_id = true ->
  DiscordRPC.__init__ digit_above client_id
  = Ok (DiscordRPC.mk client_id None false).
Proof.
  intros Hne Hd. unfold DiscordRPC.__init__.
  destruct client_id as [|c r]; [congruence|].
  cbn [str_is_empty orb].
  destruct (strip (c :: r)) as [|x y] eqn:Es.
  { apply strip_nil in Es. cbn [forallb] in *.
    apply andb_prop in Hd. destruct Hd as [Hc _].
    apply andb_prop in Es. destruct Es as [Es _].
    rewrite (isspace_not_digit c Hc) in Es. discriminate. }
  cbn [str_is_empty]. unfold isdigit. cbn [str_is_empty negb andb].
  replace (forallb (fun c0 => if c0 <? 128 then is_digit c0 else digit_above c0)
             (c :: r)) with true; [reflexivity|].
  symmetry. apply forallb_forall. intros z Hz.
  pose proof (proj1 (forallb_forall _ _) Hd z Hz) as Dz.
  rewrite Dz. unfold is_digit in Dz. apply andb_prop in Dz.
  destruct Dz as [_ B]. apply Z.leb_le in B.
  replace (z <? 128) with true by (symmetry; apply Z.ltb_lt; lia). reflexivity.
Qed.

(** X9: the constructor of [DiscordRPC] accepts every non-empty text of
    the digits 0 to 9, and the client it makes holds no socket and is not
    connected. *)
Theorem init_accepts_digits (digit_above : Z -> bool) (client_id : str) :
  client_id <> [] ->
  forallb is_digit client_id = true ->
  DiscordRPC.__init__ digit_above client_id
  = Ok (DiscordRPC.mk client_id None false).
Proof.
  intros Hne Hd. unfold DiscordRPC.__init__.
  destruct client_id as [|c r]; [congruence|].
  cbn [str_is_empty orb].
  destruct (strip (c :: r)) as [|x y] eqn:Es.
  { apply strip_nil in Es. cbn [forallb] in *.
    apply andb_prop in Hd. destruct Hd as [Hc _].
    apply andb_prop in Es. destruct Es as [Es _].
    rewrite (isspace_not_digit c Hc) in Es. discriminate. }
  cbn [str_is_empty]. unfold isdigit. cbn [str_is_empty negb andb].
  replace (forallb (fun c0 => if c0 <? 128 then is_digit c0 else digit_above c0)
             (c :: r)) with true; [reflexivity|].
  symmetry. apply forallb_forall. intros z Hz.
  pose proof (proj1 (forallb_forall _ _) Hd z Hz) as Dz.
  rewrite Dz. unfold is_digit in Dz. apply andb_prop in Dz.
  destruct Dz as [_ B]. apply Z.leb_le in B.
  replace (z <? 128) with true by (symmetry; apply Z.ltb_lt; lia). reflexivity.
Qed.

Lemma init_accepts_digits_witness :
  DiscordRPC.__init__ (fun _ => false) CLIENT_ID
  = Ok (DiscordRPC.mk CLIENT_ID None false).
Proof.
  apply (init_accepts_digits (fun _ => false) CLIENT_ID).
  - discriminate.
  - reflexivity.
Defined.

(** X10: the constructor of [DiscordRPC] raises [ValueError] for a client
    identifier that is empty or all whitespace, and for one that holds an
    ASCII character that is no digit. *)
Theorem init_rejects (digit_above : Z -> bool) (client_id : str) :
  forallb isspace client_id = true
  \/ (exists c, In c client_id /\ c < 128 /\ is_digit c = false) ->
  exists msg,
    DiscordRPC.__init__ digit_above client_id = Raise (ValueError msg).
Proof.
  intros H. unfold DiscordRPC.__init__.
  destruct (str_is_empty client_id || str_is_empty (strip client_id)) eqn:E;
    [eexists; reflexivity|].
  destruct H as [H|(c & Hin & Hc & Hd)].
  - rewrite (strip_all_space _ H) in E. cbn in E.
    rewrite orb_true_r in E. discriminate.
  - replace (isdigit digit_above client_id) with false; [eexists; reflexivity|].
    symmetry. unfold isdigit. apply andb_false_iff. right.
    destruct (forallb _ client_id) eqn:F; [|reflexivity].
    pose proof (proj1 (forallb_forall _ _) F c Hin) as Fc. cbv beta in Fc.
    replace (c <? 128) with true in Fc by (symmetry; apply Z.ltb_lt; lia).
    congruence.
Qed.

Lemma init_rejects_witness :
  exists msg,
    DiscordRPC.__init__ (fun _ => true) (lit "1410 325") = Raise (ValueError msg).
Proof.
  apply (init_rejects (fun _ => true) (lit "1410 325")).
  right. exists 32. split; [|split; [lia | reflexivity]].
  vm_compute. tauto.
Defined.
(** ** main: the exit *)

Lemma main_finally_spec (env : tick_env) (st : loop_state) :
  exists d,
    main_finally env st
    = (Ok tt,
       mk_loop d (last_was_playing st) (last_song_info st) (cached_artwork st)
               (calls st ++ [JNull]))
    /\ DiscordRPC.sock d = None /\ DiscordRPC.connected d = false.
Proof.
  unfold main_finally, bindM.
  destruct (call_set_activity_spec env JNull st) as (d & H). rewrite H.
  unfold call_close, DiscordRPC.close. cbn.
  eexists. split; [reflexivity|]. split; reflexivity.
Qed.

(** X11: [main] never raises.  Either [connect] returns [False]: then
    "Failed to connect to Discord" is all that happens, with no call of
    [set_activity].  Or the loop runs: then, whether the user interrupts it
    or a turn raises, one line is printed, the last call of [set_activity]
    is the clearing one of the [finally] clause, put after the calls of the
    loop, and the client ends closed: no socket, not connected. *)
Theorem main_clears_on_exit (lower : str -> str) (digit_above : Z -> bool)
    (os : OS) (envs : list tick_env) (exit_env : tick_env) :
  (fst (started os) = Ok false
   /\ main lower digit_above os envs exit_env = (Ok [failed_to_connect], None))
  \/ (fst (started os) = Ok true
      /\ exists st,
           main lower digit_above os envs exit_env
           = (Ok [match fst (looped lower os envs) with
                  | Ok _ => shutting_down
                  | Raise e => unexpected_error e
                  end], Some st)
           /\ calls st = calls (snd (looped lower os envs)) ++ [JNull]
           /\ DiscordRPC.sock (discord st) = None
           /\ DiscordRPC.connected (discord st) = false).
Proof.
  unfold main, looped, started.
  rewrite (init_of_digits digit_above CLIENT_ID)
    by (discriminate || reflexivity).
  destruct (connect_returns os (DiscordRPC.mk CLIENT_ID None false))
    as (b & d & Hc & _). rewrite Hc. cbn [fst snd].
  destruct b; [right | left; split; reflexivity].
  split; [reflexivity|].
  destruct (ticks lower envs (loop_start d)) as [r st] eqn:Ht. cbn [fst snd].
  destruct (main_finally_spec exit_env st) as (d' & Hf & Hs & Hn). rewrite Hf.
  eexists. split; [reflexivity|]. cbn. auto.
Qed.
(** ** More on SongData *)

Lemma SFltb_irrefl (x : float) : SFltb x x = false.
Proof.
  unfold SFltb. destruct x as [s|s| |s m e]; cbn; try reflexivity.
  - destruct s; reflexivity.
  - rewrite Z.compare_refl, Pos.compare_cont_refl. destruct s; reflexivity.
Qed.

Lemma SongData_made (ti ar al : str) (d p : float) (u : option str)
    (s : SongData.t) :
  SongData.__init__ ti ar al d p u = Ok s ->
  SongData.title s = ti /\ SongData.artist s = ar /\ SongData.album s = al
  /\ SongData.duration s = d /\ SongData.url s = u
  /\ SongData.position s = (if SFltb d p then d else p)
  /\ SFltb (SongData.duration s) float_zero = false
  /\ SFltb (SongData.position s) float_zero = false
  /\ SFltb (SongData.duration s) (SongData.position s) = false
  /\ strip ti <> [] /\ strip ar <> [].
Proof.
  unfold SongData.__init__, SongData.__post_init__. cbn [SongData.duration SongData.position].
  destruct (SFltb d float_zero) eqn:Ed; [discriminate|].
  destruct (SFltb p float_zero) eqn:Ep; [discriminate|].
  destruct (SFltb d p) eqn:Edp;
    cbn [SongData.set_position SongData.title SongData.artist SongData.album
         SongData.duration SongData.position SongData.url];
    (destruct (strip ti) as [|x y] eqn:Et; [cbn [str_is_empty]; discriminate|]);
    (destruct (strip ar) as [|x' y'] eqn:Ea; [cbn [str_is_empty]; discriminate|]);
    cbn [str_is_empty]; intros H; inversion H; subst;
    cbn [SongData.title SongData.artist SongData.album
         SongData.duration SongData.position SongData.url];
    repeat split; auto using SFltb_irrefl; discriminate.
Qed.

(** X12: every [SongData] the constructor makes has a title and an artist
    that are not blank, a duration and a position that are not below zero,
    and a position that is not above the duration; the position is the given
    one, or the duration when the given one was above it, and the other
    fields are the given ones. *)
Theorem SongData_invariant (ti ar al : str) (d p : float) (u : option str)
    (s : SongData.t) :
  SongData.__init__ ti ar al d p u = Ok s ->
  SongData.title s = ti /\ SongData.artist s = ar /\ SongData.album s = al
  /\ SongData.duration s = d /\ SongData.url s = u
  /\ SongData.position s = (if SFltb d p then d else p)
  /\ SFltb (SongData.duration s) float_zero = false
  /\ SFltb (SongData.position s) float_zero = false
  /\ SFltb (SongData.duration s) (SongData.position s) = false
  /\ strip ti <> [] /\ strip ar <> [].
Proof.
  unfold SongData.__init__, SongData.__post_init__. cbn [SongData.duration SongData.position].
  destruct (SFltb d float_zero) eqn:Ed; [discriminate|].
  destruct (SFltb p float_zero) eqn:Ep; [discriminate|].
  destruct (SFltb d p) eqn:Edp;
    cbn [SongData.set_position SongData.title SongData.artist SongData.album
         SongData.duration SongData.position SongData.url];
    (destruct (strip ti) as [|x y] eqn:Et; [cbn [str_is_empty]; discriminate|]);
    (destruct (strip ar) as [|x' y'] eqn:Ea; [cbn [str_is_empty]; discriminate|]);
    cbn [str_is_empty]; intros H; inversion H; subst;
    cbn [SongData.title SongData.artist SongData.album
         SongData.duration SongData.position SongData.url];
    repeat split; auto using SFltb_irrefl; discriminate.
Qed.

Lemma SongData_invariant_witness :
  SongData.title song_a = lit "Song A" /\ SongData.artist song_a = lit "Artist B"
  /\ SongData.album song_a = lit "Album C"
  /\ SongData.duration song_a = float_of_Z 200 /\ SongData.url song_a = None
  /\ SongData.position song_a
     = (if SFltb (float_of_Z 200) (float_of_Z 50) then float_of_Z 200
        else float_of_Z 50)
  /\ SFltb (SongData.duration song_a) float_zero = false
  /\ SFltb (SongData.position song_a) float_zero = false
  /\ SFltb (SongData.duration song_a) (SongData.position song_a) = false
  /\ strip (lit "Song A") <> [] /\ strip (lit "Artist B") <> [].
Proof.
  apply (SongData_invariant (lit "Song A") (lit "Artist B") (lit "Album C")
           (float_of_Z 200) (float_of_Z 50) None song_a).
  reflexivity.
Defined.

(** X13: the constructor of [SongData] raises [ValueError] for a duration
    below zero and for a position below zero, whatever the other fields. *)
Theorem SongData_negative_rejected (ti ar al : str) (d p : float)
    (u : option str) :
  SFltb d float_zero = true \/ SFltb p float_zero = true ->
  exists msg, SongData.__init__ ti ar al d p u = Raise (ValueError msg).
Proof.
  intros H. unfold SongData.__init__, SongData.__post_init__.
  cbn [SongData.duration SongData.position].
  destruct (SFltb d float_zero); [eexists; reflexivity|].
  destruct H as [H|H]; [discriminate|]. rewrite H. eexists. reflexivity.
Qed.

Lemma SongData_negative_rejected_witness :
  exists msg,
    SongData.__init__ (lit "Song A") (lit "Artist B") (lit "Album C")
      (float_of_Z 200) (float_of_Z (-1)) None = Raise (ValueError msg).
Proof.
  apply SongData_negative_rejected. right. reflexivity.
Defined.

Lemma tick_raises_on_timestamps (lower : str -> str) (env : tick_env)
    (song : SongData.t) (st : loop_state) (e : exn) :
  current_song env = Some song ->
  timestamps (now env) song = Raise e ->
  exists e' st', tick lower env st = (Raise e', st') /\ calls st' = calls st.
Proof.
  intros Hs Ht. unfold tick. rewrite Hs. unfold bindM at 1.
  match goal with
  | |- context [if ?c then (Ok tt, ?a) else (Ok tt, ?b)] =>
      assert (Hc : exists st1, (if c then (Ok tt, a) else (Ok tt, b)) = (Ok tt, st1)
                               /\ calls st1 = calls st)
        by (destruct c; eexists; split; reflexivity)
  end.
  destruct Hc as (st1 & -> & Hcalls).
  unfold bindM, lift. rewrite Ht.
  destruct (display_url lower env song); eexists; eexists; split; eauto.
Qed.

(** X14: the validation of [SongData] lets a duration through that is no
    finite number (NaN or plus infinity): the comparisons with it are all
    false.  The turn of the loop that meets such a song raises, when it
    converts the remaining time to an integer if not before, and makes no
    call of [set_activity]; the loop ends there. *)
Theorem unbounded_duration_stops_loop (lower : str -> str) (ti ar al : str)
    (d p : float) (u : option str) (env : tick_env) (rest : list tick_env)
    (st : loop_state) :
  d = S754_nan \/ d = S754_infinity false ->
  strip ti <> [] -> strip ar <> [] -> SFltb p float_zero = false ->
  current_song env = Some (SongData.mk ti ar al d p u) ->
  SongData.__init__ ti ar al d p u = Ok (SongData.mk ti ar al d p u)
  /\ exists e st',
       ticks lower (env :: rest) st = (Raise e, st') /\ calls st' = calls st.
Proof.
  intros Hd Ht Ha Hp Hs. split.
  - unfold SongData.__init__, SongData.__post_init__.
    cbn [SongData.duration SongData.position].
    replace (SFltb d float_zero) with false by (destruct Hd; subst; reflexivity).
    rewrite Hp.
    replace (SFltb d p) with false
      by (destruct Hd; subst; [reflexivity | destruct p as [| [|] | |]; reflexivity]).
    cbn [SongData.title SongData.artist].
    destruct (strip ti); [congruence|]. destruct (strip ar); [congruence|].
    reflexivity.
  - assert (Hr : exists e, timestamps (now env) (SongData.mk ti ar al d p u)
                           = Raise e).
    { unfold timestamps. cbn [SongData.duration SongData.position].
      destruct (int_of_float p) as [a|e] eqn:Ep; [|eexists; reflexivity].
      cbn [bind]. unfold float_sub.
      destruct Hd; subst; destruct p as [| [|] | |]; cbn; try discriminate;
        eexists; reflexivity. }
    destruct Hr as (e & Hr).
    destruct (tick_raises_on_timestamps lower env _ st e Hs Hr)
      as (e' & st' & Hk & Hc).
    exists e', st'. split; [|exact Hc].
    cbn [ticks]. unfold bindM. rewrite Hk. reflexivity.
Qed.

Lemma unbounded_duration_stops_loop_witness :
  SongData.__init__ (lit "Song A") (lit "Artist B") (lit "Album C")
    S754_nan (float_of_Z 50) None
  = Ok (SongData.mk (lit "Song A") (lit "Artist B") (lit "Album C")
          S754_nan (float_of_Z 50) None)
  /\ exists e st',
       ticks (fun s => s)
         [mk_env (Some (SongData.mk (lit "Song A") (lit "Artist B")
                          (lit "Album C") S754_nan (float_of_Z 50) None))
                 offline 100 (lit "n") 7]
         (loop_start idle_client)
       = (Raise e, st')
       /\ calls st' = calls (loop_start idle_client).
Proof.
  apply (unbounded_duration_stops_loop (fun s => s) (lit "Song A")
           (lit "Artist B") (lit "Album C") S754_nan (float_of_Z 50) None
           (mk_env (Some (SongData.mk (lit "Song A") (lit "Artist B")
                            (lit "Album C") S754_nan (float_of_Z 50) None))
                   offline 100 (lit "n") 7)
           [] (loop_start idle_client));
    try reflexivity; try (vm_compute; discriminate).
  left. reflexivity.
Defined.
(** ** More on the lookups *)

Lemma blank_joined (a b : str) :
  str_is_empty (strip a) && str_is_empty (strip b) = true ->
  strip (a ++ 32 :: b) = [].
Proof.
  intros H. apply andb_prop in H. destruct H as [Ha Hb].
  destruct (strip a) eqn:Ea; [|discriminate].
  destruct (strip b) eqn:Eb; [|discriminate].
  apply strip_all_space. rewrite forallb_app. cbn [forallb].
  rewrite (strip_nil _ Ea), (strip_nil _ Eb). reflexivity.
Qed.

(** X15: [get_album_artwork] never raises, and returns [None] whenever the
    service gives no usable answer: the request fails, the status is not
    200, or the body is no UTF-8 JSON text. *)
Theorem artwork_none_without_answer (web : Web) (artist title album : str) :
  no_answer web -> get_album_artwork web artist title album = JNull.
Proof.
  intros Hw. unfold get_album_artwork.
  destruct (str_is_empty (strip artist) && str_is_empty (strip title));
    [reflexivity|].
  destruct (str_is_empty (strip (artist ++ 32 :: title))); [reflexivity|].
  destruct (quote (strip (artist ++ 32 :: title))) as [q|e]; [|reflexivity].
  cbn [bind].
  match goal with |- context [web ?u] => specialize (Hw u); destruct (web u) as [e|status body] end;
    [reflexivity|].
  destruct (status =? 200) eqn:E; [|reflexivity]. cbn [negb].
  apply Z.eqb_eq in E. destruct Hw as [Hw|Hw]; [congruence|].
  destruct body as [raw|e]; [|reflexivity]. cbn [bind].
  destruct (utf8_decode raw) as [text|e]; [|reflexivity]. cbn [bind].
  destruct (Hw text eq_refl) as (e & He). rewrite He. reflexivity.
Qed.

Lemma artwork_none_without_answer_witness :
  get_album_artwork offline (lit "Artist B") (lit "Song A") (lit "Album C")
  = JNull.
Proof.
  apply artwork_none_without_answer. intros url. exact I.
Defined.

(** X16: [get_album_artwork] returns the largest cover the first track of
    the answer has: for an answer of status 200 whose JSON text is a dict
    with a non-empty list under "data", whose first item is a dict with a
    dict under "album", the result is the value of "cover_xl" when it is
    truthy, else that of "cover_big" when it is truthy, else that of
    "cover_medium" ([None] when the key is missing); the request is for
    the quoted artist and title, with limit 1. *)
Theorem artwork_largest_cover (web : Web) (artist title album q : str)
    (raw : bytes) (text : str) (d track a : list (str * json))
    (more : list json) :
  str_is_empty (strip artist) && str_is_empty (strip title) = false ->
  quote (strip (artist ++ 32 :: title)) = Ok q ->
  web (lit "https://api.deezer.com/search/track?q=" ++ q ++ lit "&limit=1")
  = http_response 200 (Ok raw) ->
  utf8_decode raw = Ok text ->
  json_loads text = Ok (JObj d) ->
  dict_get d (lit "data") = Some (JArr (JObj track :: more)) ->
  dict_get track (lit "album") = Some (JObj a) ->
  get_album_artwork web artist title album
  = if truthy (get_or_None a (lit "cover_xl"))
    then get_or_None a (lit "cover_xl")
    else if truthy (get_or_None a (lit "cover_big"))
         then get_or_None a (lit "cover_big")
         else get_or_None a (lit "cover_medium").
Proof.
  intros Hb Hq Hw Hd Hj Hdata Halbum. unfold get_album_artwork.
  rewrite Hb. rewrite (joined_not_blank artist title artist title Hb) by auto.
  rewrite Hq. cbn [bind]. rewrite Hw. change (200 =? 200) with true.
  cbn [negb bind]. rewrite Hd. cbn [bind]. rewrite Hj. cbn [bind].
  unfold py_get at 1. rewrite Hdata. cbn [bind truthy py_len].
  replace (Z.of_nat (List.length (JObj track :: more)) >? 0) with true
    by (symmetry; rewrite Z.gtb_ltb; apply Z.ltb_lt; cbn [List.length]; lia).
  cbn [andb py_first bind]. unfold py_get at 1. rewrite Halbum. cbn [bind].
  unfold py_get, get_or_None. cbn [bind].
  destruct (truthy match dict_get a (lit "cover_xl") with
                   | Some x => x | None => JNull end); [reflexivity|].
  destruct (truthy match dict_get a (lit "cover_big") with
                   | Some x => x | None => JNull end); reflexivity.
Qed.

Lemma artwork_largest_cover_witness :
  get_album_artwork web_artwork (lit "Artist B") (lit "Song A") (lit "Album C")
  = JStr (lit "https://cdn.example/big.jpg").
Proof.
  apply (artwork_largest_cover web_artwork (lit "Artist B") (lit "Song A")
           (lit "Album C") (lit "Artist%20B%20Song%20A")
           (map byte_of (json_dumps (JObj artwork_answer)))
           (json_dumps (JObj artwork_answer))
           artwork_answer first_track covers []);
    vm_compute; reflexivity.
Defined.

(** X17: [get_apple_music_url] falls back to the search link whenever the
    service gives no usable answer; the link is the fixed one for a blank
    artist and title and the search link for the quoted artist and title
    otherwise. *)
Theorem url_fallback_without_answer (lower : str -> str) (web : Web)
    (artist title album : str) :
  no_answer web ->
  get_apple_music_url lower web artist title album = fallback_url artist title
  /\ fallback_url artist title
     = if str_is_empty (strip (artist ++ 32 :: title))
       then Ok (lit "https://music.apple.com/")
       else (q <- quote (strip (artist ++ 32 :: title)) ;;
             Ok (lit "https://music.apple.com/search?term=" ++ q)).
Proof.
  intros Hw. split; [|reflexivity]. unfold get_apple_music_url.
  destruct (str_is_empty (strip artist) && str_is_empty (strip title)) eqn:Hb.
  { unfold fallback_url. rewrite (blank_joined _ _ Hb). reflexivity. }
  rewrite (joined_not_blank artist title title artist Hb) by auto.
  destruct (quote (strip (title ++ 32 :: artist))) as [q|e]; [|reflexivity].
  cbn [bind].
  specialize (Hw (search_url q)). destruct (web (search_url q)) as [e|status body];
    [reflexivity|].
  destruct (status =? 200) eqn:E; [|reflexivity]. cbn [negb].
  apply Z.eqb_eq in E. destruct Hw as [Hw|Hw]; [congruence|].
  destruct body as [raw|e]; [|reflexivity]. cbn [bind].
  destruct (utf8_decode raw) as [text|e]; [|reflexivity]. cbn [bind].
  destruct (Hw text eq_refl) as (e & He). rewrite He. reflexivity.
Qed.

Lemma url_fallback_without_answer_witness :
  get_apple_music_url (fun s => s) offline (lit "Artist B") (lit "Song A")
    (lit "Album C")
  = fallback_url (lit "Artist B") (lit "Song A")
  /\ fallback_url (lit "Artist B") (lit "Song A")
     = if str_is_empty (strip (lit "Artist B" ++ 32 :: lit "Song A"))
       then Ok (lit "https://music.apple.com/")
       else (q <- quote (strip (lit "Artist B" ++ 32 :: lit "Song A")) ;;
             Ok (lit "https://music.apple.com/search?term=" ++ q)).
Proof.
  apply url_fallback_without_answer. intros url. exact I.
Defined.

Lemma quote_byte_chars (b : byte) : forallb link_char (quote_byte b) = true.
Proof. destruct b; reflexivity. Qed.

Lemma quote_chars (s q : str) : quote s = Ok q -> forallb link_char q = true.
Proof.
  unfold quote. destruct (utf8_encode s) as [bs|e]; [|discriminate].
  cbn [bind]. intros H. inversion H. subst. clear H.
  induction bs as [|b r IH]; [reflexivity|].
  cbn [flat_map]. rewrite forallb_app, quote_byte_chars, IH. reflexivity.
Qed.

(** X18: the search link [get_apple_music_url] falls back to holds only
    letters, digits and the characters [_.-~/%:?=] of ASCII: the artist and
    the title are in it as percent-encoded UTF-8, with no space and no
    character past ASCII. *)
Theorem fallback_url_chars (artist title link : str) :
  fallback_url artist title = Ok link -> forallb link_char link = true.
Proof.
  unfold fallback_url.
  destruct (str_is_empty (strip (artist ++ 32 :: title)));
    [intros H; inversion H; reflexivity|].
  destruct (quote (strip (artist ++ 32 :: title))) as [q|e] eqn:Eq;
    [|discriminate].
  cbn [bind]. intros H.
  assert (E : link = lit "https://music.apple.com/search?term=" ++ q)
    by congruence.
  rewrite E, forallb_app, (quote_chars _ _ Eq). reflexivity.
Qed.

Lemma fallback_url_chars_witness :
  forallb link_char (lit "https://music.apple.com/search?term=Artist%20B%20Song%20A")
  = true.
Proof.
  apply (fallback_url_chars (lit "Artist B") (lit "Song A")). reflexivity.
Defined.

Lemma contains_nil (y : str) : contains [] y = true.
Proof. destruct y; reflexivity. Qed.

(** X19: a search result that has neither "artistName" nor "trackName" is
    taken for a match of every song: the empty text the two default to is in
    every text.  When such a result comes first and has a link that is a
    non-empty text, [get_apple_music_url] returns that link (with the
    domain replaced), whatever the artist and the title. *)
Theorem nameless_result_matches (lower : str -> str) (web : Web)
    (artist title album q : str) (raw : bytes) (text : str) (data : json)
    (d : list (str * json)) (rest : list json) (u : str) :
  lower [] = [] ->
  str_is_empty (strip artist) && str_is_empty (strip title) = false ->
  quote (strip (title ++ 32 :: artist)) = Ok q ->
  web (search_url q) = http_response 200 (Ok raw) ->
  utf8_decode raw = Ok text ->
  json_loads text = Ok data ->
  py_get data (lit "results") JNull = Ok (JArr (JObj d :: rest)) ->
  dict_get d (lit "artistName") = None ->
  dict_get d (lit "trackName") = None ->
  dict_get d (lit "trackViewUrl") = Some (JStr u) -> u <> [] ->
  scan_result lower artist title (JObj d)
  = Ok (Some (replace (lit "itunes.apple.com") (lit "music.apple.com") u))
  /\ get_apple_music_url lower web artist title album
     = Ok (replace (lit "itunes.apple.com") (lit "music.apple.com") u).
Proof.
  intros Hl Hb Hq Hw Hd Hj Hr Ha Ht Hu Hne.
  assert (Hscan : scan_result lower artist title (JObj d)
                  = Ok (Some (replace (lit "itunes.apple.com")
                                (lit "music.apple.com") u))).
  { unfold scan_result, py_get. rewrite Ha, Ht, Hu. cbn [bind py_lower].
    unfold result_matches. rewrite Hl, !contains_nil, !orb_true_r.
    cbn [andb]. destruct u as [|c u]; [congruence | reflexivity]. }
  split; [exact Hscan|].
  rewrite (get_apple_music_url_answered lower web artist title album q raw text
             data (JObj d :: rest) Hb Hq Hw Hd Hj Hr).
  cbn [scan_results]. rewrite Hscan. reflexivity.
Qed.

Lemma nameless_result_matches_witness :
  scan_result ascii_lower (lit "Artist B") (lit "Song A") (JObj nameless_result)
  = Ok (Some (replace (lit "itunes.apple.com") (lit "music.apple.com")
                (lit "https://itunes.apple.com/us/album/9")))
  /\ get_apple_music_url ascii_lower
       (web_answering (search_answer [JObj nameless_result]))
       (lit "Artist B") (lit "Song A") (lit "Album C")
     = Ok (replace (lit "itunes.apple.com") (lit "music.apple.com")
             (lit "https://itunes.apple.com/us/album/9")).
Proof.
  apply (nameless_result_matches ascii_lower
           (web_answering (search_answer [JObj nameless_result]))
           (lit "Artist B") (lit "Song A") (lit "Album C")
           (lit "Song%20A%20Artist%20B")
           (map byte_of (json_dumps (search_answer [JObj nameless_result])))
           (json_dumps (search_answer [JObj nameless_result]))
           (search_answer [JObj nameless_result])
           nameless_result []);
    try (vm_compute; reflexivity).
  vm_compute. discriminate.
Defined.
(** ** More on the loop *)

(** A turn that meets a song, step by step. *)
Lemma tick_playing (lower : str -> str) (env : tick_env) (song : SongData.t)
    (st : loop_state) :
  current_song env = Some song ->
  let st1 := after_lookup env song st in
  tick lower env st
  = match display_url lower env song with
    | Raise e => (Raise e, st1)
    | Ok link =>
        match timestamps (now env) song with
        | Raise e => (Raise e, st1)
        | Ok ts =>
            let activity := JObj (activity_sent song ts link (cached_artwork st1)) in
            (Ok tt,
             mk_loop (snd (DiscordRPC.set_activity (nonce env) (pid env) activity
                             (discord st1)))
                     (Some true) (last_song_info st1) (cached_artwork st1)
                     (calls st1 ++ [activity]))
        end
    end.
Proof.
  intros Hs st1. unfold tick. rewrite Hs. unfold bindM at 1.
  assert (H1 : (if negb (option_str_eqb (last_song_info st)
                           (SongData.artist song ++ 45 :: SongData.title song))
                then (Ok tt,
                      mk_loop (discord st) (last_was_playing st)
                        (Some (SongData.artist song ++ 45 :: SongData.title song))
                        (get_album_artwork (web env) (SongData.artist song)
                           (SongData.title song) (SongData.album song))
                        (calls st))
                else (Ok tt, st)) = (Ok tt, st1)).
  { subst st1. unfold after_lookup.
    destruct (option_str_eqb (last_song_info st)
                (SongData.artist song ++ 45 :: SongData.title song));
      reflexivity. }
  rewrite H1. unfold bindM at 1. unfold lift at 1.
  destruct (display_url lower env song) as [link|e]; [|reflexivity].
  unfold bindM at 1. unfold lift at 1.
  destruct (timestamps (now env) song) as [ts|e]; [|reflexivity].
  unfold bindM, call_set_activity, set_last_was_playing.
  fold (activity_sent song ts link (cached_artwork st1)).
  destruct (set_activity_returns (nonce env) (pid env)
              (JObj (activity_sent song ts link (cached_artwork st1)))
              (discord st1)) as (b & Hb).
  destruct (DiscordRPC.set_activity (nonce env) (pid env)
              (JObj (activity_sent song ts link (cached_artwork st1)))
              (discord st1)) as [r d].
  cbn [fst] in Hb. subst r. reflexivity.
Qed.

Lemma after_lookup_spec (env : tick_env) (song : SongData.t) (st : loop_state) :
  let key := SongData.artist song ++ 45 :: SongData.title song in
  discord (after_lookup env song st) = discord st
  /\ calls (after_lookup env song st) = calls st
  /\ last_was_playing (after_lookup env song st) = last_was_playing st
  /\ last_song_info (after_lookup env song st) = Some key
  /\ cached_artwork (after_lookup env song st)
     = if option_str_eqb (last_song_info st) key then cached_artwork st
       else get_album_artwork (web env) (SongData.artist song)
              (SongData.title song) (SongData.album song).
Proof.
  intros key. unfold after_lookup. fold key.
  destruct (option_str_eqb (last_song_info st) key) eqn:E;
    repeat split; try reflexivity.
  unfold option_str_eqb in E. destruct (last_song_info st) as [x|];
    [|discriminate].
  apply str_eqb_eq in E. rewrite E. reflexivity.
Qed.

(** X20: the artwork is looked up once per song text.  After a turn that
    meets a song, [last_song_info] is the artist, a hyphen and the title,
    and [cached_artwork] is the one of before when that text is the one of
    the turn before (no request is made: the result does not depend on the
    web), and the result of [get_album_artwork] otherwise, be it [None];
    this holds also when the turn raises later. *)
Theorem artwork_looked_up_once (lower : str -> str) (env : tick_env)
    (song : SongData.t) (st : loop_state) :
  current_song env = Some song ->
  last_song_info (snd (tick lower env st))
  = Some (SongData.artist song ++ 45 :: SongData.title song)
  /\ cached_artwork (snd (tick lower env st))
     = if option_str_eqb (last_song_info st)
            (SongData.artist song ++ 45 :: SongData.title song)
       then cached_artwork st
       else get_album_artwork (web env) (SongData.artist song)
              (SongData.title song) (SongData.album song).
Proof.
  intros Hs. rewrite (tick_playing lower env song st Hs). cbv zeta.
  destruct (after_lookup_spec env song st) as (_ & _ & _ & Hk & Hc).
  cbv zeta in Hk, Hc.
  destruct (display_url lower env song) as [link|e]; [|split; assumption].
  destruct (timestamps (now env) song) as [ts|e]; split; assumption.
Qed.

Lemma artwork_looked_up_once_witness :
  last_song_info
    (snd (tick (fun s => s)
            (mk_env (Some song_a) web_artwork 100 (lit "n") 7)
            (loop_start idle_client)))
  = Some (lit "Artist B" ++ 45 :: lit "Song A")
  /\ cached_artwork
       (snd (tick (fun s => s)
               (mk_env (Some song_a) web_artwork 100 (lit "n") 7)
               (loop_start idle_client)))
     = JStr (lit "https://cdn.example/big.jpg").
Proof.
  apply (artwork_looked_up_once (fun s => s)
           (mk_env (Some song_a) web_artwork 100 (lit "n") 7) song_a
           (loop_start idle_client)).
  reflexivity.
Defined.

(** X21: what a turn that meets a song sends.  When the turn completes, it
    has made one call of [set_activity], with a dict whose type is 2, whose
    name is "Apple Music", whose details are the title, whose state is
    "by " and the artist, whose timestamps and button carry the computed
    times and the link, and which has the key "assets" exactly when the
    cached artwork is truthy: then with the artwork as large image and the
    album, " by " and the artist as large text. *)
Theorem activity_content (lower : str -> str) (env : tick_env)
    (song : SongData.t) (st st' : loop_state) :
  current_song env = Some song ->
  tick lower env st = (Ok tt, st') ->
  exists act link a b,
    calls st' = calls st ++ [JObj act]
    /\ display_url lower env song = Ok link
    /\ timestamps (now env) song = Ok (a, b)
    /\ dict_get act (lit "type") = Some (JInt 2)
    /\ dict_get act (lit "name") = Some (JStr (lit "Apple Music"))
    /\ dict_get act (lit "details") = Some (JStr (SongData.title song))
    /\ dict_get act (lit "state")
       = Some (JStr (lit "by " ++ SongData.artist song))
    /\ dict_get act (lit "timestamps")
       = Some (JObj [(lit "start", JInt a); (lit "end", JInt b)])
    /\ dict_get act (lit "buttons")
       = Some (JArr [JObj [(lit "label", JStr (lit "Listen on Apple Music"));
                           (lit "url", JStr link)]])
    /\ dict_get act (lit "assets")
       = if truthy (cached_artwork st')
         then Some (JObj [(lit "large_image", cached_artwork st');
                          (lit "large_text",
                           JStr (SongData.album song ++ lit " by "
                                 ++ SongData.artist song))])
         else None.
Proof.
  intros Hs Ht. rewrite (tick_playing lower env song st Hs) in Ht.
  cbv zeta in Ht.
  destruct (after_lookup_spec env song st) as (_ & Hcalls & _).
  destruct (display_url lower env song) as [link|e]; [|discriminate].
  destruct (timestamps (now env) song) as [[a b]|e]; [|discriminate].
  inversion Ht as [Hst]. clear Ht.
  exists (activity_sent song (a, b) link (cached_artwork (after_lookup env song st))),
    link, a, b.
  cbn [calls cached_artwork]. rewrite Hcalls.
  split; [reflexivity|]. split; [reflexivity|]. split; [reflexivity|].
  unfold activity_sent. cbn [fst snd].
  destruct (truthy (cached_artwork (after_lookup env song st)));
    repeat split; reflexivity.
Qed.

Lemma activity_content_witness :
  exists act link a b,
    calls (snd (tick (fun s => s) (env_playing 100) (loop_start idle_client)))
    = calls (loop_start idle_client) ++ [JObj act]
    /\ display_url (fun s => s) (env_playing 100) song_a = Ok link
    /\ timestamps (now (env_playing 100)) song_a = Ok (a, b)
    /\ dict_get act (lit "type") = Some (JInt 2)
    /\ dict_get act (lit "name") = Some (JStr (lit "Apple Music"))
    /\ dict_get act (lit "details") = Some (JStr (SongData.title song_a))
    /\ dict_get act (lit "state")
       = Some (JStr (lit "by " ++ SongData.artist song_a))
    /\ dict_get act (lit "timestamps")
       = Some (JObj [(lit "start", JInt a); (lit "end", JInt b)])
    /\ dict_get act (lit "buttons")
       = Some (JArr [JObj [(lit "label", JStr (lit "Listen on Apple Music"));
                           (lit "url", JStr link)]])
    /\ dict_get act (lit "assets")
       = if truthy (cached_artwork
                      (snd (tick (fun s => s) (env_playing 100)
                              (loop_start idle_client))))
         then Some (JObj [(lit "large_image",
                           cached_artwork
                             (snd (tick (fun s => s) (env_playing 100)
                                     (loop_start idle_client))));
                          (lit "large_text",
                           JStr (SongData.album song_a ++ lit " by "
                                 ++ SongData.artist song_a))])
         else None.
Proof.
  apply (activity_content (fun s => s) (env_playing 100) song_a
           (loop_start idle_client)
           (snd (tick (fun s => s) (env_playing 100) (loop_start idle_client)))).
  - reflexivity.
  - vm_compute. reflexivity.
Defined.

Lemma tick_session (lower : str -> str) (env : tick_env) (st : loop_state) :
  same_session (discord st) (discord (snd (tick lower env st)))
  /\ exists made,
       calls (snd (tick lower env st)) = calls st ++ made
       /\ (List.length made <= 1)%nat.
Proof.
  destruct (current_song env) as [song|] eqn:Hs.
  - rewrite (tick_playing lower env song st Hs). cbv zeta.
    destruct (after_lookup_spec env song st) as (Hd & Hc & _).
    destruct (display_url lower env song) as [link|e].
    2:{ cbn [snd]. rewrite Hd, Hc. split; [apply same_session_refl|].
        exists []. rewrite app_nil_r. split; [reflexivity | cbn; lia]. }
    destruct (timestamps (now env) song) as [ts|e].
    2:{ cbn [snd]. rewrite Hd, Hc. split; [apply same_session_refl|].
        exists []. rewrite app_nil_r. split; [reflexivity | cbn; lia]. }
    cbn [snd discord calls]. rewrite Hc. split.
    + rewrite <- Hd at 1. apply keeps_set_activity.
    + eexists. split; [reflexivity | cbn; lia].
  - unfold tick. rewrite Hs.
    destruct (last_was_playing st) as [[|]|].
    2:{ cbn [snd]. split; [apply same_session_refl|].
        exists []. rewrite app_nil_r. split; [reflexivity | cbn; lia]. }
    all: destruct (call_set_activity_spec env JNull st) as (d & Hcall);
      pose proof (keeps_set_activity (nonce env) (pid env) JNull (discord st))
        as Hk;
      unfold bindM; rewrite Hcall;
      unfold call_set_activity in Hcall;
      destruct (DiscordRPC.set_activity (nonce env) (pid env) JNull (discord st))
        as [r d'];
      inversion Hcall; subst; cbn [snd] in *; unfold set_last_was_playing;
      cbn [snd discord calls];
      (split; [exact Hk | eexists; split; [reflexivity | cbn; lia]]).
Qed.

(** X22: the loop never reconnects and never replaces its client: after
    any turns the client has the identifier, the [connected] flag and the
    socket path it had before them, whatever the peer answered or failed to
    answer; and the turns make at most one call of [set_activity] each. *)
Theorem loop_keeps_session (lower : str -> str) (envs : list tick_env)
    (st : loop_state) :
  same_session (discord st) (discord (snd (ticks lower envs st)))
  /\ exists made,
       calls (snd (ticks lower envs st)) = calls st ++ made
       /\ (List.length made <= List.length envs)%nat.
Proof.
  revert st. induction envs as [|env rest IH]; intros st.
  - cbn. split; [apply same_session_refl|].
    exists []. rewrite app_nil_r. split; [reflexivity | cbn; lia].
  - cbn [ticks]. unfold bindM.
    destruct (tick_session lower env st) as (Hs & made & Hc & Hl).
    destruct (tick lower env st) as [[u|e] st1]; cbn [snd] in *.
    + destruct (IH st1) as (Hs' & made' & Hc' & Hl').
      split; [eapply same_session_trans; eassumption|].
      exists (made ++ made'). rewrite Hc', Hc, app_assoc.
      split; [reflexivity|]. rewrite length_app. cbn [List.length]. lia.
    + split; [exact Hs|]. exists made. split; [exact Hc|].
      cbn [List.length]. lia.
Qed.
(** ** get_current_song *)

Lemma split_from_field (f : str) (rest cur : str) :
  no_bar f ->
  split_from (lit "|||") (f ++ rest) 0 cur
  = split_from (lit "|||") rest 0 (rev f ++ cur).
Proof.
  revert cur. induction f as [|c f IH]; intros cur Hf; [reflexivity|].
  assert (Hc : c <> 124) by (intros ->; apply Hf; left; reflexivity).
  assert (Hf' : no_bar f) by (intros H; apply Hf; right; exact H).
  cbn [app split_from]. change (lit "|||") with [124; 124; 124].
  cbn [strip_prefix].
  replace (124 =? c) with false by (symmetry; apply Z.eqb_neq; lia).
  change [124; 124; 124] with (lit "|||"). rewrite (IH (c :: cur) Hf').
  cbn [rev]. rewrite <- app_assoc. reflexivity.
Qed.

Lemma split_from_sep (more cur : str) :
  split_from (lit "|||") (lit "|||" ++ more) 0 cur
  = rev cur :: split_from (lit "|||") more 0 [].
Proof. reflexivity. Qed.

Lemma split_join (fields : list str) :
  fields <> [] -> Forall no_bar fields ->
  split (lit "|||") (join_fields fields) = fields.
Proof.
  unfold split. intros Hne Hf.
  induction Hf as [|f rest Hf Hrest IH]; [congruence|].
  destruct rest as [|g rest].
  - cbn [join_fields]. rewrite <- (app_nil_r f) at 1.
    rewrite split_from_field by exact Hf. cbn [split_from].
    rewrite app_nil_r, rev_involutive. reflexivity.
  - change (join_fields (f :: g :: rest))
      with (f ++ lit "|||" ++ join_fields (g :: rest)).
    rewrite split_from_field by exact Hf. rewrite split_from_sep.
    rewrite app_nil_r, rev_involutive. rewrite IH by discriminate.
    reflexivity.
Qed.

Lemma join_fields_bar (f g : str) (rest : list str) :
  In 124 (join_fields (f :: g :: rest)).
Proof.
  change (join_fields (f :: g :: rest))
    with (f ++ lit "|||" ++ join_fields (g :: rest)).
  apply in_or_app. right. left. reflexivity.
Qed.

(** X23: [get_current_song] reads the line of the player field by field.
    For an output that, stripped, is six fields with "|||" between them
    (none holding a vertical bar), the result is the [SongData] made of the
    stripped first three fields and of the numbers of the fourth and the
    fifth, with the stripped sixth field as url when it is not blank; it is
    [None] when [float] refuses the fourth or the fifth field, or when the
    constructor of [SongData] raises. *)
Theorem get_current_song_parses (py_float : str -> option float)
    (stdout f0 f1 f2 f3 f4 f5 : str) :
  Forall no_bar [f0; f1; f2; f3; f4; f5] ->
  strip stdout = join_fields [f0; f1; f2; f3; f4; f5] ->
  get_current_song py_float (run_stdout stdout)
  = match py_float f3, py_float f4 with
    | Some d, Some p =>
        match SongData.__init__ (strip f0) (strip f1) (strip f2) d p None with
        | Ok s =>
            Some (if str_is_empty (strip f5) then s
                  else SongData.set_url s (Some (strip f5)))
        | Raise _ => None
        end
    | _, _ => None
    end.
Proof.
  intros Hf Ho. unfold get_current_song. rewrite Ho.
  pose proof (join_fields_bar f0 f1 [f2; f3; f4; f5]) as Hbar.
  destruct (join_fields [f0; f1; f2; f3; f4; f5]) as [|c out] eqn:Ej;
    [destruct Hbar|].
  cbn [str_is_empty orb].
  destruct (str_eqb (c :: out) (lit "NOT_PLAYING")) eqn:En.
  { apply str_eqb_eq in En. rewrite En in Hbar. exfalso. clear - Hbar.
    vm_compute in Hbar. intuition discriminate. }
  rewrite <- Ej. rewrite split_join by (discriminate || exact Hf).
  cbn [List.length Nat.ltb Nat.leb part nth].
  destruct (py_float f3) as [d|]; [|reflexivity].
  destruct (py_float f4) as [p|]; [|reflexivity].
  destruct (SongData.__init__ (strip f0) (strip f1) (strip f2) d p None)
    as [s|e]; [|reflexivity].
  cbn [andb]. destruct (str_is_empty (strip f5)); reflexivity.
Qed.

Lemma get_current_song_parses_witness :
  get_current_song whole_numbers (run_stdout player_line) = Some song_a.
Proof.
  refine (eq_trans
            (get_current_song_parses whole_numbers player_line
               (lit "Song A") (lit "Artist B") (lit "Album C")
               (lit "200") (lit "50") [] _ _) _).
  - repeat constructor; vm_compute; intuition discriminate.
  - vm_compute. reflexivity.
  - vm_compute. reflexivity.
Defined.

(** X24: an output with fewer than five fields gives [None]: so does the
    answer NOT_PLAYING, an empty output, and a line cut short. *)
Theorem get_current_song_too_short (py_float : str -> option float)
    (stdout : str) (fields : list str) :
  Forall no_bar fields ->
  strip stdout = join_fields fields ->
  (List.length fields < 5)%nat ->
  get_current_song py_float (run_stdout stdout) = None.
Proof.
  intros Hf Ho Hl. unfold get_current_song. rewrite Ho.
  destruct (str_is_empty (join_fields fields)
            || str_eqb (join_fields fields) (lit "NOT_PLAYING")) eqn:E;
    [reflexivity|].
  assert (Hne : fields <> []).
  { intros ->. cbn in E. discriminate. }
  rewrite split_join by assumption.
  replace (List.length fields <? 5)%nat with true
    by (symmetry; apply Nat.ltb_lt; exact Hl).
  reflexivity.
Qed.

Lemma get_current_song_too_short_witness :
  get_current_song whole_numbers
    (run_stdout (lit "Song A|||Artist B|||Album C|||200" ++ [10]))
  = None.
Proof.
  apply (get_current_song_too_short whole_numbers _
           [lit "Song A"; lit "Artist B"; lit "Album C"; lit "200"]).
  - repeat constructor; vm_compute; intuition discriminate.
  - vm_compute. reflexivity.
  - cbn. lia.
Defined.

(** X25: [get_current_song] never raises, and a song it returns is a
    validated one: title and artist are not blank, duration and position
    are not below zero, the position is not above the duration, and the url,
    when there is one, is not empty. *)
Theorem get_current_song_valid (py_float : str -> option float)
    (run : completed) (s : SongData.t) :
  get_current_song py_float run = Some s ->
  strip (SongData.title s) <> [] /\ strip (SongData.artist s) <> []
  /\ SFltb (SongData.duration s) float_zero = false
  /\ SFltb (SongData.position s) float_zero = false
  /\ SFltb (SongData.duration s) (SongData.position s) = false
  /\ SongData.url s <> Some [].
Proof.
  unfold get_current_song. destruct run as [|stdout]; [discriminate|].
  destruct (str_is_empty (strip stdout)
            || str_eqb (strip stdout) (lit "NOT_PLAYING")); [discriminate|].
  set (parts := split (lit "|||") (strip stdout)).
  destruct (List.length parts <? 5)%nat; [discriminate|].
  destruct (py_float (part parts 3)) as [d|]; [|discriminate].
  destruct (py_float (part parts 4)) as [p|]; [|discriminate].
  destruct (SongData.__init__ (strip (part parts 0)) (strip (part parts 1))
              (strip (part parts 2)) d p None) as [song|e] eqn:Ei;
    [|discriminate].
  destruct (SongData_made _ _ _ _ _ _ _ Ei)
    as (Ht & Ha & _ & Hd & Hu & _ & H1 & H2 & H3 & H4 & H5).
  destruct ((6 <=? List.length parts)%nat
            && negb (str_is_empty (strip (part parts 5)))) eqn:E6;
    intros H; inversion H; subst s; clear H.
  - unfold SongData.set_url.
    cbn [SongData.title SongData.artist SongData.duration SongData.position
         SongData.url].
    rewrite Ht, Ha. repeat split; auto.
    apply andb_prop in E6. destruct E6 as [_ E6].
    destruct (strip (part parts 5)); [discriminate | congruence].
  - rewrite Ht, Ha, Hu. repeat split; auto. discriminate.
Qed.

Lemma get_current_song_valid_witness :
  strip (SongData.title song_a) <> [] /\ strip (SongData.artist song_a) <> []
  /\ SFltb (SongData.duration song_a) float_zero = false
  /\ SFltb (SongData.position song_a) float_zero = false
  /\ SFltb (SongData.duration song_a) (SongData.position song_a) = false
  /\ SongData.url song_a <> Some [].
Proof.
  apply (get_current_song_valid whole_numbers (run_stdout player_line) song_a).
  vm_compute. reflexivity.
Defined.
(** ** The answer of the peer, and the times *)

(** X26: what [set_activity] returns once the command is sent and a packet
    is read back depends on the payload alone: [True] for a falsy one (an
    empty dict, zero, an empty text), [False] for a truthy one that is no
    dict (it has no [get]), and for a dict whether its "evt" is not
    "ERROR". *)
Theorem set_activity_answer (nonce : str) (pid : Z) (activity : json)
    (self self1 self2 : DiscordRPC.t) (op : option Z) (response : json) :
  DiscordRPC.connected self = true -> DiscordRPC.sock self <> None ->
  DiscordRPC._send_packet 1 (DiscordRPC.command nonce pid activity) self
  = (Ok tt, self1) ->
  DiscordRPC._read_packet self1 = (Ok (op, response), self2) ->
  DiscordRPC.set_activity nonce pid activity self
  = (Ok (if truthy response then
           match response with
           | JObj d => negb (eq_str (get_or_None d (lit "evt")) (lit "ERROR"))
           | _ => false
           end
         else true), self2).
Proof.
  intros Hc Hs Hsend Hread. unfold DiscordRPC.set_activity.
  rewrite Hc. destruct (DiscordRPC.sock self) as [s|]; [|congruence].
  cbn [negb orb]. unfold try_except.
  rewrite (bindM_step _ _ _ _ _ Hsend), (bindM_step _ _ _ _ _ Hread).
  cbn [snd]. destruct (truthy response) eqn:Et; [|reflexivity].
  unfold bindM, lift, ret, py_get, get_or_None.
  destruct response as [|b|z|l|x|l|d]; try reflexivity.
  destruct (eq_str match dict_get d (lit "evt") with
                   | Some x => x | None => JNull end (lit "ERROR"));
    reflexivity.
Qed.

Lemma set_activity_answer_witness :
  DiscordRPC.set_activity (lit "n") 7 JNull
    (client_on (lit "/tmp/discord-ipc-0") (frame_of 1 (lit "5")) [] true)
  = (Ok false,
     snd (DiscordRPC._read_packet
            (snd (DiscordRPC._send_packet 1
                    (DiscordRPC.command (lit "n") 7 JNull)
                    (client_on (lit "/tmp/discord-ipc-0")
                               (frame_of 1 (lit "5")) [] true))))).
Proof.
  apply (set_activity_answer (lit "n") 7 JNull
           (client_on (lit "/tmp/discord-ipc-0") (frame_of 1 (lit "5")) [] true)
           (snd (DiscordRPC._send_packet 1
                   (DiscordRPC.command (lit "n") 7 JNull)
                   (client_on (lit "/tmp/discord-ipc-0")
                              (frame_of 1 (lit "5")) [] true)))
           _ (Some 1) (JInt 5)).
  - reflexivity.
  - discriminate.
  - vm_compute. reflexivity.
  - vm_compute. reflexivity.
Defined.

Lemma int_of_float_nonneg (x : float) (k : Z) :
  match x with S754_finite s _ _ => s = false | _ => True end ->
  int_of_float x = Ok k -> 0 <= k.
Proof.
  destruct x as [s|s| |s m e]; cbn [int_of_float]; intros Hs H;
    try discriminate.
  - inversion H. lia.
  - subst s.
    assert (Hk : k = if 0 <=? e then cond_Zopp false (Zpos m * 2 ^ e)
                     else Z.quot (cond_Zopp false (Zpos m)) (2 ^ (- e)))
      by congruence.
    rewrite Hk. cbn [cond_Zopp]. clear H Hk.
    destruct (0 <=? e) eqn:E.
    + apply Z.leb_le in E. apply Z.mul_nonneg_nonneg; [lia|].
      apply Z.pow_nonneg. lia.
    + apply Z.leb_gt in E. apply Z.quot_pos; [lia|].
      apply Z.pow_pos_nonneg; lia.
Qed.

(** X27: the timestamps of a validated song bracket the present: the start
    is not after the time of the turn and the end is not before it. *)
Theorem timestamps_bracket_now (t : Z) (ti ar al : str) (d p : float)
    (u : option str) (song : SongData.t) (a b : Z) :
  float_valid d = true -> float_valid p = true ->
  SongData.__init__ ti ar al d p u = Ok song ->
  timestamps t song = Ok (a, b) ->
  a <= t <= b.
Proof.
  intros Vd Vp Hi Ht.
  destruct (validated_floats ti ar al d p u song Vd Vp Hi) as [S1 S2].
  unfold timestamps in Ht.
  destruct (int_of_float (SongData.position song)) as [x|] eqn:Ex;
    [|discriminate].
  cbn [bind] in Ht.
  destruct (int_of_float (float_sub (SongData.duration song)
                            (SongData.position song))) as [y|] eqn:Ey;
    [|discriminate].
  cbn [bind] in Ht. inversion Ht. subst.
  pose proof (int_of_float_nonneg _ _ S1 Ex).
  pose proof (int_of_float_nonneg _ _ S2 Ey). lia.
Qed.

Lemma timestamps_bracket_now_witness : 950 <= 1000 <= 1150.
Proof.
  apply (timestamps_bracket_now 1000 (lit "Song A") (lit "Artist B")
           (lit "Album C") (float_of_Z 200) (float_of_Z 50) None song_a);
    reflexivity.
Defined.
